(** * Simple kriging in two dimensions: pykrige/sk.py

    A shallow embedding of the class [SimpleKriging] and of the results
    about it.

    - NumPy's floating-point numbers are read as real numbers ([R]).
    - One-dimensional arrays are lists and numeric matrices are lists of
      rows; a boolean mask keeps its shape and its cells in row-major
      order; a [numpy.ma] array is a list of cells, [None] for a masked
      cell, whose data NumPy leaves without meaning.
    - An exception is the [Err] result of an error monad; a method that
      assigns to the object is a function of its state.
    - The modules the class imports but does not define ([core],
      [variogram_models], [scipy.linalg], [scipy.spatial.cKDTree]) are the
      fields of the record [Externals]: the class is verified for every
      such record, and [small_ext], [window_ext] and [echo_ext] are three
      of them, for the examples. *)

From Stdlib Require Import String.
From Stdlib Require Import Reals Lra Lia List Bool Arith.
Import ListNotations.
Open Scope string_scope.
Open Scope R_scope.

Set Implicit Arguments.

(** ** Exceptions *)

(** One constructor per [raise] of sk.py, and [LibraryError] for what
    NumPy, SciPy or [core] raise themselves. *)
Inductive error : Type :=
| VariogramModelNotSupported   (* ValueError: Specified variogram model '%s' is not supported. *)
| CustomFunctionMissing        (* ValueError: Must specify callable function for custom variogram model. *)
| IllBehavedCorrelation        (* ValueError: for simple kriging variogram must have well behaved correlation *)
| StyleNotSupported            (* ValueError: style argument must be 'grid', 'points', or 'masked' *)
| MaskMissing                  (* IOError: Must specify boolean masking array when style is 'masked'. *)
| MaskDimensionMismatch        (* ValueError: Mask dimensions do not match specified grid dimensions. *)
| PointsDimensionMismatch      (* ValueError: xpoints and ypoints must have same dimensions ... *)
| MovingWindowBackendNotSupported (* ValueError: Specified backend {} for a moving window is not supported. *)
| BackendNotSupported          (* ValueError: Specified backend {} is not supported for 2D ordinary kriging. *)
| LibraryError (msg : string).  (* raised by NumPy, SciPy or an imported module *)

Inductive result (A : Type) : Type :=
| Ok (a : A)
| Err (e : error).

Arguments Ok {A} a.
Arguments Err {A} e.

Definition bind {A B : Type} (r : result A) (k : A -> result B) : result B :=
  match r with
  | Ok a => k a
  | Err e => Err e
  end.

Notation "x <- r ;; k" := (bind r (fun x => k))
  (at level 61, r at next level, right associativity).
Notation "' p <- r ;; k" := (bind r (fun p => k))
  (at level 61, p pattern, r at next level, right associativity).

(** [if not c: raise e] *)
Definition require (c : bool) (e : error) : result unit :=
  if c then Ok tt else Err e.

Fixpoint mapM {A B : Type} (f : A -> result B) (l : list A) : result (list B) :=
  match l with
  | [] => Ok []
  | a :: t => b <- f a ;; bs <- mapM f t ;; Ok (b :: bs)
  end.

(** What a function of an imported module does: it returns, or it raises
    an exception of its own. *)
Inductive outcome (A : Type) : Type :=
| Returns (a : A)
| Raises (msg : string).

Arguments Returns {A} a.
Arguments Raises {A} msg.

Definition call {A : Type} (o : outcome A) : result A :=
  match o with
  | Returns a => Ok a
  | Raises msg => Err (LibraryError msg)
  end.

(** ** NumPy and SciPy operations used by the class *)

Definition matrix : Type := list (list R).

Definition np_sum (v : list R) : R := fold_right Rplus 0 v.

Definition zeros (n : nat) : list R := repeat 0 n.

(** [np.amax] and [np.amin] raise on an empty array. *)
Definition amax (v : list R) : result R :=
  match v with
  | [] => Err (LibraryError "zero-size array to reduction operation maximum which has no identity")
  | x :: t => Ok (fold_left Rmax t x)
  end.

Definition amin (v : list R) : result R :=
  match v with
  | [] => Err (LibraryError "zero-size array to reduction operation minimum which has no identity")
  | x :: t => Ok (fold_left Rmin t x)
  end.

(** [np.concatenate((x[:, np.newaxis], y[:, np.newaxis]), axis=1)] *)
Definition column_stack (x y : list R) : result (list (R * R)) :=
  _ <- require (length x =? length y)%nat
         (LibraryError "all the input array dimensions except for the concatenation axis must match exactly") ;;
  Ok (combine x y).

Definition euclidean (p q : R * R) : R :=
  sqrt (Rsqr (fst p - fst q) + Rsqr (snd p - snd q)).

(** [scipy.spatial.distance.cdist(ps, qs, 'euclidean')] *)
Definition cdist (ps qs : list (R * R)) : matrix :=
  map (fun p => map (euclidean p) qs) ps.

(** [v[0]] *)
Definition getitem0 (v : list R) : result R :=
  match v with
  | [] => Err (LibraryError "index 0 is out of bounds for axis 0 with size 0")
  | x :: _ => Ok x
  end.

(** [a = np.zeros((n, n)); a[:, :] = src] for a square [src]: the
    assignment broadcasts a 1-by-1 source and raises on any other shape
    than n-by-n. *)
Definition assign_square (n : nat) (src : matrix) : result matrix :=
  if (length src =? n)%nat then Ok src
  else match src with
       | [[v]] => Ok (repeat (repeat v n) n)
       | _ => Err (LibraryError "could not broadcast input array")
       end.

(** [dst = np.zeros(n); dst[:] = src] *)
Definition assign_row (n : nat) (src : list R) : result (list R) :=
  if (length src =? n)%nat then Ok src
  else match src with
       | [v] => Ok (repeat v n)
       | _ => Err (LibraryError "could not broadcast input array")
       end.

(** ** The state of a [SimpleKriging] object *)

Record Session : Type := {
  X_ORIG : list R;
  Y_ORIG : list R;
  Z : list R;
  verbose : bool;
  enable_plotting : bool;
  XCENTER : R;
  YCENTER : R;
  anisotropy_scaling : R;
  anisotropy_angle : R;
  X_ADJUSTED : list R;
  Y_ADJUSTED : list R;
  variogram_model : string;
  (* a variogram is evaluated elementwise on an array of distances *)
  variogram_function : list R -> R -> R;
  lags : list R;
  semivariance : list R;
  semivariance_error : list R;
  variogram_model_parameters : list R;
  delta : option (list R);
  sigma : option (list R);
  epsilon : option (list R);
  Q1 : option R;
  Q2 : option R;
  cR : option R
}.

(** [self.variogram_model_parameters[0] - self.variogram_function(self.variogram_model_parameters, h)] *)
Definition covariance (s : Session) (sill h : R) : R :=
  sill - variogram_function s (variogram_model_parameters s) h.

(** [_get_kriging_matrix] *)
Definition get_kriging_matrix (s : Session) (n : nat) : result matrix :=
  xy <- column_stack (X_ADJUSTED s) (Y_ADJUSTED s) ;;
  let d := cdist xy xy in
  sill <- getitem0 (variogram_model_parameters s) ;;
  assign_square n (map (map (covariance s sill)) d).

(** ** More array operations *)

(** [v[i]] for an index that is not negative *)
Definition getitem {A : Type} (v : list A) (i : nat) : result A :=
  match nth_error v i with
  | Some x => Ok x
  | None => Err (LibraryError "index is out of bounds")
  end.

(** [v[i] = x] *)
Fixpoint setitem {A : Type} (i : nat) (x : A) (v : list A) : list A :=
  match v, i with
  | [], _ => []
  | _ :: t, O => x :: t
  | y :: t, S i' => y :: setitem i' x t
  end.

(** [np.nonzero(~mask)[0]]: the positions of the entries that are not masked *)
Definition unmasked (mask : list bool) : list nat :=
  filter (fun j => negb (nth j mask true)) (seq 0 (length mask)).

(** [(~mask).any()] *)
Definition any_unmasked (mask : list bool) : bool := existsb negb mask.

(** NumPy's broadcasting of two one-dimensional operands *)
Definition broadcastable (n m : nat) : bool :=
  ((n =? m) || (n =? 1) || (m =? 1))%nat.

Definition broadcast_mul (u v : list R) : list R :=
  if (length u =? length v)%nat then map (fun p => fst p * snd p) (combine u v)
  else if (length v =? 1)%nat then map (fun x => x * hd 0 v) u
  else map (fun y => hd 0 u * y) v.

(** [u * v] *)
Definition np_mul (u v : list R) : result (list R) :=
  _ <- require (broadcastable (length u) (length v))
         (LibraryError "operands could not be broadcast together") ;;
  Ok (broadcast_mul u v).

(** The inner product of a row and a column of equal length *)
Definition dot (u v : list R) : R :=
  np_sum (map (fun p => fst p * snd p) (combine u v)).

(** [np.dot(m, b)] for a matrix [m] and a column [b] *)
Definition mat_vec (m : matrix) (b : list R) : list R :=
  map (fun row => dot row b) m.

Definition aligned (m : matrix) (n : nat) : bool :=
  forallb (fun row => (length row =? n)%nat) m.

Definition np_dot_vec (m : matrix) (b : list R) : result (list R) :=
  _ <- require (aligned m (length b)) (LibraryError "shapes not aligned") ;;
  Ok (mat_vec m b).

(** [m.T] for a matrix with [ncols] columns *)
Definition transpose (ncols : nat) (m : matrix) : matrix :=
  map (fun j => map (fun row => nth j row 0) m) (seq 0 ncols).

(** [np.dot(m, p)] for two matrices, [p] with [ncols] columns *)
Definition mat_mul (m : matrix) (ncols : nat) (p : matrix) : matrix :=
  map (fun row => map (dot row) (transpose ncols p)) m.

(** [u.dot(v)] for two one-dimensional arrays *)
Definition np_dot (u v : list R) : result R :=
  _ <- require (length u =? length v)%nat (LibraryError "shapes not aligned") ;;
  Ok (dot u v).

(** A one-dimensional result: a plain array, or a [numpy.ma] array whose
    masked cells are [None]. *)
Inductive ndarray1 : Type :=
| Plain (v : list R)
| Masked (c : list (option R)).

Definition cells (a : ndarray1) : list (option R) :=
  match a with
  | Plain v => map Some v
  | Masked c => c
  end.

Definition size (a : ndarray1) : nat := length (cells a).

(** The cell [k] of an array: its value, or [None] when it is masked (or
    when [k] is out of range). *)
Definition cell_at (a : ndarray1) (k : nat) : option R := nth k (cells a) None.

Definition hide (c : option R) (m : bool) : option R := if m then None else c.

Definition apply_mask (c : list (option R)) (mask : list bool) : list (option R) :=
  map (fun p => hide (fst p) (snd p)) (combine c mask).

(** [row.filled(0)]: the entries of a masked row, with 0 for the masked ones *)
Definition filled0 (row : list R) (flags : list bool) : list R :=
  map (fun p => if snd p : bool then 0 else fst p) (combine row flags).

(** [np.sum] along a row of a masked array: the sum of the entries that
    are not masked, and a masked cell when every entry is masked (as in a
    row of no entries). *)
Definition ma_sum (row : list R) (flags : list bool) : option R :=
  if forallb (fun f => f) flags then None else Some (np_sum (filled0 row flags)).

(** The flags of a row in a product that NumPy broadcasts to [w] entries *)
Definition broadcast_flags (flags : list bool) (w : nat) : list bool :=
  if (length flags =? w)%nat then flags else repeat (hd true flags) w.

(** [np.ma.array(a, mask=mask)]: the flags of [mask] are added to those
    [a] already carries. *)
Definition ma_array (a : ndarray1) (mask : list bool) : result ndarray1 :=
  _ <- require (size a =? length mask)%nat (LibraryError "Mask and data not compatible") ;;
  Ok (Masked (apply_mask (cells a) mask)).

(** The mask that [np.ma.array(b, mask=flags)] gives to a [b] of [npt] rows
    of [n] entries, for [flags] with rows of [n] entries: [flags], when it
    has the shape of [b]; a mask of another shape is resized when it has
    one entry and reshaped when it has as many entries as [b] (with rows
    of [n] entries and another number of rows, only when [n] is 0 and
    there is no entry), and refused otherwise. *)
Definition ma_mask (flags : list (list bool)) (npt n : nat) : result (list (list bool)) :=
  if (length flags =? npt)%nat then Ok flags
  else if (length flags * n =? 1)%nat
       then Ok (repeat (repeat (hd true (concat flags)) n) npt)
       else if (length flags * n =? npt * n)%nat then Ok (repeat [] npt)
            else Err (LibraryError "Mask and data not compatible").

(** What [execute] returns: a flat array, or one reshaped to [ny] rows of
    [nx] cells (kept in row-major order, as NumPy keeps it). *)
Inductive output : Type :=
| Flat (a : ndarray1)
| Grid (ny nx : nat) (a : ndarray1).

(** [a.reshape((ny, nx))] *)
Definition reshape (ny nx : nat) (a : ndarray1) : result output :=
  _ <- require (size a =? ny * nx)%nat (LibraryError "cannot reshape array") ;;
  Ok (Grid ny nx a).

(** A two-dimensional boolean array: its shape and its cells in row-major
    order. *)
Record mask2d : Type := {
  shape0 : nat;
  shape1 : nat;
  flat : list bool
}.

(** [mask.T] *)
Definition mask_T (m : mask2d) : mask2d :=
  {| shape0 := shape1 m;
     shape1 := shape0 m;
     flat := flat_map (fun j => map (fun i => nth (i * shape1 m + j) (flat m) true)
                                    (seq 0 (shape0 m)))
                      (seq 0 (shape1 m)) |}.

(** [mask[r, c]] *)
Definition mask_get (m : mask2d) (r c : nat) : bool := nth (r * shape1 m + c) (flat m) true.

(** [np.meshgrid(xpts, ypts)], both grids flattened *)
Definition meshgrid_flat (xpts ypts : list R) : list R * list R :=
  (flat_map (fun _ => xpts) ypts, flat_map (fun y => map (fun _ => y) xpts) ypts).

(** ** The modules the class imports *)

(** A variogram function, [f(params, h)], applied entry by entry to an
    array of distances.  The functions of [variogram_models] and the
    callable of the kind ['custom'] are taken where they return a number:
    a callable that raises, as one that reads a parameter the list does
    not have, is outside the model, and the statements below are about
    callables that return. *)
Definition variogram : Type := list R -> R -> R.

Record Externals : Type := {
  (* core *)
  adjust_for_anisotropy :
    list R -> list R -> R -> R -> R -> R -> outcome (list R * list R);
  initialize_variogram_model :
    list R -> list R -> list R -> string -> option (list R) -> variogram ->
    nat -> nat -> option R -> option R ->
    outcome (list R * list R * list R * list R);
  find_statistics :
    list R -> list R -> list R -> variogram -> list R ->
    outcome (list R * list R * list R);
  calcQ1 : list R -> outcome R;
  calcQ2 : list R -> outcome R;
  calc_cR : R -> list R -> outcome R;
  (* variogram_models *)
  linear_variogram_model : variogram;
  power_variogram_model : variogram;
  gaussian_variogram_model : variogram;
  spherical_variogram_model : variogram;
  exponential_variogram_model : variogram;
  (* scipy.linalg: the factorisations themselves *)
  linalg_inv : matrix -> outcome matrix;
  linalg_solve : matrix -> list R -> outcome (list R);
  (* scipy.spatial.cKDTree(data).query(points, k, eps=0.0) *)
  kdtree_query : list (R * R) -> list (R * R) -> nat -> outcome (matrix * list (list nat))
}.

(** ** Methods that change the object

    A method is a function of the object's state that returns the new state
    and a value or an exception: what was assigned before a [raise] stays
    assigned. *)

Definition method (A : Type) : Type := Session -> Session * result A.

Definition ret {A : Type} (a : A) : method A := fun s => (s, Ok a).

Definition bindM {A B : Type} (m : method A) (k : A -> method B) : method B :=
  fun s =>
    match m s with
    | (s', Ok a) => k a s'
    | (s', Err e) => (s', Err e)
    end.

Definition lift {A : Type} (r : result A) : method A := fun s => (s, r).

Definition self : method Session := fun s => (s, Ok s).

Definition assign (f : Session -> Session) : method unit := fun s => (f s, Ok tt).

Notation "x <-- m ;;; k" := (bindM m (fun x => k))
  (at level 61, m at next level, right associativity).
Notation "' p <-- m ;;; k" := (bindM m (fun p => k))
  (at level 61, p pattern, m at next level, right associativity).

(** [self.anisotropy_scaling = sc; self.anisotropy_angle = an] *)
Definition set_anisotropy (sc an : R) (s : Session) : Session :=
  {| X_ORIG := X_ORIG s; Y_ORIG := Y_ORIG s; Z := Z s;
     verbose := verbose s; enable_plotting := enable_plotting s;
     XCENTER := XCENTER s; YCENTER := YCENTER s;
     anisotropy_scaling := sc; anisotropy_angle := an;
     X_ADJUSTED := X_ADJUSTED s; Y_ADJUSTED := Y_ADJUSTED s;
     variogram_model := variogram_model s;
     variogram_function := variogram_function s;
     lags := lags s; semivariance := semivariance s;
     semivariance_error := semivariance_error s;
     variogram_model_parameters := variogram_model_parameters s;
     delta := delta s; sigma := sigma s; epsilon := epsilon s;
     Q1 := Q1 s; Q2 := Q2 s; cR := cR s |}.

(** [self.X_ADJUSTED, self.Y_ADJUSTED = xa, ya] *)
Definition set_adjusted (xa ya : list R) (s : Session) : Session :=
  {| X_ORIG := X_ORIG s; Y_ORIG := Y_ORIG s; Z := Z s;
     verbose := verbose s; enable_plotting := enable_plotting s;
     XCENTER := XCENTER s; YCENTER := YCENTER s;
     anisotropy_scaling := anisotropy_scaling s;
     anisotropy_angle := anisotropy_angle s;
     X_ADJUSTED := xa; Y_ADJUSTED := ya;
     variogram_model := variogram_model s;
     variogram_function := variogram_function s;
     lags := lags s; semivariance := semivariance s;
     semivariance_error := semivariance_error s;
     variogram_model_parameters := variogram_model_parameters s;
     delta := delta s; sigma := sigma s; epsilon := epsilon s;
     Q1 := Q1 s; Q2 := Q2 s; cR := cR s |}.

(** [self.variogram_model = name] *)
Definition set_variogram_model (name : string) (s : Session) : Session :=
  {| X_ORIG := X_ORIG s; Y_ORIG := Y_ORIG s; Z := Z s;
     verbose := verbose s; enable_plotting := enable_plotting s;
     XCENTER := XCENTER s; YCENTER := YCENTER s;
     anisotropy_scaling := anisotropy_scaling s;
     anisotropy_angle := anisotropy_angle s;
     X_ADJUSTED := X_ADJUSTED s; Y_ADJUSTED := Y_ADJUSTED s;
     variogram_model := name;
     variogram_function := variogram_function s;
     lags := lags s; semivariance := semivariance s;
     semivariance_error := semivariance_error s;
     variogram_model_parameters := variogram_model_parameters s;
     delta := delta s; sigma := sigma s; epsilon := epsilon s;
     Q1 := Q1 s; Q2 := Q2 s; cR := cR s |}.

(** [self.variogram_function = f] *)
Definition set_variogram_function (f : variogram) (s : Session) : Session :=
  {| X_ORIG := X_ORIG s; Y_ORIG := Y_ORIG s; Z := Z s;
     verbose := verbose s; enable_plotting := enable_plotting s;
     XCENTER := XCENTER s; YCENTER := YCENTER s;
     anisotropy_scaling := anisotropy_scaling s;
     anisotropy_angle := anisotropy_angle s;
     X_ADJUSTED := X_ADJUSTED s; Y_ADJUSTED := Y_ADJUSTED s;
     variogram_model := variogram_model s;
     variogram_function := f;
     lags := lags s; semivariance := semivariance s;
     semivariance_error := semivariance_error s;
     variogram_model_parameters := variogram_model_parameters s;
     delta := delta s; sigma := sigma s; epsilon := epsilon s;
     Q1 := Q1 s; Q2 := Q2 s; cR := cR s |}.

(** [self.lags, self.semivariance, self.semivariance_error,
    self.variogram_model_parameters = fit] *)
Definition set_fit (fit : list R * list R * list R * list R) (s : Session) : Session :=
  let '(l, sv, sve, p) := fit in
  {| X_ORIG := X_ORIG s; Y_ORIG := Y_ORIG s; Z := Z s;
     verbose := verbose s; enable_plotting := enable_plotting s;
     XCENTER := XCENTER s; YCENTER := YCENTER s;
     anisotropy_scaling := anisotropy_scaling s;
     anisotropy_angle := anisotropy_angle s;
     X_ADJUSTED := X_ADJUSTED s; Y_ADJUSTED := Y_ADJUSTED s;
     variogram_model := variogram_model s;
     variogram_function := variogram_function s;
     lags := l; semivariance := sv; semivariance_error := sve;
     variogram_model_parameters := p;
     delta := delta s; sigma := sigma s; epsilon := epsilon s;
     Q1 := Q1 s; Q2 := Q2 s; cR := cR s |}.

(** [self.delta, self.sigma, self.epsilon = st] *)
Definition set_statistics (st : list R * list R * list R) (s : Session) : Session :=
  let '(d, sg, e) := st in
  {| X_ORIG := X_ORIG s; Y_ORIG := Y_ORIG s; Z := Z s;
     verbose := verbose s; enable_plotting := enable_plotting s;
     XCENTER := XCENTER s; YCENTER := YCENTER s;
     anisotropy_scaling := anisotropy_scaling s;
     anisotropy_angle := anisotropy_angle s;
     X_ADJUSTED := X_ADJUSTED s; Y_ADJUSTED := Y_ADJUSTED s;
     variogram_model := variogram_model s;
     variogram_function := variogram_function s;
     lags := lags s; semivariance := semivariance s;
     semivariance_error := semivariance_error s;
     variogram_model_parameters := variogram_model_parameters s;
     delta := Some d; sigma := Some sg; epsilon := Some e;
     Q1 := Q1 s; Q2 := Q2 s; cR := cR s |}.

Definition set_Q1 (q : R) (s : Session) : Session :=
  {| X_ORIG := X_ORIG s; Y_ORIG := Y_ORIG s; Z := Z s;
     verbose := verbose s; enable_plotting := enable_plotting s;
     XCENTER := XCENTER s; YCENTER := YCENTER s;
     anisotropy_scaling := anisotropy_scaling s;
     anisotropy_angle := anisotropy_angle s;
     X_ADJUSTED := X_ADJUSTED s; Y_ADJUSTED := Y_ADJUSTED s;
     variogram_model := variogram_model s;
     variogram_function := variogram_function s;
     lags := lags s; semivariance := semivariance s;
     semivariance_error := semivariance_error s;
     variogram_model_parameters := variogram_model_parameters s;
     delta := delta s; sigma := sigma s; epsilon := epsilon s;
     Q1 := Some q; Q2 := Q2 s; cR := cR s |}.

Definition set_Q2 (q : R) (s : Session) : Session :=
  {| X_ORIG := X_ORIG s; Y_ORIG := Y_ORIG s; Z := Z s;
     verbose := verbose s; enable_plotting := enable_plotting s;
     XCENTER := XCENTER s; YCENTER := YCENTER s;
     anisotropy_scaling := anisotropy_scaling s;
     anisotropy_angle := anisotropy_angle s;
     X_ADJUSTED := X_ADJUSTED s; Y_ADJUSTED := Y_ADJUSTED s;
     variogram_model := variogram_model s;
     variogram_function := variogram_function s;
     lags := lags s; semivariance := semivariance s;
     semivariance_error := semivariance_error s;
     variogram_model_parameters := variogram_model_parameters s;
     delta := delta s; sigma := sigma s; epsilon := epsilon s;
     Q1 := Q1 s; Q2 := Some q; cR := cR s |}.

Definition set_cR (c : R) (s : Session) : Session :=
  {| X_ORIG := X_ORIG s; Y_ORIG := Y_ORIG s; Z := Z s;
     verbose := verbose s; enable_plotting := enable_plotting s;
     XCENTER := XCENTER s; YCENTER := YCENTER s;
     anisotropy_scaling := anisotropy_scaling s;
     anisotropy_angle := anisotropy_angle s;
     X_ADJUSTED := X_ADJUSTED s; Y_ADJUSTED := Y_ADJUSTED s;
     variogram_model := variogram_model s;
     variogram_function := variogram_function s;
     lags := lags s; semivariance := semivariance s;
     semivariance_error := semivariance_error s;
     variogram_model_parameters := variogram_model_parameters s;
     delta := delta s; sigma := sigma s; epsilon := epsilon s;
     Q1 := Q1 s; Q2 := Q2 s; cR := Some c |}.

(** [self.verbose = b] *)
Definition set_verbose (b : bool) (s : Session) : Session :=
  {| X_ORIG := X_ORIG s; Y_ORIG := Y_ORIG s; Z := Z s;
     verbose := b; enable_plotting := enable_plotting s;
     XCENTER := XCENTER s; YCENTER := YCENTER s;
     anisotropy_scaling := anisotropy_scaling s;
     anisotropy_angle := anisotropy_angle s;
     X_ADJUSTED := X_ADJUSTED s; Y_ADJUSTED := Y_ADJUSTED s;
     variogram_model := variogram_model s;
     variogram_function := variogram_function s;
     lags := lags s; semivariance := semivariance s;
     semivariance_error := semivariance_error s;
     variogram_model_parameters := variogram_model_parameters s;
     delta := delta s; sigma := sigma s; epsilon := epsilon s;
     Q1 := Q1 s; Q2 := Q2 s; cR := cR s |}.

(** [self.enable_plotting = b] *)
Definition set_enable_plotting (b : bool) (s : Session) : Session :=
  {| X_ORIG := X_ORIG s; Y_ORIG := Y_ORIG s; Z := Z s;
     verbose := verbose s; enable_plotting := b;
     XCENTER := XCENTER s; YCENTER := YCENTER s;
     anisotropy_scaling := anisotropy_scaling s;
     anisotropy_angle := anisotropy_angle s;
     X_ADJUSTED := X_ADJUSTED s; Y_ADJUSTED := Y_ADJUSTED s;
     variogram_model := variogram_model s;
     variogram_function := variogram_function s;
     lags := lags s; semivariance := semivariance s;
     semivariance_error := semivariance_error s;
     variogram_model_parameters := variogram_model_parameters s;
     delta := delta s; sigma := sigma s; epsilon := epsilon s;
     Q1 := Q1 s; Q2 := Q2 s; cR := cR s |}.

(** A keyword argument with its default *)
Definition kwarg {A : Type} (given : option A) (default : A) : A :=
  match given with
  | Some a => a
  | None => default
  end.

(** [a != b] on numbers *)
Definition Rneqb (a b : R) : bool := if Req_dec_T a b then false else true.

(** ** The class [SimpleKriging]

    Printing ([verbose]) and plotting ([enable_plotting]) do not change
    the object and are left out. *)

Section SimpleKriging.

Variable ext : Externals.

(** [variogram_dict] *)
Definition variogram_dict (name : string) : option variogram :=
  if (name =? "linear")%string then Some (linear_variogram_model ext)
  else if (name =? "power")%string then Some (power_variogram_model ext)
  else if (name =? "gaussian")%string then Some (gaussian_variogram_model ext)
  else if (name =? "spherical")%string then Some (spherical_variogram_model ext)
  else if (name =? "exponential")%string then Some (exponential_variogram_model ext)
  else None.

(** The choice of [self.variogram_function], for [__init__] and
    [update_variogram_model] alike.  [given] is the argument
    [variogram_function]: [None], or a callable. *)
Definition select_variogram_function (name : string) (given : option variogram)
  : result variogram :=
  let in_dict := match variogram_dict name with Some _ => true | None => false end in
  if negb in_dict && negb (name =? "custom")%string then Err VariogramModelNotSupported
  else if (name =? "custom")%string then
    match given with
    | None => Err CustomFunctionMissing
    | Some f => Ok f
    end
  else
    match variogram_dict name with
    | Some f => Ok f
    | None => Err (LibraryError "KeyError")
    end.

(** [__init__].  The arrays [x], [y], [z] are one-dimensional, as the code
    assumes; [np.atleast_1d(np.squeeze(np.array(v, copy=True)))] then is [v]. *)
Definition init (x y z : list R) (model : string)
    (variogram_parameters : option (list R)) (given : option variogram)
    (nlags weight : nat) (scaling angle : R)
    (verbose_ enable_plotting_ enable_statistics : bool)
    (min_theta max_theta : option R) : result Session :=
  xmax <- amax x ;;
  xmin <- amin x ;;
  let xcenter := (xmax + xmin) / 2 in
  ymax <- amax y ;;
  ymin <- amin y ;;
  let ycenter := (ymax + ymin) / 2 in
  ' (xa, ya) <- call (adjust_for_anisotropy ext x y xcenter ycenter scaling angle) ;;
  f <- select_variogram_function model given ;;
  ' (l, sv, sve, p) <- call (initialize_variogram_model ext xa ya z model
                         variogram_parameters f nlags weight min_theta max_theta) ;;
  let s := {| X_ORIG := x; Y_ORIG := y; Z := z;
              verbose := verbose_; enable_plotting := enable_plotting_;
              XCENTER := xcenter; YCENTER := ycenter;
              anisotropy_scaling := scaling; anisotropy_angle := angle;
              X_ADJUSTED := xa; Y_ADJUSTED := ya;
              variogram_model := model;
              variogram_function := f;
              lags := l; semivariance := sv; semivariance_error := sve;
              variogram_model_parameters := p;
              delta := None; sigma := None; epsilon := None;
              Q1 := None; Q2 := None; cR := None |} in
  if enable_statistics then
    ' (d, sg, e) <- call (find_statistics ext xa ya z f p) ;;
    q1 <- call (calcQ1 ext e) ;;
    q2 <- call (calcQ2 ext e) ;;
    c <- call (calc_cR ext q2 sg) ;;
    Ok (set_cR c (set_Q2 q2 (set_Q1 q1 (set_statistics (d, sg, e) s))))
  else Ok s.

(** The first statement of [update_variogram_model]: the two anisotropy
    parameters are assigned, and the data coordinates adjusted again, when
    one of the arguments differs from the stored value. *)
Definition update_anisotropy (scaling angle : R) : method unit :=
  s <-- self ;;;
  if Rneqb scaling (anisotropy_scaling s) || Rneqb angle (anisotropy_angle s)
  then
    _ <-- assign (set_anisotropy scaling angle) ;;;
    s <-- self ;;;
    ' (xa, ya) <-- lift (call (adjust_for_anisotropy ext (X_ORIG s) (Y_ORIG s)
                           (XCENTER s) (YCENTER s)
                           (anisotropy_scaling s) (anisotropy_angle s))) ;;;
    assign (set_adjusted xa ya)
  else ret tt.

(** [update_variogram_model].  A keyword argument that the caller leaves
    out is [None]. *)
Definition update_variogram_model (model : string)
    (variogram_parameters : option (list R)) (given : option variogram)
    (nlags weight : option nat)
    (anisotropy_scaling_ anisotropy_angle_ : option R) : method unit :=
  let nlags := kwarg nlags 6%nat in
  let weight := kwarg weight 0%nat in
  let scaling := kwarg anisotropy_scaling_ 1 in
  let angle := kwarg anisotropy_angle_ 0 in
  _ <-- update_anisotropy scaling angle ;;;
  _ <-- assign (set_variogram_model model) ;;;
  f <-- lift (select_variogram_function model given) ;;;
  _ <-- assign (set_variogram_function f) ;;;
  s <-- self ;;;
  fit <-- lift (call (initialize_variogram_model ext (X_ADJUSTED s) (Y_ADJUSTED s) (Z s)
                  (variogram_model s) variogram_parameters
                  (variogram_function s) nlags weight None None)) ;;;
  _ <-- assign (set_fit fit) ;;;
  s <-- self ;;;
  st <-- lift (call (find_statistics ext (X_ADJUSTED s) (Y_ADJUSTED s) (Z s)
                 (variogram_function s) (variogram_model_parameters s))) ;;;
  _ <-- assign (set_statistics st) ;;;
  q1 <-- lift (call (calcQ1 ext (snd st))) ;;;
  _ <-- assign (set_Q1 q1) ;;;
  q2 <-- lift (call (calcQ2 ext (snd st))) ;;;
  _ <-- assign (set_Q2 q2) ;;;
  c <-- lift (call (calc_cR ext q2 (snd (fst st)))) ;;;
  assign (set_cR c).

(** [switch_verbose] *)
Definition switch_verbose : method unit :=
  s <-- self ;;;
  assign (set_verbose (negb (verbose s))).

(** [switch_plotting] *)
Definition switch_plotting : method unit :=
  s <-- self ;;;
  assign (set_enable_plotting (negb (enable_plotting s))).

(** [get_epsilon_residuals]: [None] is Python's [None], which the
    attribute holds until the statistics are computed. *)
Definition get_epsilon_residuals : method (option (list R)) :=
  s <-- self ;;;
  ret (epsilon s).

(** [get_statistics] *)
Definition get_statistics : method (option R * option R * option R) :=
  s <-- self ;;;
  ret (Q1 s, Q2 s, cR s).

(** *** The three solvers *)

(** [b = sill - variogram(bd)], written into a row of [n] zeros *)
Definition cross_covariance (s : Session) (n : nat) (sill : R) (bd : list R)
  : result (list R) :=
  assign_row n (map (covariance s sill) bd).

(** The weights of [_exec_vector]:
    [x = np.dot(a_inv, b.reshape((npt, n)).T).reshape((1, n, npt)).T],
    read as its [npt] rows [x[k, :, 0]]. *)
Definition exec_vector_weights (a_inv : matrix) (npt n : nat) (b : matrix) : matrix :=
  transpose npt (mat_mul a_inv npt (transpose n b)).

(** [mask_b = np.repeat(mask[:, np.newaxis, np.newaxis], n, axis=1)]: the
    flag of a query point, on each of the [n] entries of its row *)
Definition mask_b (mask : list bool) (n : nat) : list (list bool) :=
  map (fun m => repeat m n) mask.

(** [_exec_vector].  With a point that is not masked, [b] becomes a masked
    array with the mask that [np.ma.array] makes of [mask_b]; [np.dot]
    computes on its data and hands its mask on to [x], so the two products
    carry the flags of that mask, and their sums along the rows are masked
    at the masked points. *)
Definition exec_vector (s : Session) (a bd : matrix) (mask : list bool)
  : result (ndarray1 * ndarray1) :=
  let npt := length bd in
  let n := length (X_ADJUSTED s) in
  a_inv <- call (linalg_inv ext a) ;;
  sill <- getitem0 (variogram_model_parameters s) ;;
  b <- mapM (cross_covariance s n sill) bd ;;
  flags <- (if any_unmasked mask then ma_mask (mask_b mask n) npt n else Ok []) ;;
  _ <- require (aligned a_inv n) (LibraryError "shapes not aligned") ;;
  _ <- require (length a_inv * npt =? n * npt)%nat (LibraryError "cannot reshape array") ;;
  let x := exec_vector_weights a_inv npt n b in
  _ <- require (broadcastable n (length (Z s)))
         (LibraryError "operands could not be broadcast together") ;;
  let xz := map (fun xk => broadcast_mul xk (Z s)) x in
  let xb := map (fun p => broadcast_mul (fst p) (snd p)) (combine x b) in
  if any_unmasked mask
  then
    Ok (Masked (map (fun p => ma_sum (fst p) (broadcast_flags (snd p) (length (fst p))))
                    (combine xz flags)),
        Masked (map (fun p => option_map (Rminus sill) (ma_sum (fst p) (snd p)))
                    (combine xb flags)))
  else Ok (Plain (map np_sum xz), Plain (map (fun row => sill - np_sum row) xb)).

(** The body of the loop of [_exec_loop], for the query point [j] *)
Definition exec_loop_body (s : Session) (a_inv bd_all : matrix) (n : nat)
    (acc : list R * list R) (j : nat) : result (list R * list R) :=
  let '(zvalues, sigmasq) := acc in
  bd <- getitem bd_all j ;;
  sill <- getitem0 (variogram_model_parameters s) ;;
  b <- cross_covariance s n sill bd ;;
  x <- np_dot_vec a_inv b ;;
  xz <- np_mul x (Z s) ;;
  let zvalues := setitem j (np_sum xz) zvalues in
  xb <- np_mul x b ;;
  let sigmasq := setitem j (sill - np_sum xb) sigmasq in
  Ok (zvalues, sigmasq).

(** [for j in js: body] *)
Fixpoint for_each {A : Type} (body : A -> nat -> result A) (js : list nat) (acc : A)
  : result A :=
  match js with
  | [] => Ok acc
  | j :: rest => acc' <- body acc j ;; for_each body rest acc'
  end.

(** [_exec_loop] *)
Definition exec_loop (s : Session) (a bd_all : matrix) (mask : list bool)
  : result (ndarray1 * ndarray1) :=
  let npt := length bd_all in
  let n := length (X_ADJUSTED s) in
  a_inv <- call (linalg_inv ext a) ;;
  ' (zvalues, sigmasq) <- for_each (exec_loop_body s a_inv bd_all n) (unmasked mask)
                            (zeros npt, zeros npt) ;;
  Ok (Plain zvalues, Plain sigmasq).

(** [scipy.linalg.solve(a, b)]: SciPy checks the two shapes before it
    factorises. *)
Definition scipy_linalg_solve (a : matrix) (b : list R) : result (list R) :=
  _ <- require (aligned a (length a)) (LibraryError "expected square matrix") ;;
  _ <- require (length a =? length b)%nat (LibraryError "incompatible dimensions") ;;
  call (linalg_solve ext a b).

(** [np.concatenate((b_selector, np.array([a_all.shape[0] - 1])))] *)
Definition a_selector (a_all : matrix) (b_selector : list nat) : list nat :=
  b_selector ++ [(length a_all - 1)%nat].

(** [a_all[sel[:, None], sel]] *)
Definition select_rows_columns (a_all : matrix) (sel : list nat) : result matrix :=
  mapM (fun r => row <- getitem a_all r ;; mapM (getitem row) sel) sel.

(** [bd_idx.shape[1]] *)
Definition row_length {A : Type} (m : list (list A)) : nat :=
  match m with
  | [] => 0%nat
  | row :: _ => length row
  end.

(** The body of the loop of [_exec_loop_moving_window], for the query point [i] *)
Definition moving_window_body (s : Session) (a_all bd_all : matrix)
    (bd_idx : list (list nat)) (n : nat)
    (acc : list R * list R) (i : nat) : result (list R * list R) :=
  let '(zvalues, sigmasq) := acc in
  b_selector <- getitem bd_idx i ;;
  bd <- getitem bd_all i ;;
  a <- select_rows_columns a_all (a_selector a_all b_selector) ;;
  sill <- getitem0 (variogram_model_parameters s) ;;
  b <- cross_covariance s n sill bd ;;
  x <- scipy_linalg_solve a b ;;
  zsel <- mapM (getitem (Z s)) b_selector ;;
  z <- np_dot x zsel ;;
  let zvalues := setitem i z zvalues in
  xb <- np_dot x b ;;
  let sigmasq := setitem i (sill - xb) sigmasq in
  Ok (zvalues, sigmasq).

(** [_exec_loop_moving_window] *)
Definition exec_loop_moving_window (s : Session) (a_all bd_all : matrix)
    (mask : list bool) (bd_idx : list (list nat)) : result (ndarray1 * ndarray1) :=
  let npt := length bd_all in
  let n := row_length bd_idx in
  ' (zvalues, sigmasq) <- for_each (moving_window_body s a_all bd_all bd_idx n)
                            (unmasked mask) (zeros npt, zeros npt) ;;
  Ok (Plain zvalues, Plain sigmasq).

(** *** [execute] *)

(** The test of the mask's shape against the grid, for the style
    ['masked']: the mask as the solvers get it, flattened. *)
Definition check_mask (mask : option mask2d) (ny nx : nat) : result (list bool) :=
  match mask with
  | None => Err MaskMissing
  | Some m =>
      if negb (shape0 m =? ny)%nat || negb (shape1 m =? nx)%nat
      then if (shape0 m =? nx)%nat && (shape1 m =? ny)%nat
           then Ok (flat (mask_T m))
           else Err MaskDimensionMismatch
      else Ok (flat m)
  end.

Definition is_grid_or_masked (style : string) : bool :=
  ((style =? "grid") || (style =? "masked"))%string.

(** The query points of the three styles: their number, their
    coordinates, and the mask of the style ['masked']. *)
Definition query_points (style : string) (xpts ypts : list R) (mask : option mask2d)
  : result (nat * list R * list R * list bool) :=
  let nx := length xpts in
  let ny := length ypts in
  if is_grid_or_masked style then
    m <- (if (style =? "masked")%string then check_mask mask ny nx else Ok []) ;;
    let npt := (ny * nx)%nat in
    let '(grid_x, grid_y) := meshgrid_flat xpts ypts in
    Ok (npt, grid_x, grid_y, m)
  else if (style =? "points")%string then
    _ <- require (length xpts =? length ypts)%nat PointsDimensionMismatch ;;
    Ok (nx, xpts, ypts, [])
  else Err StyleNotSupported.

(** The choice of the solver, by [n_closest_points] and [backend] *)
Definition solve (s : Session) (a : matrix) (xy_points xy_data : list (R * R))
    (mask : list bool) (backend : string) (n_closest_points : option nat)
  : result (ndarray1 * ndarray1) :=
  match n_closest_points with
  | Some k =>
      ' (bd, bd_idx) <- call (kdtree_query ext xy_data xy_points k) ;;
      if (backend =? "loop")%string
      then exec_loop_moving_window s a bd mask bd_idx
      else Err MovingWindowBackendNotSupported
  | None =>
      let bd := cdist xy_points xy_data in
      if (backend =? "vectorized")%string then exec_vector s a bd mask
      else if (backend =? "loop")%string then exec_loop s a bd mask
      else Err BackendNotSupported
  end.

Definition execute (s : Session) (style : string) (xpoints ypoints : list R)
    (mask : option mask2d) (backend : string) (n_closest_points : option nat)
  : result (output * output) :=
  _ <- require (negb ((variogram_model s =? "linear") || (variogram_model s =? "power"))%string)
         IllBehavedCorrelation ;;
  _ <- require (negb (negb (style =? "grid") && negb (style =? "masked")
                      && negb (style =? "points"))%string)
         StyleNotSupported ;;
  let n := length (X_ADJUSTED s) in
  let nx := length xpoints in
  let ny := length ypoints in
  a <- get_kriging_matrix s n ;;
  ' (npt, xpts, ypts, mask) <- query_points style xpoints ypoints mask ;;
  ' (xpts, ypts) <- call (adjust_for_anisotropy ext xpts ypts (XCENTER s) (YCENTER s)
                      (anisotropy_scaling s) (anisotropy_angle s)) ;;
  let mask := if negb (style =? "masked")%string then repeat false npt else mask in
  xy_points <- column_stack xpts ypts ;;
  xy_data <- column_stack (X_ADJUSTED s) (Y_ADJUSTED s) ;;
  ' (zvalues, sigmasq) <- solve s a xy_points xy_data mask backend n_closest_points ;;
  ' (zvalues, sigmasq) <-
    (if (style =? "masked")%string
     then z <- ma_array zvalues mask ;; v <- ma_array sigmasq mask ;; Ok (z, v)
     else Ok (zvalues, sigmasq)) ;;
  if is_grid_or_masked style
  then z <- reshape ny nx zvalues ;; v <- reshape ny nx sigmasq ;; Ok (z, v)
  else Ok (Flat zvalues, Flat sigmasq).

End SimpleKriging.

(** ** An instance of the imported modules, and the sessions of the examples *)

(** Modelled from the spec: [core.adjust_for_anisotropy], which is not in
    sk.py.  Section 4.1: the point cloud is rotated clockwise by [angle]
    degrees about the centre, then the rotated y axis is stretched by
    [scaling]; the transform has no failure mode on a point cloud, which
    has an x and a y for each of its points (Section 3), and it is given
    nothing else: the model raises when the numbers of x and of y
    differ. *)
Definition rotate_stretch (cx cy scaling angle : R) (p : R * R) : R * R :=
  let t := angle * PI / 180 in
  let dx := fst p - cx in
  let dy := snd p - cy in
  (cx + (cos t * dx + sin t * dy), cy + scaling * (- sin t * dx + cos t * dy)).

Definition spec_adjust_for_anisotropy (x y : list R) (cx cy scaling angle : R)
  : outcome (list R * list R) :=
  if (length x =? length y)%nat then
    let pts := map (rotate_stretch cx cy scaling angle) (combine x y) in
    Returns (map fst pts, map snd pts)
  else Raises "transform: not a point cloud".

(** The invariant of a PointSet (Section 3 of the spec):
    [len(x) == len(y) == len(z) == n >= 2], as a test. *)
Definition is_point_set (x y z : list R) : bool :=
  ((length x =? length y) && (length y =? length z) && (2 <=? length x))%nat.

(** Modelled from the spec: [core.initialize_variogram_model], which is not
    in sk.py.  Sections 3 and 6: the fit is given the points of the working
    frame and their values, a PointSet, whose x, y and z have one length
    that is at least 2, and the model raises on anything else; it returns
    the lags, the binned semivariance with its error and the parameters,
    and fails on an unknown kind or a missing custom function (both tested
    by the class before the call).  The binning and the least-squares fit
    are outside the spec, so the model returns explicit parameters as they
    are given, with no bins, and nothing else. *)
Definition spec_initialize_variogram_model (x y z : list R) (kind : string)
    (explicit : option (list R)) (f : variogram) (nlags weight : nat)
    (min_theta max_theta : option R)
  : outcome (list R * list R * list R * list R) :=
  if is_point_set x y z then
    match explicit with
    | Some p => Returns ([], [], [], p)
    | None => Raises "automatic fit: outside the model"
    end
  else Raises "fit: not a point set".

(** [scipy.linalg.inv] on matrices of at most two rows, by the adjugate *)
Definition inv_small (a : matrix) : outcome matrix :=
  match a with
  | [[p]] =>
      if Req_dec_T p 0 then Raises "singular matrix" else Returns [[/ p]]
  | [[p; q]; [r; t]] =>
      let det := p * t - q * r in
      if Req_dec_T det 0 then Raises "singular matrix"
      else Returns [[t / det; - q / det]; [- r / det; p / det]]
  | _ => Raises "inv_small: more than two rows"
  end.

Definition no_variogram : variogram := fun _ _ => 0.

Definition small_ext : Externals :=
  {| adjust_for_anisotropy := spec_adjust_for_anisotropy;
     initialize_variogram_model := spec_initialize_variogram_model;
     find_statistics := fun _ _ _ _ _ => Raises "statistics: outside the model";
     calcQ1 := fun _ => Raises "statistics: outside the model";
     calcQ2 := fun _ => Raises "statistics: outside the model";
     calc_cR := fun _ _ => Raises "statistics: outside the model";
     linear_variogram_model := no_variogram;
     power_variogram_model := no_variogram;
     gaussian_variogram_model := no_variogram;
     spherical_variogram_model := no_variogram;
     exponential_variogram_model := no_variogram;
     linalg_inv := inv_small;
     linalg_solve := fun _ _ => Raises "solve: outside the model";
     kdtree_query := fun _ _ _ => Raises "k-d tree: outside the model" |}.

(** A custom variogram with a nugget: [nugget + slope * h], for the
    parameters [[sill; nugget; slope]]. *)
Definition nugget_variogram : variogram :=
  fun p h => nth 1 p 0 + nth 2 p 0 * h.

(** The object that
    [SimpleKriging(x, y, z, variogram_model='custom',
                   variogram_parameters=p, variogram_function=f)]
    builds when the transform leaves the coordinates as they are (scaling
    1, angle 0) and the fit returns the explicit parameters. *)
Definition session_of (x y z : list R) (xc yc : R) (p : list R) (f : variogram)
  : Session :=
  {| X_ORIG := x; Y_ORIG := y; Z := z;
     verbose := false; enable_plotting := false;
     XCENTER := xc; YCENTER := yc;
     anisotropy_scaling := 1; anisotropy_angle := 0;
     X_ADJUSTED := x; Y_ADJUSTED := y;
     variogram_model := "custom";
     variogram_function := f;
     lags := []; semivariance := []; semivariance_error := [];
     variogram_model_parameters := p;
     delta := None; sigma := None; epsilon := None;
     Q1 := None; Q2 := None; cR := None |}.

(** Two data points [(0, 0, 5)] and [(1, 0, 7)], sill 2, nugget 1, slope 1 *)
Definition two_points : Session :=
  session_of [0; 1] [0; 0] [5; 7] (1 / 2) 0 [2; 1; 1] nugget_variogram.

(** Three data points on a line, the same variogram *)
Definition three_points : Session :=
  session_of [0; 1; 2] [0; 0; 0] [5; 7; 9] 1 0 [2; 1; 1] nugget_variogram.

(** ** Notions for the statements *)

(** A computation that does not raise the exception of the check *)
Definition keeps_clear {A : Type} (r : result A) : Prop :=
  r <> Err IllBehavedCorrelation.

(** The kind check of [execute] passes. *)
Definition kind_accepted (s : Session) : Prop :=
  variogram_model s <> "linear" /\ variogram_model s <> "power".

(** What the anisotropy transform reads and writes *)
Record Frame : Type := {
  f_scaling : R;
  f_angle : R;
  f_xcenter : R;
  f_ycenter : R;
  f_xorig : list R;
  f_yorig : list R;
  f_xadjusted : list R;
  f_yadjusted : list R
}.

Definition frame (s : Session) : Frame :=
  {| f_scaling := anisotropy_scaling s; f_angle := anisotropy_angle s;
     f_xcenter := XCENTER s; f_ycenter := YCENTER s;
     f_xorig := X_ORIG s; f_yorig := Y_ORIG s;
     f_xadjusted := X_ADJUSTED s; f_yadjusted := Y_ADJUSTED s |}.

(** A method that leaves the frame as it finds it, whether it returns or
    raises *)
Definition keeps_frame {A : Type} (m : method A) : Prop :=
  forall s, frame (fst (m s)) = frame s.

(** What the body of the loop computes for the query point whose
    distances to the data points are [bd] *)
Definition point_solution (s : Session) (a_inv : matrix) (n : nat) (bd : list R)
  : result (R * R) :=
  sill <- getitem0 (variogram_model_parameters s) ;;
  b <- cross_covariance s n sill bd ;;
  x <- np_dot_vec a_inv b ;;
  xz <- np_mul x (Z s) ;;
  xb <- np_mul x b ;;
  Ok (np_sum xz, sill - np_sum xb).

(** What [execute] relies on in the modules it calls: the transform
    returns as many coordinates as it is given, and the k-d tree one row
    of distances for each query point. *)
Definition one_row_per_point (ext : Externals) : Prop :=
  (forall x y cx cy sc an x' y',
     length x = length y ->
     adjust_for_anisotropy ext x y cx cy sc an = Returns (x', y') ->
     length x' = length x /\ length y' = length y)
  /\ (forall data points k bd bd_idx,
        kdtree_query ext data points k = Returns (bd, bd_idx) ->
        length bd = length points).



(** The flag of the cell in row [r] and column [c] of the grid, read in
    the mask the caller passed: at [r, c] when the mask has the shape of
    the grid, at [c, r] when it has the transposed shape. *)
Definition caller_flag (m : mask2d) (ny nx r c : nat) : bool :=
  if ((shape0 m =? ny) && (shape1 m =? nx))%nat then mask_get m r c else mask_get m c r.

(** A session with a data point and a value *)
Definition has_data (s : Session) : Prop := X_ADJUSTED s <> [] /\ Z s <> [].

(** A cell of a result that holds a value *)
Definition valid_at (a : ndarray1) (i : nat) : Prop := cell_at a i <> None.

(** The identity matrix, and its column [i] *)
Definition unit_vector (n i : nat) : list R :=
  map (fun r => if (r =? i)%nat then 1 else 0) (seq 0 n).

Definition identity (n : nat) : matrix :=
  map (fun r => unit_vector n r) (seq 0 n).

(** ** Two more instances, and more notions *)

(** [cKDTree(data).query(points, k)] for data points that are listed by
    increasing distance to every query point, as in the examples: the
    neighbours are the first [k] data points. *)
Definition first_neighbours (data points : list (R * R)) (k : nat)
  : outcome (matrix * list (list nat)) :=
  Returns (map (fun p => firstn k (map (euclidean p) data)) points,
           map (fun _ => seq 0 k) points).

(** [small_ext] with that k-d tree *)
Definition window_ext : Externals :=
  {| adjust_for_anisotropy := adjust_for_anisotropy small_ext;
     initialize_variogram_model := initialize_variogram_model small_ext;
     find_statistics := find_statistics small_ext;
     calcQ1 := calcQ1 small_ext;
     calcQ2 := calcQ2 small_ext;
     calc_cR := calc_cR small_ext;
     linear_variogram_model := linear_variogram_model small_ext;
     power_variogram_model := power_variogram_model small_ext;
     gaussian_variogram_model := gaussian_variogram_model small_ext;
     spherical_variogram_model := spherical_variogram_model small_ext;
     exponential_variogram_model := exponential_variogram_model small_ext;
     linalg_inv := linalg_inv small_ext;
     linalg_solve := linalg_solve small_ext;
     kdtree_query := first_neighbours |}.

(** [window_ext] with statistics that return: sk.py hands the residuals
    from [core.find_statistics] to [core.calcQ1], [core.calcQ2] and
    [core.calc_cR] and does not compute them; for the examples the
    residuals are the values and the three statistics their sum. *)
Definition echo_ext : Externals :=
  {| adjust_for_anisotropy := adjust_for_anisotropy small_ext;
     initialize_variogram_model := initialize_variogram_model small_ext;
     find_statistics := fun _ _ z _ _ => Returns (z, z, z);
     calcQ1 := fun e => Returns (np_sum e);
     calcQ2 := fun e => Returns (np_sum e);
     calc_cR := fun q _ => Returns q;
     linear_variogram_model := linear_variogram_model small_ext;
     power_variogram_model := power_variogram_model small_ext;
     gaussian_variogram_model := gaussian_variogram_model small_ext;
     spherical_variogram_model := spherical_variogram_model small_ext;
     exponential_variogram_model := exponential_variogram_model small_ext;
     linalg_inv := linalg_inv small_ext;
     linalg_solve := linalg_solve small_ext;
     kdtree_query := first_neighbours |}.

(** A computation that does not raise the exception [e] *)
Definition avoids {A : Type} (e : error) (r : result A) : Prop :=
  r <> Err e.

(** The style check of [execute] passes. *)
Definition style_accepted (style : string) : Prop :=
  style = "grid" \/ style = "masked" \/ style = "points".

(** The index array that a k-d tree query returns is two-dimensional: all
    its rows have one length. *)
Definition rectangular (bd_idx : list (list nat)) : Prop :=
  Forall (fun row => length row = row_length bd_idx) bd_idx.

Definition rectangular_indices (ext : Externals) : Prop :=
  forall data points k bd bd_idx,
    kdtree_query ext data points k = Returns (bd, bd_idx) -> rectangular bd_idx.

(** [z[r, c]] for a grid that [execute] returns: the value of the cell,
    or [None] when the cell is masked *)
Definition output_cell (o : output) (r c : nat) : option R :=
  match o with
  | Flat _ => None
  | Grid ny nx a => cell_at a (r * nx + c)
  end.

(** What the constructor stores and [update_variogram_model] does not
    assign: the data, the centre and the two flags *)
Definition given_data (s : Session)
  : list R * list R * list R * R * R * bool * bool :=
  (X_ORIG s, Y_ORIG s, Z s, XCENTER s, YCENTER s, verbose s, enable_plotting s).

(** A method that leaves a part of the object as it finds it, whether it
    returns or raises *)
Definition keeps {A B : Type} (part : Session -> B) (m : method A) : Prop :=
  forall s, part (fst (m s)) = part s.

(** * Results *)

(** ** The error monad *)

Lemma bind_Ok_inv {A B : Type} (r : result A) (k : A -> result B) (b : B) :
  bind r k = Ok b -> exists a, r = Ok a /\ k a = Ok b.
Proof.
  destruct r as [a | e]; simpl; intros H.
  - exists a. split; [reflexivity | exact H].
  - discriminate H.
Qed.

Lemma require_Ok_inv (c : bool) (e : error) (u : unit) :
  require c e = Ok u -> c = true.
Proof.
  destruct c; simpl; [reflexivity | discriminate].
Qed.

(** Takes the next step of a computation that is known to return. *)
Ltac step H :=
  let a := fresh "v" in
  let E := fresh "E" in
  apply bind_Ok_inv in H; destruct H as [a [E H]].

(** The same, with names for the value and for the equation of the step *)
Ltac step_as H a E := apply bind_Ok_inv in H; destruct H as [a [E H]].

Lemma mapM_length {A B : Type} (f : A -> result B) (l : list A) (bs : list B) :
  mapM f l = Ok bs -> length bs = length l.
Proof.
  revert bs; induction l as [| a t IH]; simpl; intros bs H.
  - injection H as <-. reflexivity.
  - step H. step H. injection H as <-. simpl. f_equal. apply IH. assumption.
Qed.

(** ** The kriging matrix *)

Lemma euclidean_same (p : R * R) : euclidean p p = 0.
Proof.
  unfold euclidean. rewrite !Rminus_diag, Rsqr_0, Rplus_0_r. apply sqrt_0.
Qed.

Lemma euclidean_sym (p q : R * R) : euclidean p q = euclidean q p.
Proof.
  unfold euclidean. f_equal.
  rewrite (Rsqr_neg_minus (fst p)), (Rsqr_neg_minus (snd p)). reflexivity.
Qed.

Lemma cdist_diagonal (ps : list (R * R)) (i : nat) :
  (i < length ps)%nat -> nth i (nth i (cdist ps ps) []) 0 = 0.
Proof.
  intros Hi. unfold cdist.
  destruct (nth_error ps i) as [p |] eqn:E.
  2:{ apply nth_error_None in E. lia. }
  assert (Hrow : nth_error (map (fun p0 => map (euclidean p0) ps) ps) i
                 = Some (map (euclidean p) ps)).
  { rewrite nth_error_map, E. reflexivity. }
  rewrite (nth_error_nth _ _ _ Hrow).
  assert (Hcell : nth_error (map (euclidean p) ps) i = Some (euclidean p p)).
  { rewrite nth_error_map, E. reflexivity. }
  rewrite (nth_error_nth _ _ _ Hcell). apply euclidean_same.
Qed.

Lemma nth_map_map (f : R -> R) (m : matrix) (i j : nat) :
  (i < length m)%nat -> (j < length (nth i m []))%nat ->
  nth j (nth i (map (map f) m) []) 0 = f (nth j (nth i m []) 0).
Proof.
  intros Hi Hj.
  rewrite (nth_indep _ [] (map f [])) by (rewrite length_map; exact Hi).
  rewrite map_nth.
  rewrite (nth_indep _ 0 (f 0)) by (rewrite length_map; exact Hj).
  apply map_nth.
Qed.

(** No entry of the matrix is overwritten: on the diagonal stands the
    sill minus the variogram at distance 0. *)
Lemma kriging_matrix_diagonal (s : Session) (n : nat) (a : matrix) (i : nat) :
  get_kriging_matrix s n = Ok a -> (i < n)%nat ->
  exists sill, getitem0 (variogram_model_parameters s) = Ok sill /\
    nth i (nth i a []) 0
    = sill - variogram_function s (variogram_model_parameters s) 0.
Proof.
  unfold get_kriging_matrix. intros H Hi.
  step H. step H. exists v0. split; [assumption | ].
  unfold column_stack in E. step E. injection E as <-.
  unfold assign_square in H.
  set (ps := combine (X_ADJUSTED s) (Y_ADJUSTED s)) in *.
  destruct (length (map (map (covariance s v0)) (cdist ps ps)) =? n)%nat eqn:En.
  - injection H as <-. apply Nat.eqb_eq in En.
    rewrite length_map in En. unfold cdist in En. rewrite length_map in En.
    rewrite nth_map_map.
    + rewrite cdist_diagonal by lia. reflexivity.
    + unfold cdist. rewrite length_map. lia.
    + unfold cdist.
      rewrite (nth_indep _ [] (map (euclidean (0, 0)) ps)) by (rewrite length_map; lia).
      rewrite (map_nth (fun p => map (euclidean p) ps)), length_map. lia.
  - destruct ps as [| p [| q ps']]; simpl in H; try discriminate.
    injection H as <-.
    rewrite (nth_indep _ [] (repeat (covariance s v0 (euclidean p p)) n))
      by (rewrite repeat_length; exact Hi).
    rewrite nth_repeat.
    rewrite (nth_indep _ 0 (covariance s v0 (euclidean p p)))
      by (rewrite repeat_length; exact Hi).
    rewrite nth_repeat, euclidean_same. reflexivity.
Qed.

Lemma euclidean_on_x_axis (a b : R) : a <= b -> euclidean (a, 0) (b, 0) = b - a.
Proof.
  intros H. unfold euclidean. simpl fst. simpl snd.
  rewrite Rminus_diag, Rsqr_0, Rplus_0_r, Rsqr_neg_minus.
  apply sqrt_Rsqr. lra.
Qed.

(** Closes an equation between two lists of real numbers, entry by entry. *)
Ltac entries := repeat (f_equal; try lra).

Lemma two_points_matrix : get_kriging_matrix two_points 2 = Ok [[1; 0]; [0; 1]].
Proof.
  unfold get_kriging_matrix, two_points, session_of, column_stack. simpl.
  rewrite (euclidean_sym (1, 0) (0, 0)), !euclidean_same.
  rewrite (@euclidean_on_x_axis 0 1) by lra.
  unfold assign_square, covariance, nugget_variogram. simpl. entries.
Qed.

(** C1 (the code departs from the claim).  The claim: every diagonal entry
    of the kriging matrix is exactly 0, whatever the variogram returns at
    distance 0.  The matrix builder overwrites nothing: for the two data
    points (0, 0) and (1, 0), sill 2 and a variogram that is 1 at distance 0,
    both diagonal entries are 1. *)
Theorem kriging_matrix_diagonal_not_zeroed :
  exists a : matrix,
    get_kriging_matrix two_points 2 = Ok a /\
    nth 0 (nth 0 a []) 0 = 1 /\ nth 1 (nth 1 a []) 0 = 1 /\
    variogram_function two_points (variogram_model_parameters two_points) 0 = 1.
Proof.
  exists [[1; 0]; [0; 1]]. split; [exact two_points_matrix | ].
  simpl. unfold nugget_variogram. simpl. repeat split; lra.
Qed.

(** ** The check of the variogram kind in [execute] *)

Lemma clear_Ok {A : Type} (a : A) : keeps_clear (Ok a).
Proof. discriminate. Qed.

Lemma clear_Err {A : Type} (e : error) :
  e <> IllBehavedCorrelation -> keeps_clear (@Err A e).
Proof. intros H E. injection E as E. contradiction. Qed.

Lemma clear_bind {A B : Type} (r : result A) (k : A -> result B) :
  keeps_clear r -> (forall a, keeps_clear (k a)) -> keeps_clear (bind r k).
Proof.
  intros Hr Hk. destruct r as [a | e]; simpl.
  - apply Hk.
  - intros E. apply Hr. injection E as ->. reflexivity.
Qed.

Lemma clear_require (c : bool) (e : error) :
  e <> IllBehavedCorrelation -> keeps_clear (require c e).
Proof.
  intros H. destruct c; simpl; [apply clear_Ok | apply clear_Err; exact H].
Qed.

Lemma clear_call {A : Type} (o : outcome A) : keeps_clear (call o).
Proof.
  destruct o; simpl; [apply clear_Ok | apply clear_Err; discriminate].
Qed.

Lemma clear_mapM {A B : Type} (f : A -> result B) (l : list A) :
  (forall a, keeps_clear (f a)) -> keeps_clear (mapM f l).
Proof.
  intros Hf. induction l as [| a t IH]; simpl.
  - apply clear_Ok.
  - apply clear_bind; [apply Hf | intros b].
    apply clear_bind; [exact IH | intros bs]. apply clear_Ok.
Qed.

Lemma clear_for_each {A : Type} (body : A -> nat -> result A) (js : list nat) :
  (forall acc j, keeps_clear (body acc j)) ->
  forall acc, keeps_clear (for_each body js acc).
Proof.
  intros Hb. induction js as [| j rest IH]; simpl; intros acc.
  - apply clear_Ok.
  - apply clear_bind; [apply Hb | exact IH].
Qed.

Lemma clear_getitem {A : Type} (v : list A) (i : nat) : keeps_clear (getitem v i).
Proof.
  unfold getitem. destruct (nth_error v i); [apply clear_Ok | apply clear_Err; discriminate].
Qed.

Lemma clear_getitem0 (v : list R) : keeps_clear (getitem0 v).
Proof.
  destruct v; simpl; [apply clear_Err; discriminate | apply clear_Ok].
Qed.

Lemma clear_assign_row (n : nat) (src : list R) : keeps_clear (assign_row n src).
Proof.
  unfold assign_row. destruct (length src =? n)%nat; [apply clear_Ok | ].
  destruct src as [| v [| w t]];
    [apply clear_Err; discriminate | apply clear_Ok | apply clear_Err; discriminate].
Qed.

Lemma clear_assign_square (n : nat) (src : matrix) : keeps_clear (assign_square n src).
Proof.
  unfold assign_square. destruct (length src =? n)%nat; [apply clear_Ok | ].
  destruct src as [| [| v [| w r]] [| r' t]];
    first [apply clear_Ok | apply clear_Err; discriminate].
Qed.

(** Splits a computation into its steps, each of which keeps clear. *)
Ltac clear_steps :=
  repeat first
    [ apply clear_Ok
    | apply clear_call
    | apply clear_getitem
    | apply clear_getitem0
    | apply clear_assign_row
    | apply clear_assign_square
    | apply clear_require; discriminate
    | apply clear_Err; discriminate
    | apply clear_bind; [ | intros ? ]
    | apply clear_mapM; intros ?
    | apply clear_for_each; intros ? ?
    | match goal with |- keeps_clear (match ?p with _ => _ end) => destruct p end ].

Lemma clear_get_kriging_matrix (s : Session) (n : nat) :
  keeps_clear (get_kriging_matrix s n).
Proof. unfold get_kriging_matrix, column_stack. clear_steps. Qed.

Lemma clear_exec_vector (ext : Externals) (s : Session) (a bd : matrix) (mask : list bool) :
  keeps_clear (exec_vector ext s a bd mask).
Proof.
  unfold exec_vector, cross_covariance, ma_mask. clear_steps.
Qed.

Lemma clear_exec_loop (ext : Externals) (s : Session) (a bd : matrix) (mask : list bool) :
  keeps_clear (exec_loop ext s a bd mask).
Proof.
  unfold exec_loop. clear_steps.
  unfold exec_loop_body, cross_covariance, np_dot_vec, np_mul. clear_steps.
Qed.

Lemma clear_exec_loop_moving_window (ext : Externals) (s : Session) (a bd : matrix)
    (mask : list bool) (bd_idx : list (list nat)) :
  keeps_clear (exec_loop_moving_window ext s a bd mask bd_idx).
Proof.
  unfold exec_loop_moving_window. clear_steps.
  unfold moving_window_body, cross_covariance, select_rows_columns,
    scipy_linalg_solve, np_dot. clear_steps.
Qed.

Lemma clear_solve (ext : Externals) (s : Session) (a : matrix)
    (xy_points xy_data : list (R * R)) (mask : list bool) (backend : string)
    (k : option nat) :
  keeps_clear (solve ext s a xy_points xy_data mask backend k).
Proof.
  unfold solve. destruct k as [k |].
  - apply clear_bind; [apply clear_call | intros [bd bd_idx]].
    destruct (backend =? "loop")%string;
      [apply clear_exec_loop_moving_window | apply clear_Err; discriminate].
  - destruct (backend =? "vectorized")%string; [apply clear_exec_vector | ].
    destruct (backend =? "loop")%string;
      [apply clear_exec_loop | apply clear_Err; discriminate].
Qed.

Lemma clear_query_points (style : string) (xs ys : list R) (mask : option mask2d) :
  keeps_clear (query_points style xs ys mask).
Proof.
  unfold query_points, check_mask, meshgrid_flat. clear_steps.
Qed.

(** C3.  [execute] raises the exception of the kind check exactly when the
    kind of the session is 'linear' or 'power', whatever the style, the
    query points, the mask and the backend are: on those two kinds every
    call fails with it and returns nothing, and on no other kind the check
    fires. *)
Theorem execute_rejects_linear_and_power :
  forall (ext : Externals) (s : Session) (style : string) (xpoints ypoints : list R)
         (mask : option mask2d) (backend : string) (n_closest_points : option nat),
    execute ext s style xpoints ypoints mask backend n_closest_points
      = Err IllBehavedCorrelation
    <-> (variogram_model s = "linear" \/ variogram_model s = "power").
Proof.
  intros ext s style xs ys mask backend k. unfold execute. split.
  - destruct (variogram_model s =? "linear")%string eqn:El.
    { intros _. left. apply String.eqb_eq. exact El. }
    destruct (variogram_model s =? "power")%string eqn:Ep.
    { intros _. right. apply String.eqb_eq. exact Ep. }
    simpl. intros H. exfalso. revert H.
    match goal with |- ?c = _ -> False => change (keeps_clear c) end.
    apply clear_bind; [apply clear_require; discriminate | intros _].
    apply clear_bind; [apply clear_get_kriging_matrix | intros a].
    apply clear_bind; [apply clear_query_points | intros [[[npt xpts] ypts] mask0]].
    apply clear_bind; [apply clear_call | intros [xpts0 ypts0]].
    unfold column_stack, ma_array, reshape.
    apply clear_bind; [clear_steps | intros xy_points].
    apply clear_bind; [clear_steps | intros xy_data].
    apply clear_bind; [apply clear_solve | ].
    intros [zvalues sigmasq].
    apply clear_bind.
    { destruct (style =? "masked")%string; clear_steps. }
    intros [zvalues0 sigmasq0].
    destruct (is_grid_or_masked style); clear_steps.
  - intros [H | H]; rewrite H; reflexivity.
Qed.

(** ** The mask of the style 'masked' *)


Lemma nth_map_in {A B : Type} (f : A -> B) (l : list A) (k : nat) (d : A) (d' : B) :
  (k < length l)%nat -> nth k (map f l) d' = f (nth k l d).
Proof.
  intros H. rewrite (nth_indep _ d' (f d)) by (rewrite length_map; exact H).
  apply map_nth.
Qed.

Lemma nth_flat_map_chunks {A : Type} (f : nat -> list A) (n : nat) (d : A) :
  (forall j, length (f j) = n) ->
  forall len start r c, (r < len)%nat -> (c < n)%nat ->
    nth (r * n + c) (flat_map f (seq start len)) d = nth c (f (start + r)%nat) d.
Proof.
  intros Hf. induction len as [| len IH]; intros start r c Hr Hc; [lia | ].
  simpl. destruct r as [| r].
  - simpl. rewrite app_nth1 by (rewrite Hf; exact Hc). rewrite Nat.add_0_r. reflexivity.
  - rewrite app_nth2 by (rewrite Hf; simpl; lia).
    rewrite Hf. replace (S r * n + c - n)%nat with (r * n + c)%nat by (simpl; lia).
    rewrite IH by lia. f_equal. f_equal. lia.
Qed.








Lemma query_points_masked (xs ys : list R) (mask : option mask2d) :
  query_points "masked" xs ys mask
  = m <- check_mask mask (length ys) (length xs) ;;
    Ok ((length ys * length xs)%nat, fst (meshgrid_flat xs ys), snd (meshgrid_flat xs ys), m).
Proof. reflexivity. Qed.




(** ** [update_variogram_model] and the anisotropy *)

Lemma keeps_frame_ret {A : Type} (a : A) : keeps_frame (ret a).
Proof. intros s. reflexivity. Qed.

Lemma keeps_frame_lift {A : Type} (r : result A) : keeps_frame (lift r).
Proof. intros s. reflexivity. Qed.

Lemma keeps_frame_self : keeps_frame self.
Proof. intros s. reflexivity. Qed.

Lemma keeps_frame_assign (f : Session -> Session) :
  (forall s, frame (f s) = frame s) -> keeps_frame (assign f).
Proof. intros H s. simpl. apply H. Qed.

Lemma keeps_frame_bindM {A B : Type} (m : method A) (k : A -> method B) :
  keeps_frame m -> (forall a, keeps_frame (k a)) -> keeps_frame (bindM m k).
Proof.
  intros Hm Hk s. unfold bindM. specialize (Hm s).
  destruct (m s) as [s' [a | e]]; simpl in *.
  - rewrite Hk. exact Hm.
  - exact Hm.
Qed.

Create HintDb frame.

#[local] Hint Resolve keeps_frame_ret keeps_frame_lift keeps_frame_self : frame.

Ltac frame_steps :=
  repeat first
    [ apply keeps_frame_bindM; [ | intros ? ]
    | apply keeps_frame_assign; intros ?; try destruct_fit; reflexivity
    | solve [auto with frame] ]
with destruct_fit :=
  match goal with
  | |- context [set_fit ?p] => destruct p as [[[? ?] ?] ?]
  | |- context [set_statistics ?p] => destruct p as [[? ?] ?]
  end.

Lemma frame_fields (t s : Session) :
  frame t = frame s ->
  anisotropy_scaling t = anisotropy_scaling s /\
  anisotropy_angle t = anisotropy_angle s /\
  XCENTER t = XCENTER s /\ YCENTER t = YCENTER s /\
  X_ADJUSTED t = X_ADJUSTED s /\ Y_ADJUSTED t = Y_ADJUSTED s.
Proof.
  unfold frame. intros H. injection H as Hs Ha Hx Hy _ _ Hxa Hya. tauto.
Qed.

(** Splits a conjunction into its parts, and nothing else. *)
Ltac splits := repeat match goal with |- _ /\ _ => split end.

(** The first statement of the method, case by case *)
Lemma update_anisotropy_same (ext : Externals) (sc an : R) (s : Session) :
  sc = anisotropy_scaling s -> an = anisotropy_angle s ->
  update_anisotropy ext sc an s = (s, Ok tt).
Proof.
  intros Hs Ha. unfold update_anisotropy, bindM, self, Rneqb. simpl.
  destruct (Req_dec_T sc (anisotropy_scaling s)); [ | contradiction].
  destruct (Req_dec_T an (anisotropy_angle s)); [ | contradiction].
  reflexivity.
Qed.

Lemma update_anisotropy_differs (ext : Externals) (sc an : R) (s : Session) :
  sc <> anisotropy_scaling s \/ an <> anisotropy_angle s ->
  update_anisotropy ext sc an s
  = match adjust_for_anisotropy ext (X_ORIG s) (Y_ORIG s) (XCENTER s) (YCENTER s) sc an with
    | Returns (xa, ya) => (set_adjusted xa ya (set_anisotropy sc an s), Ok tt)
    | Raises msg => (set_anisotropy sc an s, Err (LibraryError msg))
    end.
Proof.
  intros H. unfold update_anisotropy, bindM, self, assign, lift, Rneqb. simpl.
  assert (Hb : (if Req_dec_T sc (anisotropy_scaling s) then false else true)
               || (if Req_dec_T an (anisotropy_angle s) then false else true) = true).
  { destruct (Req_dec_T sc (anisotropy_scaling s)), (Req_dec_T an (anisotropy_angle s));
      simpl; try reflexivity. destruct H; contradiction. }
  rewrite Hb.
  destruct (adjust_for_anisotropy ext (X_ORIG s) (Y_ORIG s) (XCENTER s) (YCENTER s) sc an)
    as [[xa ya] | msg]; reflexivity.
Qed.

(** The rest of the method, after the first statement *)
Lemma update_variogram_model_split (ext : Externals) (model : string)
    (params : option (list R)) (given : option variogram) (nlags weight : option nat)
    (sc an : option R) :
  exists rest : method unit,
    keeps_frame rest /\
    forall s,
      update_variogram_model ext model params given nlags weight sc an s
      = match update_anisotropy ext (kwarg sc 1) (kwarg an 0) s with
        | (s1, Ok _) => rest s1
        | (s1, Err e) => (s1, Err e)
        end.
Proof.
  eexists. split.
  2:{ intros s. unfold update_variogram_model. unfold bindM at 1.
      destruct (update_anisotropy ext (kwarg sc 1) (kwarg an 0) s) as [s1 [u | e]];
        reflexivity. }
  frame_steps.
Qed.

(** C10.  A call of [update_variogram_model] that passes neither
    anisotropy argument leaves the session, whether it returns or raises,
    with scaling 1 and angle 0 whatever they were, and with the centre it
    had.  When the scaling was not 1 or the angle not 0, the coordinates of
    the working frame are computed again from the original ones, with the
    old centre and the values 1 and 0; when they were 1 and 0 the working
    frame is left as it was. *)
Theorem update_variogram_model_default_anisotropy :
  forall (ext : Externals) (s : Session) (model : string)
         (variogram_parameters : option (list R)) (given : option variogram)
         (nlags weight : option nat),
    let s' := fst (update_variogram_model ext model variogram_parameters given
                     nlags weight None None s) in
    anisotropy_scaling s' = 1 /\ anisotropy_angle s' = 0
    /\ XCENTER s' = XCENTER s /\ YCENTER s' = YCENTER s
    /\ (anisotropy_scaling s <> 1 \/ anisotropy_angle s <> 0 ->
        forall xa ya,
          adjust_for_anisotropy ext (X_ORIG s) (Y_ORIG s) (XCENTER s) (YCENTER s) 1 0
            = Returns (xa, ya) ->
          X_ADJUSTED s' = xa /\ Y_ADJUSTED s' = ya)
    /\ (anisotropy_scaling s = 1 -> anisotropy_angle s = 0 ->
        X_ADJUSTED s' = X_ADJUSTED s /\ Y_ADJUSTED s' = Y_ADJUSTED s).
Proof.
  intros ext s model params given nlags weight s'. subst s'.
  destruct (update_variogram_model_split ext model params given nlags weight None None)
    as [rest [Hrest Heq]].
  rewrite Heq. simpl kwarg.
  assert (Hsame : anisotropy_scaling s = 1 /\ anisotropy_angle s = 0
                  \/ (anisotropy_scaling s <> 1 \/ anisotropy_angle s <> 0)).
  { destruct (Req_dec_T (anisotropy_scaling s) 1), (Req_dec_T (anisotropy_angle s) 0);
      tauto. }
  destruct Hsame as [[Hs Ha] | Hd].
  - (* the stored values are the defaults: nothing is assigned *)
    rewrite update_anisotropy_same by congruence.
    destruct (frame_fields (Hrest s)) as (Fs & Fa & Fx & Fy & Fxa & Fya).
    rewrite Fs, Fa, Fx, Fy, Fxa, Fya.
    splits; try assumption; try reflexivity.
    + intros [H | H]; contradiction.
    + intros _ _. split; reflexivity.
  - (* one of them is not: both are assigned, and the frame is computed again *)
    rewrite update_anisotropy_differs by (destruct Hd; [left | right]; congruence).
    destruct (adjust_for_anisotropy ext (X_ORIG s) (Y_ORIG s) (XCENTER s) (YCENTER s) 1 0)
      as [[xa ya] | msg] eqn:Ead.
    + destruct (frame_fields (Hrest (set_adjusted xa ya (set_anisotropy 1 0 s))))
        as (Fs & Fa & Fx & Fy & Fxa & Fya).
      rewrite Fs, Fa, Fx, Fy, Fxa, Fya. simpl.
      splits; try reflexivity.
      * intros _ xa' ya' H. injection H as <- <-. split; reflexivity.
      * intros Hs Ha. destruct Hd; contradiction.
    + simpl. splits; try reflexivity.
      * intros _ xa' ya' H. discriminate H.
      * intros Hs Ha. destruct Hd; contradiction.
Qed.

(** Two points stored with scaling 2 and angle 30: the call resets both,
    and the working frame is the one the transform returns for 1 and 0. *)
Lemma update_variogram_model_default_anisotropy_witness :
  let s := set_anisotropy 2 30 two_points in
  let s' := fst (update_variogram_model small_ext "custom" (Some [2; 1; 1])
                   (Some nugget_variogram) None None None None s) in
  anisotropy_scaling s' = 1 /\ anisotropy_angle s' = 0
  /\ exists xa ya,
       spec_adjust_for_anisotropy [0; 1] [0; 0] (1 / 2) 0 1 0 = Returns (xa, ya)
       /\ X_ADJUSTED s' = xa /\ Y_ADJUSTED s' = ya.
Proof.
  intros s s'.
  destruct (update_variogram_model_default_anisotropy small_ext s "custom"
              (Some [2; 1; 1]) (Some nugget_variogram) None None)
    as (Hs & Ha & _ & _ & Hd & _).
  split; [exact Hs | split; [exact Ha | ]].
  eexists _, _. split; [reflexivity | ].
  apply Hd.
  - left. unfold s. simpl. lra.
  - reflexivity.
Defined.

(** ** The constructor *)


Lemma set_statistics_data (st : list R * list R * list R) (s : Session) :
  X_ORIG (set_statistics st s) = X_ORIG s /\
  Y_ORIG (set_statistics st s) = Y_ORIG s /\
  Z (set_statistics st s) = Z s.
Proof. destruct st as [[d sg] e]. simpl. tauto. Qed.







(** ** The moving window *)

Lemma assign_row_length (n : nat) (src b : list R) :
  assign_row n src = Ok b -> length b = n.
Proof.
  unfold assign_row. destruct (length src =? n)%nat eqn:E.
  - intros H. injection H as <-. apply Nat.eqb_eq. exact E.
  - destruct src as [| v [| w t]]; try discriminate.
    intros H. injection H as <-. apply repeat_length.
Qed.

Lemma a_selector_length (a_all : matrix) (b_selector : list nat) :
  length (a_selector a_all b_selector) = S (length b_selector).
Proof. unfold a_selector. rewrite length_app. simpl. lia. Qed.

Lemma getitem_In {A : Type} (v : list A) (i : nat) (x : A) :
  getitem v i = Ok x -> In x v.
Proof.
  unfold getitem. destruct (nth_error v i) eqn:E; [ | discriminate].
  intros H. injection H as <-. eapply nth_error_In. exact E.
Qed.

(** The linear system of a query point never has matching shapes: the
    matrix has one row more than the right-hand side has entries, and
    SciPy refuses it. *)
Lemma moving_window_body_raises (ext : Externals) (s : Session) (a_all bd_all : matrix)
    (bd_idx : list (list nat)) (acc : list R * list R) (i : nat) :
  Forall (fun row => length row = row_length bd_idx) bd_idx ->
  exists e, moving_window_body ext s a_all bd_all bd_idx (row_length bd_idx) acc i = Err e.
Proof.
  intros Hrect. unfold moving_window_body. destruct acc as [zvalues sigmasq].
  destruct (getitem bd_idx i) as [b_selector | e] eqn:Eb; simpl; [ | eexists; reflexivity].
  destruct (getitem bd_all i) as [bd | e] eqn:Ed; simpl; [ | eexists; reflexivity].
  destruct (select_rows_columns a_all (a_selector a_all b_selector)) as [a | e] eqn:Ea;
    simpl; [ | eexists; reflexivity].
  destruct (getitem0 (variogram_model_parameters s)) as [sill | e]; simpl;
    [ | eexists; reflexivity].
  destruct (cross_covariance s (row_length bd_idx) sill bd) as [b | e] eqn:Ec; simpl;
    [ | eexists; reflexivity].
  assert (Hlen : (length a =? length b)%nat = false).
  { apply mapM_length in Ea. rewrite a_selector_length in Ea.
    apply assign_row_length in Ec.
    apply getitem_In in Eb. rewrite Forall_forall in Hrect. apply Hrect in Eb.
    apply Nat.eqb_neq. lia. }
  unfold scipy_linalg_solve. rewrite Hlen.
  destruct (require (aligned a (length a)) _); simpl; eexists; reflexivity.
Qed.

Lemma moving_window_raises (ext : Externals) (s : Session) (a_all bd_all : matrix)
    (mask : list bool) (bd_idx : list (list nat)) :
  Forall (fun row => length row = row_length bd_idx) bd_idx ->
  unmasked mask <> [] ->
  exists e, exec_loop_moving_window ext s a_all bd_all mask bd_idx = Err e.
Proof.
  intros Hrect Hsome. unfold exec_loop_moving_window.
  destruct (unmasked mask) as [| j rest]; [contradiction | ]. cbn [for_each].
  destruct (moving_window_body_raises ext s a_all bd_all (zeros (length bd_all), zeros (length bd_all)) j Hrect)
    as [e He].
  rewrite He. simpl. eexists; reflexivity.
Qed.

(** With a number of neighbours and the backend 'loop', the choice of the
    solver ends in an exception as soon as one query point is not masked. *)
Lemma solve_moving_window_raises (ext : Externals) (s : Session) (a : matrix)
    (xy_points xy_data : list (R * R)) (mask : list bool) (k : nat) :
  unmasked mask <> [] ->
  (forall bd bd_idx,
     kdtree_query ext xy_data xy_points k = Returns (bd, bd_idx) ->
     Forall (fun row => length row = row_length bd_idx) bd_idx) ->
  exists e, solve ext s a xy_points xy_data mask "loop" (Some k) = Err e.
Proof.
  intros Hsome Hrect. unfold solve.
  destruct (kdtree_query ext xy_data xy_points k) as [[bd bd_idx] | msg] eqn:E; simpl.
  - apply moving_window_raises; [apply (Hrect bd); reflexivity | exact Hsome].
  - eexists. reflexivity.
Qed.

Lemma euclidean_on_x_axis_back (a b : R) : b <= a -> euclidean (a, 0) (b, 0) = a - b.
Proof.
  intros H. rewrite euclidean_sym. apply euclidean_on_x_axis. exact H.
Qed.

Lemma three_points_matrix :
  get_kriging_matrix three_points 3 = Ok [[1; 0; -1]; [0; 1; 0]; [-1; 0; 1]].
Proof.
  unfold get_kriging_matrix, three_points, session_of, column_stack. simpl.
  rewrite !euclidean_same.
  rewrite (@euclidean_on_x_axis 0 1), (@euclidean_on_x_axis 0 2),
    (@euclidean_on_x_axis 1 2) by lra.
  rewrite (@euclidean_on_x_axis_back 1 0), (@euclidean_on_x_axis_back 2 0),
    (@euclidean_on_x_axis_back 2 1) by lra.
  unfold assign_square, covariance, nugget_variogram. simpl. entries.
Qed.

(** C2 (the code departs from the claim).  The claim: the reduced system
    of a query point is taken over its k neighbours and nothing else, and
    is solved.  For three data points on a line and the query point
    (1/4, 0), whose two nearest neighbours are the points 0 and 1 at the
    distances 1/4 and 3/4, the selector is [0; 1; 2]: the last row of the
    full matrix is added, the selected matrix has three rows for a
    right-hand side of two entries, and the call raises, for whatever
    [scipy.linalg.solve] would compute. *)
Theorem moving_window_selects_an_extra_row :
  forall ext : Externals,
    let a_all := [[1; 0; -1]; [0; 1; 0]; [-1; 0; 1]] in
    get_kriging_matrix three_points 3 = Ok a_all
    /\ a_selector a_all [0; 1]%nat = [0; 1; 2]%nat
    /\ select_rows_columns a_all (a_selector a_all [0; 1]%nat) = Ok a_all
    /\ cross_covariance three_points 2 2 [1 / 4; 3 / 4]
       = Ok [covariance three_points 2 (1 / 4); covariance three_points 2 (3 / 4)]
    /\ exec_loop_moving_window ext three_points a_all [[1 / 4; 3 / 4]] [false]
         [[0; 1]%nat]
       = Err (LibraryError "incompatible dimensions").
Proof.
  intros ext a_all. subst a_all. splits.
  - exact three_points_matrix.
  - reflexivity.
  - reflexivity.
  - reflexivity.
  - reflexivity.
Qed.

(** ** The point loop *)

Lemma setitem_length {A : Type} (i : nat) (x : A) (v : list A) :
  length (setitem i x v) = length v.
Proof.
  revert i; induction v as [| y t IH]; intros [| i]; simpl; try reflexivity.
  f_equal. apply IH.
Qed.

Lemma nth_setitem_same {A : Type} (i : nat) (x d : A) (v : list A) :
  (i < length v)%nat -> nth i (setitem i x v) d = x.
Proof.
  revert i; induction v as [| y t IH]; intros [| i] H; simpl in *; try lia.
  - reflexivity.
  - apply IH. lia.
Qed.

Lemma nth_setitem_other {A : Type} (i j : nat) (x d : A) (v : list A) :
  i <> j -> nth j (setitem i x v) d = nth j v d.
Proof.
  revert i j; induction v as [| y t IH]; intros [| i] [| j] H; simpl; try reflexivity.
  - contradiction.
  - apply IH. lia.
Qed.

(** The loop visits the positions of the points that are not masked, and
    no other. *)
Lemma unmasked_spec (mask : list bool) (j : nat) :
  In j (unmasked mask) <-> (j < length mask)%nat /\ nth j mask true = false.
Proof.
  unfold unmasked. rewrite filter_In, in_seq, negb_true_iff.
  split; intros [H1 H2]; split; try assumption; lia.
Qed.

Lemma exec_loop_body_spec (s : Session) (a_inv bd_all : matrix) (n : nat)
    (zvalues sigmasq : list R) (j : nat) (acc' : list R * list R) :
  exec_loop_body s a_inv bd_all n (zvalues, sigmasq) j = Ok acc' ->
  exists bd z v,
    nth_error bd_all j = Some bd /\
    point_solution s a_inv n bd = Ok (z, v) /\
    acc' = (setitem j z zvalues, setitem j v sigmasq).
Proof.
  unfold exec_loop_body, point_solution. intros H.
  step H. rename v into bd. step H. step H. step H. step H. step H.
  injection H as <-.
  exists bd, (np_sum v2), (v - np_sum v3).
  unfold getitem in E. destruct (nth_error bd_all j); [ | discriminate].
  injection E as ->.
  rewrite E0. simpl. rewrite E1. simpl. rewrite E2. simpl. rewrite E3. simpl.
  rewrite E4. simpl. auto.
Qed.

(** The loop writes the entries of the points it visits, and leaves the
    other entries as they are. *)
Lemma exec_loop_entries (s : Session) (a_inv bd_all : matrix) (n : nat) (js : list nat) :
  forall zvalues sigmasq z' v',
    for_each (exec_loop_body s a_inv bd_all n) js (zvalues, sigmasq) = Ok (z', v') ->
    length zvalues = length bd_all -> length sigmasq = length bd_all ->
    length z' = length bd_all /\ length v' = length bd_all /\
    (forall j, ~ In j js -> nth j z' 0 = nth j zvalues 0 /\ nth j v' 0 = nth j sigmasq 0) /\
    (forall j, In j js ->
       exists bd z v, nth_error bd_all j = Some bd /\
         point_solution s a_inv n bd = Ok (z, v) /\
         nth j z' 0 = z /\ nth j v' 0 = v).
Proof.
  induction js as [| i rest IH]; intros zvalues sigmasq z' v' H Hz Hv.
  - simpl in H. injection H as <- <-. splits; try assumption.
    + intros j _. split; reflexivity.
    + intros j [].
  - cbn [for_each] in H. step H.
    destruct (exec_loop_body_spec _ _ _ _ _ _ _ E) as (bd & z & w & Hbd & Hsol & ->).
    apply IH in H; [ | rewrite setitem_length; assumption ..].
    destruct H as (Lz & Lv & Hother & Hin).
    assert (Hi : (i < length bd_all)%nat).
    { apply nth_error_Some. rewrite Hbd. discriminate. }
    splits; try assumption.
    + intros j Hj.
      destruct (Hother j) as [Ez Ev]; [intros F; apply Hj; right; exact F | ].
      rewrite Ez, Ev.
      split; apply nth_setitem_other; intros ->; apply Hj; left; reflexivity.
    + intros j [-> | Hj]; [ | apply Hin; exact Hj].
      destruct (in_dec Nat.eq_dec j rest) as [Hj | Hj]; [apply Hin; exact Hj | ].
      destruct (Hother j Hj) as [Ez Ev].
      exists bd, z, w. splits; try assumption.
      * rewrite Ez. apply nth_setitem_same. lia.
      * rewrite Ev. apply nth_setitem_same. lia.
Qed.

Lemma nth_zeros (n j : nat) : nth j (zeros n) 0 = 0.
Proof. unfold zeros. apply nth_repeat. Qed.

Lemma cell_at_Plain (v : list R) (j : nat) :
  (j < length v)%nat -> cell_at (Plain v) j = Some (nth j v 0).
Proof.
  intros H. unfold cell_at. simpl.
  rewrite (nth_indep _ None (Some 0)) by (rewrite length_map; exact H).
  apply map_nth.
Qed.

(** [_exec_loop], entry by entry *)
Lemma exec_loop_cells (ext : Externals) (s : Session) (a bd_all : matrix)
    (mask : list bool) (zl vl : ndarray1) :
  exec_loop ext s a bd_all mask = Ok (zl, vl) ->
  exists a_inv,
    linalg_inv ext a = Returns a_inv /\
    size zl = length bd_all /\ size vl = length bd_all /\
    (forall j, (j < length bd_all)%nat -> ~ In j (unmasked mask) ->
       cell_at zl j = Some 0 /\ cell_at vl j = Some 0) /\
    (forall j, In j (unmasked mask) ->
       exists bd z v, nth_error bd_all j = Some bd /\
         point_solution s a_inv (length (X_ADJUSTED s)) bd = Ok (z, v) /\
         cell_at zl j = Some z /\ cell_at vl j = Some v).
Proof.
  unfold exec_loop. intros H. step H. rename v into a_inv.
  step H. destruct v as [z' v']. injection H as <- <-.
  apply exec_loop_entries in E0; [ | unfold zeros; apply repeat_length ..].
  destruct E0 as (Lz & Lv & Hother & Hin).
  exists a_inv. splits.
  - destruct (linalg_inv ext a); simpl in E; [injection E as ->; reflexivity | discriminate].
  - unfold size. simpl. rewrite length_map. exact Lz.
  - unfold size. simpl. rewrite length_map. exact Lv.
  - intros j Hj Hn. destruct (Hother j Hn) as [Ez Ev].
    rewrite !cell_at_Plain by lia. rewrite Ez, Ev, !nth_zeros. split; reflexivity.
  - intros j Hj. destruct (Hin j Hj) as (bd & z & w & Hbd & Hsol & Ez & Ev).
    assert (Hi : (j < length bd_all)%nat).
    { apply nth_error_Some. rewrite Hbd. discriminate. }
    exists bd, z, w. rewrite !cell_at_Plain by lia. rewrite Ez, Ev. auto.
Qed.

(** ** The vectorised solve *)

Lemma map_nth_seq (l : list R) : map (fun j => nth j l 0) (seq 0 (length l)) = l.
Proof.
  induction l as [| x t IH]; simpl; [reflexivity | ].
  f_equal. rewrite <- seq_shift, map_map. exact IH.
Qed.

Lemma nth_transpose (ncols : nat) (m : matrix) (k : nat) :
  (k < ncols)%nat -> nth k (transpose ncols m) [] = map (fun row => nth k row 0) m.
Proof.
  intros H. unfold transpose.
  rewrite (nth_map_in _ _ 0%nat) by (rewrite length_seq; exact H).
  rewrite seq_nth by exact H. reflexivity.
Qed.

Lemma transpose_length (ncols : nat) (m : matrix) : length (transpose ncols m) = ncols.
Proof. unfold transpose. rewrite length_map. apply length_seq. Qed.

(** Transposing twice gives the rows back. *)
Lemma transpose_transpose_row (n : nat) (b : matrix) (k : nat) :
  (k < length b)%nat -> Forall (fun row => length row = n) b ->
  nth k (transpose (length b) (transpose n b)) [] = nth k b [].
Proof.
  intros Hk Hrows. rewrite nth_transpose by exact Hk.
  unfold transpose. rewrite map_map.
  assert (Hn : length (nth k b []) = n).
  { rewrite Forall_forall in Hrows. apply Hrows. apply nth_In. exact Hk. }
  transitivity (map (fun j => nth j (nth k b []) 0) (seq 0 n)).
  - apply map_ext. intros j.
    exact (@nth_map_in _ _ (fun row => nth j row 0) b k [] 0 Hk).
  - rewrite <- Hn. apply map_nth_seq.
Qed.

Lemma dot_nil_r (u : list R) : dot u [] = 0.
Proof. unfold dot. rewrite combine_nil. reflexivity. Qed.

(** The row of the weights of the query point [k] is the inverse applied
    to the cross-covariances of that point: no mask enters the product. *)
Lemma exec_vector_weights_row (a_inv : matrix) (n : nat) (b : matrix) (k : nat) :
  (k < length b)%nat -> Forall (fun row => length row = n) b ->
  nth k (exec_vector_weights a_inv (length b) n b) [] = mat_vec a_inv (nth k b []).
Proof.
  intros Hk Hrows. unfold exec_vector_weights.
  rewrite nth_transpose by exact Hk.
  unfold mat_mul, mat_vec. rewrite map_map. apply map_ext. intros row.
  rewrite (nth_map_in _ _ []) by (rewrite transpose_length; exact Hk).
  rewrite transpose_transpose_row by assumption. reflexivity.
Qed.

Lemma exec_vector_weights_length (a_inv : matrix) (npt n : nat) (b : matrix) :
  length (exec_vector_weights a_inv npt n b) = npt.
Proof. unfold exec_vector_weights. apply transpose_length. Qed.

Lemma mapM_nth_error {A B : Type} (f : A -> result B) (l : list A) (bs : list B) :
  mapM f l = Ok bs ->
  forall k a, nth_error l k = Some a ->
    exists b, nth_error bs k = Some b /\ f a = Ok b.
Proof.
  revert bs; induction l as [| x t IH]; simpl; intros bs H k a Hk.
  - destruct k; discriminate.
  - step H. step H. injection H as <-. destruct k as [| k]; simpl in *.
    + injection Hk as <-. exists v. auto.
    + eapply IH; eauto.
Qed.

Lemma mapM_Forall {A B : Type} (f : A -> result B) (P : B -> Prop) (l : list A)
    (bs : list B) :
  (forall a b, f a = Ok b -> P b) -> mapM f l = Ok bs -> Forall P bs.
Proof.
  intros Hf. revert bs; induction l as [| x t IH]; simpl; intros bs H.
  - injection H as <-. constructor.
  - step H. step H. injection H as <-. constructor; eauto.
Qed.

Lemma aligned_spec (m : matrix) (n : nat) :
  aligned m n = true <-> Forall (fun row => length row = n) m.
Proof.
  unfold aligned. rewrite forallb_forall, Forall_forall.
  split; intros H row Hr; [apply Nat.eqb_eq | apply Nat.eqb_eq]; apply H; exact Hr.
Qed.

Lemma mat_vec_length (m : matrix) (b : list R) : length (mat_vec m b) = length m.
Proof. unfold mat_vec. apply length_map. Qed.

Lemma broadcastable_same (n : nat) : broadcastable n n = true.
Proof. unfold broadcastable. rewrite Nat.eqb_refl. reflexivity. Qed.

Lemma nth_error_nth_in {A : Type} (l : list A) (k : nat) (d : A) :
  (k < length l)%nat -> nth_error l k = Some (nth k l d).
Proof.
  intros H. destruct (nth_error l k) eqn:E.
  - f_equal. symmetry. apply nth_error_nth. exact E.
  - apply nth_error_None in E. lia.
Qed.

Lemma broadcast_mul_nonempty (u v : list R) :
  broadcastable (length u) (length v) = true -> u <> [] -> v <> [] ->
  (length (broadcast_mul u v) =? 0)%nat = false.
Proof.
  intros Hb Hu Hv. apply Nat.eqb_neq. unfold broadcast_mul.
  destruct u as [| x u]; [contradiction | ]. destruct v as [| y v]; [contradiction | ].
  destruct (length (x :: u) =? length (y :: v))%nat eqn:E.
  - rewrite length_map, length_combine. simpl. lia.
  - destruct (length (y :: v) =? 1)%nat; rewrite length_map; simpl; lia.
Qed.

Lemma any_unmasked_spec (mask : list bool) :
  any_unmasked mask = true <-> unmasked mask <> [].
Proof.
  unfold any_unmasked. rewrite existsb_exists. split.
  - intros [m [Hin Hm]] Hnil. apply In_nth with (d := true) in Hin.
    destruct Hin as [j [Hj Ej]].
    assert (In j (unmasked mask)).
    { apply unmasked_spec. split; [exact Hj | ]. rewrite Ej.
      apply negb_true_iff. exact Hm. }
    rewrite Hnil in H. contradiction.
  - intros H. destruct (unmasked mask) as [| j rest] eqn:E; [contradiction | ].
    assert (Hj : In j (unmasked mask)) by (rewrite E; left; reflexivity).
    apply unmasked_spec in Hj. destruct Hj as [Hj Ej].
    exists (nth j mask true). split; [apply nth_In; exact Hj | ].
    rewrite Ej. reflexivity.
Qed.

Lemma mask_b_row (mask : list bool) (n k : nat) :
  (k < length mask)%nat -> nth k (mask_b mask n) [] = repeat (nth k mask true) n.
Proof.
  intros H. unfold mask_b.
  exact (@nth_map_in _ _ (fun m => repeat m n) mask k true [] H).
Qed.

Lemma mask_b_length (mask : list bool) (n : nat) : length (mask_b mask n) = length mask.
Proof. unfold mask_b. apply length_map. Qed.

Lemma forallb_repeat_true (n : nat) : forallb (fun f => f) (repeat true n) = true.
Proof. induction n as [| n IH]; simpl; [reflexivity | exact IH]. Qed.

Lemma filled0_unflagged (row : list R) : filled0 row (repeat false (length row)) = row.
Proof.
  unfold filled0. induction row as [| x row IH]; simpl; [reflexivity | ].
  f_equal. exact IH.
Qed.

(** The sum of a row whose entries are all flagged is masked. *)
Lemma ma_sum_flagged (row : list R) (n : nat) : ma_sum row (repeat true n) = None.
Proof. unfold ma_sum. rewrite forallb_repeat_true. reflexivity. Qed.

Lemma ma_sum_flagged_broadcast (row : list R) (n w : nat) :
  ma_sum row (broadcast_flags (repeat true n) w) = None.
Proof.
  unfold broadcast_flags. destruct (length (repeat true n) =? w)%nat.
  - apply ma_sum_flagged.
  - replace (hd true (repeat true n)) with true by (destruct n; reflexivity).
    apply ma_sum_flagged.
Qed.

(** The sum of a row with entries, none of them flagged, is their sum. *)
Lemma ma_sum_free (row : list R) :
  row <> [] -> ma_sum row (repeat false (length row)) = Some (np_sum row).
Proof.
  intros H. unfold ma_sum. rewrite filled0_unflagged.
  destruct row as [| x row]; [contradiction | reflexivity].
Qed.

Lemma ma_sum_free_broadcast (row : list R) (n : nat) :
  n <> 0%nat -> row <> [] ->
  ma_sum row (broadcast_flags (repeat false n) (length row)) = Some (np_sum row).
Proof.
  intros Hn H. unfold broadcast_flags. rewrite repeat_length.
  destruct (n =? length row)%nat eqn:E.
  - apply Nat.eqb_eq in E. rewrite E. apply ma_sum_free. exact H.
  - replace (hd true (repeat false n)) with false by (destruct n; [contradiction | reflexivity]).
    apply ma_sum_free. exact H.
Qed.

Lemma ma_mask_length (flags flags' : list (list bool)) (npt n : nat) :
  ma_mask flags npt n = Ok flags' -> length flags' = npt.
Proof.
  unfold ma_mask. destruct (length flags =? npt)%nat eqn:E.
  - intros H. injection H as <-. apply Nat.eqb_eq. exact E.
  - destruct (length flags * n =? 1)%nat.
    + intros H. injection H as <-. apply repeat_length.
    + destruct (length flags * n =? npt * n)%nat; [ | discriminate].
      intros H. injection H as <-. apply repeat_length.
Qed.

(** The mask of [b] carries the flag of a query point of the mask on each
    entry of its row, also when [np.ma.array] resizes or reshapes it. *)
Lemma ma_mask_row (mask : list bool) (npt n : nat) (flags : list (list bool)) (k : nat) :
  ma_mask (mask_b mask n) npt n = Ok flags ->
  (k < npt)%nat -> (k < length mask)%nat ->
  nth k flags [] = repeat (nth k mask true) n.
Proof.
  unfold ma_mask. rewrite mask_b_length. intros H Hk Hm.
  destruct (length mask =? npt)%nat eqn:Esame.
  - injection H as <-. apply mask_b_row. exact Hm.
  - apply Nat.eqb_neq in Esame. destruct (length mask * n =? 1)%nat eqn:Eone.
    + apply Nat.eqb_eq in Eone. injection H as <-.
      assert (Hone : length mask = 1%nat /\ n = 1%nat) by (apply Nat.eq_mul_1; exact Eone).
      destruct Hone as [Lm ->].
      destruct mask as [| m0 [| m1 rest]]; simpl in Lm; try lia.
      assert (k = 0)%nat by (simpl in Hm; lia). subst k.
      rewrite nth_repeat_lt by exact Hk. reflexivity.
    + destruct (length mask * n =? npt * n)%nat eqn:Esize; [ | discriminate H].
      apply Nat.eqb_eq in Esize. injection H as <-.
      assert (n = 0)%nat.
      { destruct n as [| n']; [reflexivity | ].
        apply Nat.mul_cancel_r in Esize; [contradiction | discriminate]. }
      subst n.
      rewrite nth_repeat_lt by exact Hk. reflexivity.
Qed.

(** [_exec_vector], entry by entry: the system of every query point is
    solved; when some point is not masked, the cells of the masked points
    are masked, and the cells of the other points hold the solution of
    their system (the session has data: a sum of no entries is masked);
    when every point is masked, nothing is marked and every cell holds the
    solution of its system. *)
Lemma exec_vector_cells (ext : Externals) (s : Session) (a bd : matrix)
    (mask : list bool) (zv vv : ndarray1) :
  exec_vector ext s a bd mask = Ok (zv, vv) ->
  exists a_inv,
    linalg_inv ext a = Returns a_inv /\
    size zv = length bd /\ size vv = length bd /\
    forall k bd_k, nth_error bd k = Some bd_k ->
      exists z v,
        point_solution s a_inv (length (X_ADJUSTED s)) bd_k = Ok (z, v) /\
        (any_unmasked mask = true -> (k < length mask)%nat -> nth k mask true = true ->
           cell_at zv k = None /\ cell_at vv k = None) /\
        (any_unmasked mask = false ->
           cell_at zv k = Some z /\ cell_at vv k = Some v) /\
        (has_data s -> nth k mask true = false ->
           cell_at zv k = Some z /\ cell_at vv k = Some v).
Proof.
  unfold exec_vector. intros H.
  set (n := length (X_ADJUSTED s)) in *.
  step_as H a_inv Einv. step_as H sill Esill. step_as H b Eb.
  step_as H flags Emask. step_as H u2 Eal. step_as H u3 Eshape. step_as H u4 Ebc.
  apply require_Ok_inv in Eal, Eshape, Ebc.
  apply aligned_spec in Eal. apply Nat.eqb_eq in Eshape.
  assert (Lb : length b = length bd) by (apply mapM_length in Eb; exact Eb).
  assert (Hrows : Forall (fun row => length row = n) b).
  { apply (mapM_Forall _ _ _ (fun r row => @assign_row_length n _ row) Eb). }
  set (x := exec_vector_weights a_inv (length bd) n b) in *.
  set (xz := map (fun xk => broadcast_mul xk (Z s)) x) in *.
  set (xb := map (fun p => broadcast_mul (fst p) (snd p)) (combine x b)) in *.
  assert (Lx : length x = length bd) by apply exec_vector_weights_length.
  assert (Lxz : length xz = length bd) by (unfold xz; rewrite length_map; exact Lx).
  assert (Lxb : length xb = length bd).
  { unfold xb. rewrite length_map, length_combine. lia. }
  assert (Lf : any_unmasked mask = true -> length flags = length bd).
  { intros Hany. rewrite Hany in Emask. apply ma_mask_length in Emask. exact Emask. }
  assert (Hflags : any_unmasked mask = true ->
            forall k, (k < length bd)%nat -> (k < length mask)%nat ->
              nth k flags [] = repeat (nth k mask true) n).
  { intros Hany k Hk Hm. rewrite Hany in Emask.
    exact (@ma_mask_row mask (length bd) n flags k Emask Hk Hm). }
  exists a_inv. splits.
  - destruct (linalg_inv ext a); simpl in Einv; [injection Einv as ->; reflexivity | discriminate].
  - destruct (any_unmasked mask) eqn:Hany; injection H as <- <-; unfold size; simpl.
    + rewrite length_map, length_combine, (Lf eq_refl). lia.
    + rewrite !length_map. exact Lxz.
  - destruct (any_unmasked mask) eqn:Hany; injection H as <- <-; unfold size; simpl.
    + rewrite length_map, length_combine, (Lf eq_refl). lia.
    + rewrite !length_map. exact Lxb.
  - intros k bd_k Hk.
    assert (Hkn : (k < length bd)%nat) by (apply nth_error_Some; rewrite Hk; discriminate).
    destruct (mapM_nth_error _ _ Eb _ Hk) as (b_k & Hbk & Hcov).
    assert (Ebk : nth k b [] = b_k) by (apply nth_error_nth; exact Hbk).
    assert (Lbk : length b_k = n) by (apply assign_row_length in Hcov; exact Hcov).
    assert (Exk : nth k x [] = mat_vec a_inv b_k).
    { unfold x. rewrite <- Lb. rewrite exec_vector_weights_row by (try lia; exact Hrows).
      rewrite Ebk. reflexivity. }
    assert (La : length a_inv = n) by nia.
    assert (Hz : nth k xz [] = broadcast_mul (mat_vec a_inv b_k) (Z s)).
    { unfold xz. rewrite (nth_map_in _ _ []) by lia. rewrite Exk. reflexivity. }
    assert (Hs : nth k xb [] = broadcast_mul (mat_vec a_inv b_k) b_k).
    { unfold xb. rewrite (nth_map_in _ _ ([], [])) by (rewrite length_combine; lia).
      rewrite combine_nth by lia. simpl. rewrite Exk, Ebk. reflexivity. }
    exists (np_sum (broadcast_mul (mat_vec a_inv b_k) (Z s))),
           (sill - np_sum (broadcast_mul (mat_vec a_inv b_k) b_k)).
    assert (Hcells : any_unmasked mask = true -> (k < length mask)%nat ->
              cell_at zv k
              = ma_sum (broadcast_mul (mat_vec a_inv b_k) (Z s))
                  (broadcast_flags (repeat (nth k mask true) n)
                     (length (broadcast_mul (mat_vec a_inv b_k) (Z s))))
              /\ cell_at vv k
                 = option_map (Rminus sill)
                     (ma_sum (broadcast_mul (mat_vec a_inv b_k) b_k)
                             (repeat (nth k mask true) n))).
    { intros Hany Hm. pose proof (Lf Hany) as Lflags.
      pose proof (Hflags Hany k Hkn Hm) as Hrow.
      rewrite Hany in H. injection H as <- <-.
      unfold cell_at. simpl. split.
      - rewrite (nth_map_in _ _ ([], [])) by (rewrite length_combine; lia).
        rewrite combine_nth by lia. simpl.
        rewrite Hz, Hrow. reflexivity.
      - rewrite (nth_map_in _ _ ([], [])) by (rewrite length_combine; lia).
        rewrite combine_nth by lia. simpl.
        rewrite Hs, Hrow. reflexivity. }
    assert (Hplain : any_unmasked mask = false ->
              cell_at zv k = Some (np_sum (broadcast_mul (mat_vec a_inv b_k) (Z s)))
              /\ cell_at vv k
                 = Some (sill - np_sum (broadcast_mul (mat_vec a_inv b_k) b_k))).
    { intros Hany. rewrite Hany in H. injection H as <- <-.
      rewrite !cell_at_Plain by (rewrite !length_map; lia).
      rewrite (nth_map_in _ _ []) by lia. rewrite Hz.
      rewrite (nth_map_in _ _ []) by lia. rewrite Hs. split; reflexivity. }
    splits.
    + unfold point_solution. rewrite Esill. simpl. fold n. rewrite Hcov. simpl.
      unfold np_dot_vec. rewrite Lbk.
      replace (aligned a_inv n) with true by (symmetry; apply aligned_spec; exact Eal).
      simpl. unfold np_mul. rewrite mat_vec_length, La, Ebc. simpl.
      rewrite Lbk, broadcastable_same. reflexivity.
    + intros Hany Hkm Hm. destruct (Hcells Hany Hkm) as [-> ->]. rewrite Hm.
      rewrite ma_sum_flagged_broadcast, ma_sum_flagged. split; reflexivity.
    + exact Hplain.
    + intros [Hx Hzs] Hm.
      assert (Hkm : (k < length mask)%nat).
      { destruct (Nat.lt_ge_cases k (length mask)) as [Hlt | Hge]; [exact Hlt | ].
        rewrite nth_overflow in Hm by exact Hge. discriminate Hm. }
      assert (Hn0 : n <> 0%nat).
      { unfold n. intros E. apply length_zero_iff_nil in E. contradiction. }
      assert (Hn : mat_vec a_inv b_k <> []).
      { intros E. apply (f_equal (@length R)) in E. rewrite mat_vec_length, La in E.
        simpl in E. contradiction. }
      assert (Hbn : b_k <> []).
      { intros E. rewrite E in Lbk. simpl in Lbk. symmetry in Lbk. contradiction. }
      assert (Wz : broadcast_mul (mat_vec a_inv b_k) (Z s) <> []).
      { intros E. apply (f_equal (@length R)) in E. simpl in E.
        apply Nat.eqb_eq in E. rewrite broadcast_mul_nonempty in E;
          [discriminate | rewrite mat_vec_length, La; exact Ebc | exact Hn | exact Hzs]. }
      assert (Wb : length (broadcast_mul (mat_vec a_inv b_k) b_k) = n).
      { unfold broadcast_mul. rewrite mat_vec_length, La, Lbk, Nat.eqb_refl.
        rewrite length_map, length_combine, mat_vec_length, La, Lbk. lia. }
      assert (Wbn : broadcast_mul (mat_vec a_inv b_k) b_k <> []).
      { intros E. rewrite E in Wb. simpl in Wb. symmetry in Wb. contradiction. }
      destruct (any_unmasked mask) eqn:Hany.
      * destruct (Hcells eq_refl Hkm) as [-> ->]. rewrite Hm.
        rewrite ma_sum_free_broadcast by assumption.
        rewrite <- Wb at 1. rewrite ma_sum_free by assumption.
        split; reflexivity.
      * apply Hplain. reflexivity.
Qed.

Lemma unmasked_in (mask : list bool) (j : nat) :
  nth j mask true = false -> In j (unmasked mask).
Proof.
  intros H. apply unmasked_spec. split; [ | exact H].
  destruct (Nat.lt_ge_cases j (length mask)) as [Hlt | Hge]; [exact Hlt | ].
  rewrite nth_overflow in H by exact Hge. discriminate H.
Qed.

Lemma masked_not_in (mask : list bool) (j : nat) :
  nth j mask true = true -> ~ In j (unmasked mask).
Proof.
  intros H Hin. apply unmasked_spec in Hin. destruct Hin as [_ Hf].
  rewrite H in Hf. discriminate Hf.
Qed.

(** C5.  On the same kriging matrix, distances and mask, and for a
    session with data, the vectorised solve and the point loop return, at
    every query point that is not masked, the same estimate and the same
    variance (over the real numbers the two are equal: the batched product
    computes, column by column, the products of the loop), and both are
    values, not masked cells. *)
Theorem exec_vector_agrees_with_exec_loop :
  forall (ext : Externals) (s : Session) (a bd : matrix) (mask : list bool)
         (zv vv zl vl : ndarray1),
    has_data s ->
    exec_vector ext s a bd mask = Ok (zv, vv) ->
    exec_loop ext s a bd mask = Ok (zl, vl) ->
    forall j, (j < length bd)%nat -> nth j mask true = false ->
      cell_at zv j = cell_at zl j /\ cell_at vv j = cell_at vl j
      /\ (exists z, cell_at zv j = Some z) /\ (exists v, cell_at vv j = Some v).
Proof.
  intros ext s a bd mask zv vv zl vl Hdata Hv Hl j Hj Hm.
  apply exec_vector_cells in Hv. destruct Hv as (a_inv & Hinv & _ & _ & Hv).
  apply exec_loop_cells in Hl. destruct Hl as (a_inv' & Hinv' & _ & _ & _ & Hl).
  rewrite Hinv in Hinv'. injection Hinv' as <-.
  pose proof (unmasked_in mask j Hm) as Hin.
  destruct (Hl j Hin) as (bd_j & z & v & Hbd & Hsol & Ez & Ev).
  destruct (Hv j bd_j Hbd) as (z' & v' & Hsol' & _ & _ & Hval).
  rewrite Hsol in Hsol'. injection Hsol' as <- <-.
  destruct (Hval Hdata Hm) as [Ez' Ev'].
  rewrite Ez, Ev, Ez', Ev'. splits; try reflexivity; eexists; reflexivity.
Qed.

Lemma two_points_has_data : has_data two_points.
Proof. split; discriminate. Qed.

Lemma inv_small_identity : inv_small [[1; 0]; [0; 1]] = Returns [[1; 0]; [0; 1]].
Proof.
  unfold inv_small. destruct (Req_dec_T (1 * 1 - 0 * 0) 0) as [H | H]; [lra | ].
  f_equal. repeat (f_equal; try (field; lra)).
Qed.

(** Reduces an equation between two results to equations between their
    cells. *)
Ltac cells_eq :=
  repeat match goal with
         | |- Ok _ = Ok _ => f_equal
         | |- (_, _) = (_, _) => f_equal
         | |- Flat _ = Flat _ => f_equal
         | |- Masked _ = Masked _ => f_equal
         | |- Plain _ = Plain _ => f_equal
         | |- _ :: _ = _ :: _ => f_equal
         | |- Some _ = Some _ => f_equal
         end.

Lemma covariance_two_points (h : R) : covariance two_points 2 h = 1 - h.
Proof. unfold covariance, two_points, session_of, nugget_variogram. simpl. ring. Qed.

(** Two query points for the two data points of [two_points]: the first
    data point itself, and the point half-way. *)
Lemma exec_vector_agrees_with_exec_loop_witness :
  let a := [[1; 0]; [0; 1]] in
  let bd := [[0; 1]; [1 / 2; 1 / 2]] in
  let mask := [false; false] in
  exists zv vv zl vl,
    exec_vector small_ext two_points a bd mask = Ok (zv, vv)
    /\ exec_loop small_ext two_points a bd mask = Ok (zl, vl)
    /\ cell_at zv 1 = cell_at zl 1 /\ cell_at vv 1 = cell_at vl 1.
Proof.
  intros a bd mask.
  assert (Hv : exists r, exec_vector small_ext two_points a bd mask = Ok r).
  { unfold exec_vector. change (linalg_inv small_ext) with inv_small. unfold a.
    rewrite inv_small_identity.
    eexists. reflexivity. }
  assert (Hl : exists r, exec_loop small_ext two_points a bd mask = Ok r).
  { unfold exec_loop. change (linalg_inv small_ext) with inv_small. unfold a.
    rewrite inv_small_identity.
    eexists. reflexivity. }
  destruct Hv as [[zv vv] Hv]. destruct Hl as [[zl vl] Hl].
  exists zv, vv, zl, vl.
  destruct (@exec_vector_agrees_with_exec_loop small_ext two_points a bd mask
              zv vv zl vl two_points_has_data Hv Hl 1%nat) as (Hz & Hs & _).
  - simpl. lia.
  - reflexivity.
  - auto.
Defined.

(** ** Masked points in the two solvers *)

Lemma for_each_ext {A : Type} (f g : A -> nat -> result A) (js : list nat) :
  (forall j, In j js -> forall acc, f acc j = g acc j) ->
  forall acc, for_each f js acc = for_each g js acc.
Proof.
  induction js as [| j rest IH]; intros H acc; simpl; [reflexivity | ].
  rewrite (H j (or_introl eq_refl)). destruct (g acc j) as [acc' | e]; simpl.
  - apply IH. intros i Hi. apply H. right. exact Hi.
  - reflexivity.
Qed.

Lemma nth_error_setitem_other {A : Type} (i j : nat) (x : A) (v : list A) :
  i <> j -> nth_error (setitem i x v) j = nth_error v j.
Proof.
  revert i j; induction v as [| y t IH]; intros [| i] [| j] H; simpl; try reflexivity.
  - contradiction.
  - apply IH. lia.
Qed.

(** The loop does not read the distances of a masked point. *)
Lemma exec_loop_ignores_masked_row (ext : Externals) (s : Session) (a bd : matrix)
    (mask : list bool) (j : nat) (row : list R) :
  nth j mask true = true ->
  exec_loop ext s a (setitem j row bd) mask = exec_loop ext s a bd mask.
Proof.
  intros Hm. unfold exec_loop. rewrite setitem_length.
  destruct (call (linalg_inv ext a)) as [a_inv | e]; simpl; [ | reflexivity].
  rewrite (for_each_ext
             (exec_loop_body s a_inv (setitem j row bd) (length (X_ADJUSTED s)))
             (exec_loop_body s a_inv bd (length (X_ADJUSTED s)))).
  - reflexivity.
  - intros i Hi [zvalues sigmasq]. unfold exec_loop_body, getitem.
    rewrite nth_error_setitem_other; [reflexivity | ].
    intros ->. exact (masked_not_in mask i Hm Hi).
Qed.

Lemma exec_loop_body_returns (s : Session) (a_inv bd_all : matrix) (n : nat)
    (zvalues sigmasq : list R) (j : nat) (bd : list R) (z v : R) :
  nth_error bd_all j = Some bd ->
  point_solution s a_inv n bd = Ok (z, v) ->
  exec_loop_body s a_inv bd_all n (zvalues, sigmasq) j
  = Ok (setitem j z zvalues, setitem j v sigmasq).
Proof.
  intros Hbd Hsol. unfold exec_loop_body, getitem. rewrite Hbd. simpl.
  unfold point_solution in Hsol.
  step_as Hsol sill Esill. step_as Hsol b Eb. step_as Hsol x Ex.
  step_as Hsol xz Exz. step_as Hsol xb Exb. injection Hsol as <- <-.
  rewrite Esill. simpl. rewrite Eb. simpl. rewrite Ex. simpl. rewrite Exz. simpl.
  rewrite Exb. reflexivity.
Qed.

Lemma exec_loop_for_each_returns (s : Session) (a_inv bd_all : matrix) (n : nat)
    (js : list nat) :
  (forall j, In j js -> exists bd r,
     nth_error bd_all j = Some bd /\ point_solution s a_inv n bd = Ok r) ->
  forall acc, exists acc', for_each (exec_loop_body s a_inv bd_all n) js acc = Ok acc'.
Proof.
  induction js as [| j rest IH]; intros H acc.
  - eexists. reflexivity.
  - destruct (H j (or_introl eq_refl)) as (bd & [z v] & Hbd & Hsol).
    destruct acc as [zvalues sigmasq]. cbn [for_each].
    rewrite (@exec_loop_body_returns s a_inv bd_all n zvalues sigmasq j bd z v Hbd Hsol).
    simpl.
    apply IH. intros i Hi. apply H. right. exact Hi.
Qed.

(** C6, as the code has it.  The point loop visits the query points
    that are not masked and no other: it solves the system of each of them
    and writes the two results, the entries of a masked point stay the
    zeros they were created as, and its distances are not even read; the
    loop returns as soon as the inverse is there and the systems of the
    points that are not masked can be solved, whatever the masked points
    are.  The vectorised solve has a row of weights for every query point,
    masked or not, the inverse applied to the cross-covariances of the
    point, and it solves the system of every point.  When a point at least
    is not
    masked, a masked point is marked: its flag stands on each entry of its
    row of [mask_b], and its two results are masked cells; the results of
    the other points are values.  When every point is masked, the code
    builds no masked array: nothing is marked, and the results of all
    points are returned as values. *)
Theorem masked_points_in_loop_and_vector :
  forall (ext : Externals) (s : Session) (a bd : matrix) (mask : list bool),
    let n := length (X_ADJUSTED s) in
    (forall j, In j (unmasked mask) <-> (j < length mask)%nat /\ nth j mask true = false)
    /\ (forall zl vl, exec_loop ext s a bd mask = Ok (zl, vl) ->
          exists a_inv,
            linalg_inv ext a = Returns a_inv
            /\ (forall j, (j < length mask)%nat -> nth j mask true = false ->
                  exists bd_j z v,
                    nth_error bd j = Some bd_j
                    /\ point_solution s a_inv n bd_j = Ok (z, v)
                    /\ cell_at zl j = Some z /\ cell_at vl j = Some v)
            /\ (forall j, nth j mask true = true -> (j < length bd)%nat ->
                  cell_at zl j = Some 0 /\ cell_at vl j = Some 0))
    /\ (forall a_inv,
          linalg_inv ext a = Returns a_inv ->
          (forall j, (j < length mask)%nat -> nth j mask true = false ->
             exists bd_j r,
               nth_error bd j = Some bd_j /\ point_solution s a_inv n bd_j = Ok r) ->
          exists zl vl, exec_loop ext s a bd mask = Ok (zl, vl))
    /\ (forall j, nth j mask true = true ->
          forall row, exec_loop ext s a (setitem j row bd) mask = exec_loop ext s a bd mask)
    /\ (forall a_inv m b k,
          Forall (fun row => length row = m) b -> (k < length b)%nat ->
          nth k (exec_vector_weights a_inv (length b) m b) [] = mat_vec a_inv (nth k b []))
    /\ (forall j m, (j < length mask)%nat ->
          nth j (mask_b mask m) [] = repeat (nth j mask true) m)
    /\ (forall zv vv, exec_vector ext s a bd mask = Ok (zv, vv) ->
          exists a_inv,
            linalg_inv ext a = Returns a_inv
            /\ forall j bd_j, nth_error bd j = Some bd_j ->
                 exists z v,
                   point_solution s a_inv n bd_j = Ok (z, v)
                   /\ (any_unmasked mask = true ->
                       (j < length mask)%nat -> nth j mask true = true ->
                       cell_at zv j = None /\ cell_at vv j = None)
                   /\ (has_data s -> nth j mask true = false ->
                       cell_at zv j = Some z /\ cell_at vv j = Some v)
                   /\ (any_unmasked mask = false ->
                       cell_at zv j = Some z /\ cell_at vv j = Some v)).
Proof.
  intros ext s a bd mask n. splits.
  - apply unmasked_spec.
  - intros zl vl Hl. apply exec_loop_cells in Hl.
    destruct Hl as (a_inv & Hinv & _ & _ & Hother & Hin).
    exists a_inv. splits; try assumption.
    + intros j Hj Hm. apply Hin. apply unmasked_spec. split; assumption.
    + intros j Hm Hj. apply Hother; [exact Hj | apply masked_not_in; exact Hm].
  - intros a_inv Hinv Hsolved. unfold exec_loop. rewrite Hinv. simpl.
    destruct (@exec_loop_for_each_returns s a_inv bd n (unmasked mask))
      with (acc := (zeros (length bd), zeros (length bd))) as [[z' v'] Hloop].
    + intros j Hj. apply unmasked_spec in Hj. destruct Hj as [Hj Hm].
      apply Hsolved; assumption.
    + unfold n in Hloop. rewrite Hloop. simpl. eexists _, _. reflexivity.
  - intros j Hm row. apply exec_loop_ignores_masked_row. exact Hm.
  - intros a_inv m b k Hrows Hk. apply exec_vector_weights_row; assumption.
  - intros j m Hj. apply mask_b_row. exact Hj.
  - intros zv vv Hv. apply exec_vector_cells in Hv.
    destruct Hv as (a_inv & Hinv & _ & _ & Hv).
    exists a_inv. split; [exact Hinv | ].
    intros j bd_j Hbd.
    destruct (Hv j bd_j Hbd) as (z & v & Hsol & Hmasked & Hplain & Hval).
    exists z, v. splits; assumption.
Qed.

(** A masked first point and a second point that is not masked: the loop
    leaves the zeros of the first and solves the second, the vectorised
    solve masks the first and returns the same values for the second. *)
Lemma masked_points_in_loop_and_vector_witness :
  let a := [[1; 0]; [0; 1]] in
  let bd := [[0; 1]; [1 / 2; 1 / 2]] in
  let mask := [true; false] in
  exists zv vv zl vl z v,
    exec_vector small_ext two_points a bd mask = Ok (zv, vv)
    /\ exec_loop small_ext two_points a bd mask = Ok (zl, vl)
    /\ point_solution two_points a 2 [1 / 2; 1 / 2] = Ok (z, v)
    /\ cell_at zl 0 = Some 0 /\ cell_at vl 0 = Some 0
    /\ cell_at zl 1 = Some z /\ cell_at vl 1 = Some v
    /\ cell_at zv 0 = None /\ cell_at vv 0 = None
    /\ cell_at zv 1 = Some z /\ cell_at vv 1 = Some v
    /\ exec_loop small_ext two_points a (setitem 0 [7] bd) mask = Ok (zl, vl).
Proof.
  intros a bd mask.
  assert (Hv : exists r, exec_vector small_ext two_points a bd mask = Ok r).
  { unfold exec_vector. change (linalg_inv small_ext) with inv_small. unfold a.
    rewrite inv_small_identity.
    eexists. reflexivity. }
  assert (Hl : exists r, exec_loop small_ext two_points a bd mask = Ok r).
  { unfold exec_loop. change (linalg_inv small_ext) with inv_small. unfold a.
    rewrite inv_small_identity.
    eexists. reflexivity. }
  destruct Hv as [[zv vv] Hv]. destruct Hl as [[zl vl] Hl].
  destruct (masked_points_in_loop_and_vector small_ext two_points a bd mask)
    as (_ & Hloop & _ & Hrow & _ & _ & Hvec).
  destruct (Hloop zl vl Hl) as (a_inv & Hinv & Hsolved & Hzero).
  destruct (Hvec zv vv Hv) as (a_inv' & Hinv' & Hcells).
  change (linalg_inv small_ext a) with (inv_small [[1; 0]; [0; 1]]) in Hinv, Hinv'.
  rewrite inv_small_identity in Hinv, Hinv'.
  injection Hinv as <-. injection Hinv' as <-.
  destruct (Hsolved 1%nat) as (bd_1 & z & v & Hbd & Hsol & Ez & Ev);
    [simpl; lia | reflexivity | ].
  injection Hbd as <-.
  destruct (Hzero 0%nat eq_refl) as [Hz0 Hv0]; [simpl; lia | ].
  destruct (Hcells 0%nat [0; 1] eq_refl) as (z0 & v0 & _ & Hmasked & _).
  destruct (Hmasked eq_refl) as [Hzn Hvn]; [simpl; lia | reflexivity | ].
  destruct (Hcells 1%nat [1 / 2; 1 / 2] eq_refl) as (z1 & v1 & Hsol1 & _ & Hval & _).
  change (length (X_ADJUSTED two_points)) with 2%nat in Hsol, Hsol1.
  rewrite Hsol in Hsol1. injection Hsol1 as <- <-.
  destruct (Hval two_points_has_data eq_refl) as [Ez1 Ev1].
  exists zv, vv, zl, vl, z, v.
  rewrite (Hrow 0%nat eq_refl [7]). auto 15.
Defined.

(** C6, as it is stated, fails where every point is masked: the claim
    has the rows of the masked points marked in the vectorised solve, and
    for two masked points the code marks nothing and returns the two
    estimates 5 and 6 and the two variances 1 and 3/2 as values. *)
Lemma exec_vector_all_masked_marks_nothing :
  let a := [[1; 0]; [0; 1]] in
  let bd := [[0; 1]; [1 / 2; 1 / 2]] in
  let mask := [true; true] in
  exec_vector small_ext two_points a bd mask = Ok (Plain [5; 6], Plain [1; 3 / 2])
  /\ ~ (forall zv vv j,
          exec_vector small_ext two_points a bd mask = Ok (zv, vv) ->
          (j < length mask)%nat -> nth j mask true = true ->
          cell_at zv j = None /\ cell_at vv j = None).
Proof.
  intros a bd mask.
  assert (Hv : exec_vector small_ext two_points a bd mask
               = Ok (Plain [5; 6], Plain [1; 3 / 2])).
  { unfold exec_vector. change (linalg_inv small_ext) with inv_small. unfold a.
    rewrite inv_small_identity.
    cbn. cells_eq; rewrite !covariance_two_points; lra. }
  split; [exact Hv | ].
  intros H. destruct (H _ _ 0%nat Hv) as [Hz _]; [simpl; lia | reflexivity | ].
  discriminate Hz.
Qed.

(** ** The shape of what [execute] returns *)

Lemma check_mask_flags (mask : option mask2d) (ny nx : nat) (mflat : list bool) :
  check_mask mask ny nx = Ok mflat ->
  exists m, mask = Some m /\
    forall r c, (r < ny)%nat -> (c < nx)%nat ->
      nth (r * nx + c) mflat true = caller_flag m ny nx r c.
Proof.
  unfold check_mask, caller_flag. destruct mask as [m |]; [ | discriminate].
  intros H. exists m. split; [reflexivity | ]. intros r c Hr Hc.
  destruct (shape0 m =? ny)%nat eqn:E0, (shape1 m =? nx)%nat eqn:E1; simpl in *.
  - injection H as <-. apply Nat.eqb_eq in E1. unfold mask_get. rewrite E1. reflexivity.
  - destruct ((shape0 m =? nx)%nat && (shape1 m =? ny)%nat) eqn:F; [ | discriminate].
    apply andb_true_iff in F. destruct F as [F0 F1].
    apply Nat.eqb_eq in F0, F1. injection H as <-. simpl. rewrite F0, F1.
    rewrite (nth_flat_map_chunks _ (n := nx)) by
      (try (intros j; rewrite length_map, length_seq; reflexivity); assumption).
    simpl. rewrite (nth_map_in _ _ 0%nat) by (rewrite length_seq; exact Hc).
    rewrite seq_nth by exact Hc. unfold mask_get. rewrite F1. reflexivity.
  - destruct ((shape0 m =? nx)%nat && (shape1 m =? ny)%nat) eqn:F; [ | discriminate].
    apply andb_true_iff in F. destruct F as [F0 F1].
    apply Nat.eqb_eq in F0, F1. injection H as <-. simpl. rewrite F0, F1.
    rewrite (nth_flat_map_chunks _ (n := nx)) by
      (try (intros j; rewrite length_map, length_seq; reflexivity); assumption).
    simpl. rewrite (nth_map_in _ _ 0%nat) by (rewrite length_seq; exact Hc).
    rewrite seq_nth by exact Hc. unfold mask_get. rewrite F1. reflexivity.
  - destruct ((shape0 m =? nx)%nat && (shape1 m =? ny)%nat) eqn:F; [ | discriminate].
    apply andb_true_iff in F. destruct F as [F0 F1].
    apply Nat.eqb_eq in F0, F1. injection H as <-. simpl. rewrite F0, F1.
    rewrite (nth_flat_map_chunks _ (n := nx)) by
      (try (intros j; rewrite length_map, length_seq; reflexivity); assumption).
    simpl. rewrite (nth_map_in _ _ 0%nat) by (rewrite length_seq; exact Hc).
    rewrite seq_nth by exact Hc. unfold mask_get. rewrite F1. reflexivity.
Qed.

Lemma moving_window_lengths (ext : Externals) (s : Session) (a_all bd_all : matrix)
    (bd_idx : list (list nat)) (n : nat) (js : list nat) :
  forall zvalues sigmasq z' v',
    for_each (moving_window_body ext s a_all bd_all bd_idx n) js (zvalues, sigmasq)
      = Ok (z', v') ->
    length z' = length zvalues /\ length v' = length sigmasq.
Proof.
  induction js as [| i rest IH]; intros zvalues sigmasq z' v' H.
  - simpl in H. injection H as <- <-. split; reflexivity.
  - cbn [for_each] in H. step H. unfold moving_window_body in E.
    do 9 step E. injection E as <-.
    apply IH in H. rewrite !setitem_length in H. exact H.
Qed.

(** What the three solvers return, as [execute] uses it: two arrays with
    one cell for each row of distances, valid at the points that are not
    masked. *)
Lemma exec_vector_shape (ext : Externals) (s : Session) (a bd : matrix)
    (mask : list bool) (zv vv : ndarray1) :
  exec_vector ext s a bd mask = Ok (zv, vv) ->
  size zv = length bd /\ size vv = length bd /\
  (has_data s ->
   forall i, (i < length bd)%nat -> nth i mask true = false ->
     valid_at zv i /\ valid_at vv i).
Proof.
  intros H. destruct (exec_vector_cells _ _ _ _ _ H) as (a_inv & _ & Sz & Sv & Hc).
  splits; try assumption. intros Hdata i Hi Hm.
  destruct (Hc i (nth i bd []) (nth_error_nth_in bd [] Hi)) as (z & v & _ & _ & _ & Hval).
  destruct (Hval Hdata Hm) as [Ez Ev].
  unfold valid_at. rewrite Ez, Ev. split; discriminate.
Qed.

Lemma plain_valid (v : list R) (i : nat) : (i < length v)%nat -> valid_at (Plain v) i.
Proof. intros H. unfold valid_at. rewrite cell_at_Plain by exact H. discriminate. Qed.

Lemma exec_loop_shape (ext : Externals) (s : Session) (a bd : matrix)
    (mask : list bool) (zl vl : ndarray1) :
  exec_loop ext s a bd mask = Ok (zl, vl) ->
  size zl = length bd /\ size vl = length bd /\
  (has_data s ->
   forall i, (i < length bd)%nat -> nth i mask true = false ->
     valid_at zl i /\ valid_at vl i).
Proof.
  unfold exec_loop. intros H. step_as H a_inv Einv. step_as H acc Eloop.
  destruct acc as [z' v']. injection H as <- <-.
  apply exec_loop_entries in Eloop; [ | unfold zeros; apply repeat_length ..].
  destruct Eloop as (Lz & Lv & _).
  unfold size. simpl. rewrite !length_map. splits; try assumption.
  intros _ i Hi _. split; apply plain_valid; lia.
Qed.

Lemma exec_loop_moving_window_shape (ext : Externals) (s : Session) (a bd : matrix)
    (mask : list bool) (bd_idx : list (list nat)) (zl vl : ndarray1) :
  exec_loop_moving_window ext s a bd mask bd_idx = Ok (zl, vl) ->
  size zl = length bd /\ size vl = length bd /\
  (has_data s ->
   forall i, (i < length bd)%nat -> nth i mask true = false ->
     valid_at zl i /\ valid_at vl i).
Proof.
  unfold exec_loop_moving_window. intros H. step_as H acc Eloop.
  destruct acc as [z' v']. injection H as <- <-.
  apply moving_window_lengths in Eloop. destruct Eloop as (Lz & Lv).
  unfold zeros in Lz, Lv. rewrite repeat_length in Lz, Lv.
  unfold size. simpl. rewrite !length_map. splits; try assumption.
  intros _ i Hi _. split; apply plain_valid; lia.
Qed.

Lemma solve_shape (ext : Externals) (s : Session) (a : matrix)
    (xy_points xy_data : list (R * R)) (mask : list bool) (backend : string)
    (k : option nat) (zv vv : ndarray1) :
  solve ext s a xy_points xy_data mask backend k = Ok (zv, vv) ->
  size zv = size vv /\
  (one_row_per_point ext -> size zv = length xy_points) /\
  (has_data s ->
   forall i, (i < size zv)%nat -> nth i mask true = false ->
     valid_at zv i /\ valid_at vv i).
Proof.
  unfold solve. intros H. destruct k as [k |].
  - step_as H q Equery. destruct q as [bd bd_idx].
    destruct (backend =? "loop")%string; [ | discriminate].
    apply exec_loop_moving_window_shape in H. destruct H as (Sz & Sv & Hval).
    rewrite Sz, Sv. splits; try reflexivity; try assumption.
    intros [_ Hrows].
    destruct (kdtree_query ext xy_data xy_points k) as [[bd' idx'] | msg] eqn:Ecall;
      simpl in Equery; [ | discriminate].
    injection Equery as -> ->. eapply Hrows. exact Ecall.
  - assert (Hlen : length (cdist xy_points xy_data) = length xy_points)
      by (unfold cdist; apply length_map).
    destruct (backend =? "vectorized")%string.
    + apply exec_vector_shape in H. destruct H as (Sz & Sv & Hval).
      rewrite Sz, Sv. splits; try reflexivity; try assumption. intros _. exact Hlen.
    + destruct (backend =? "loop")%string; [ | discriminate].
      apply exec_loop_shape in H. destruct H as (Sz & Sv & Hval).
      rewrite Sz, Sv. splits; try reflexivity; try assumption. intros _. exact Hlen.
Qed.

Lemma column_stack_length (x y : list R) (xy : list (R * R)) :
  column_stack x y = Ok xy -> length x = length y /\ length xy = length x.
Proof.
  unfold column_stack. intros H. step H. apply require_Ok_inv, Nat.eqb_eq in E.
  injection H as <-. rewrite length_combine. lia.
Qed.

Lemma cell_at_masked (c : list (option R)) (mask : list bool) (i : nat) :
  length c = length mask -> (i < length mask)%nat ->
  nth i (apply_mask c mask) None = hide (nth i c None) (nth i mask true).
Proof.
  intros Hl Hi. unfold apply_mask.
  rewrite (nth_map_in _ _ (None, true)) by (rewrite length_combine; lia).
  rewrite combine_nth by exact Hl. reflexivity.
Qed.

Lemma apply_mask_length (c : list (option R)) (mask : list bool) :
  length c = length mask -> length (apply_mask c mask) = length mask.
Proof.
  intros H. unfold apply_mask. rewrite length_map, length_combine. lia.
Qed.

(** A cell of a masked result is masked when its flag is set, and holds
    what the solver returned there when it is not. *)
Lemma masked_cell_flag (a : ndarray1) (mask : list bool) (i : nat) :
  size a = length mask -> (i < length mask)%nat ->
  (nth i mask true = true -> nth i (apply_mask (cells a) mask) None = None)
  /\ (nth i mask true = false -> valid_at a i ->
      nth i (apply_mask (cells a) mask) None <> None).
Proof.
  intros Hs Hi. rewrite cell_at_masked by assumption. split.
  - intros ->. reflexivity.
  - intros -> Hval. exact Hval.
Qed.

Lemma execute_points_shape (ext : Externals) (s : Session) (xs ys : list R)
    (mask : option mask2d) (backend : string) (k : option nat) (z v : output) :
  execute ext s "points" xs ys mask backend k = Ok (z, v) ->
  exists a b, z = Flat a /\ v = Flat b /\ size a = size b /\
    (one_row_per_point ext -> size a = length xs).
Proof.
  unfold execute, query_points. simpl. intros H.
  step_as H u Ekind. step_as H a Ea. step_as H q Equery.
  step_as Equery u' Esame. injection Equery as <-.
  apply require_Ok_inv, Nat.eqb_eq in Esame.
  step_as H adj Eadj. destruct adj as [xpts ypts].
  step_as H xy_points Exy. step_as H xy_data Edata.
  step_as H sol Esol. destruct sol as [zvalues sigmasq]. simpl in H.
  injection H as <- <-.
  apply solve_shape in Esol. destruct Esol as (Hsame & Hrows & _).
  exists zvalues, sigmasq. splits; try reflexivity; try assumption.
  intros Hext. rewrite (Hrows Hext).
  apply column_stack_length in Exy. destruct Exy as [_ ->].
  destruct Hext as [Hadj _].
  destruct (adjust_for_anisotropy ext xs ys (XCENTER s) (YCENTER s)
              (anisotropy_scaling s) (anisotropy_angle s)) as [[x' y'] | msg] eqn:Ecall;
    simpl in Eadj; [ | discriminate].
  injection Eadj as Hx Hy. subst xpts ypts.
  destruct (Hadj _ _ _ _ _ _ _ _ Esame Ecall) as [Hlen _]. exact Hlen.
Qed.

Lemma execute_grid_shape (ext : Externals) (s : Session) (xs ys : list R)
    (mask : option mask2d) (backend : string) (k : option nat) (z v : output) :
  execute ext s "grid" xs ys mask backend k = Ok (z, v) ->
  exists a b, z = Grid (length ys) (length xs) a /\ v = Grid (length ys) (length xs) b /\
    size a = (length ys * length xs)%nat /\ size b = (length ys * length xs)%nat.
Proof.
  unfold execute, query_points, meshgrid_flat. simpl. intros H.
  step_as H u Ekind. step_as H a Ea.
  step_as H adj Eadj. destruct adj as [xpts ypts].
  step_as H xy_points Exy. step_as H xy_data Edata.
  step_as H sol Esol. destruct sol as [zvalues sigmasq]. simpl in H.
  unfold reshape in H.
  step_as H z' Ez. step_as Ez u1 Sz. injection Ez as <-.
  step_as H v' Ev. step_as Ev u2 Sv. injection Ev as <-.
  injection H as <- <-.
  apply require_Ok_inv, Nat.eqb_eq in Sz, Sv.
  exists zvalues, sigmasq. splits; try reflexivity; assumption.
Qed.

Lemma execute_masked_shape (ext : Externals) (s : Session) (xs ys : list R)
    (mask : option mask2d) (backend : string) (k : option nat) (z v : output) :
  execute ext s "masked" xs ys mask backend k = Ok (z, v) ->
  exists a b m,
    z = Grid (length ys) (length xs) (Masked a) /\
    v = Grid (length ys) (length xs) (Masked b) /\
    length a = (length ys * length xs)%nat /\ length b = (length ys * length xs)%nat /\
    mask = Some m /\
    forall r c, (r < length ys)%nat -> (c < length xs)%nat ->
      (caller_flag m (length ys) (length xs) r c = true ->
         nth (r * length xs + c) a None = None /\
         nth (r * length xs + c) b None = None) /\
      (has_data s -> caller_flag m (length ys) (length xs) r c = false ->
         nth (r * length xs + c) a None <> None /\
         nth (r * length xs + c) b None <> None).
Proof.
  unfold execute. rewrite query_points_masked. simpl. intros H.
  step_as H u Ekind. step_as H a Ea. step_as H q Equery.
  step_as Equery mflat Emask. injection Equery as <-.
  step_as H adj Eadj. destruct adj as [xpts ypts].
  step_as H xy_points Exy. step_as H xy_data Edata.
  step_as H sol Esol. destruct sol as [zvalues sigmasq].
  step_as H wrapped Ewrap. destruct wrapped as [zm vm]. unfold ma_array in Ewrap.
  step_as Ewrap zm' Ezm. step_as Ezm u1 Mz. injection Ezm as <-.
  step_as Ewrap vm' Evm. step_as Evm u2 Mv. injection Evm as <-.
  injection Ewrap as <- <-.
  unfold reshape in H. simpl in H.
  step_as H z' Ez. step_as Ez u3 Sz. injection Ez as <-.
  step_as H v' Ev. step_as Ev u4 Sv. injection Ev as <-.
  injection H as <- <-.
  apply require_Ok_inv, Nat.eqb_eq in Mz, Mv, Sz, Sv.
  unfold size in Sz, Sv. simpl in Sz, Sv.
  apply solve_shape in Esol. destruct Esol as (Hsame & _ & Hval).
  destruct (check_mask_flags _ _ _ Emask) as (m & -> & Hflags).
  assert (Lm : length mflat = (length ys * length xs)%nat).
  { rewrite apply_mask_length in Sz by exact Mz. exact Sz. }
  exists (apply_mask (cells zvalues) mflat), (apply_mask (cells sigmasq) mflat), m.
  splits; try reflexivity; try assumption.
  intros r c Hr Hc.
  assert (Hi : (r * length xs + c < length mflat)%nat) by (rewrite Lm; nia).
  rewrite <- (Hflags r c Hr Hc).
  destruct (masked_cell_flag zvalues mflat Mz Hi) as [Hz1 Hz0].
  destruct (masked_cell_flag sigmasq mflat Mv Hi) as [Hv1 Hv0].
  split.
  - intros Hm. split; [apply Hz1 | apply Hv1]; exact Hm.
  - intros Hdata Hm.
    destruct (Hval Hdata (r * length xs + c)%nat) as [Vz Vv];
      [rewrite Mz; exact Hi | exact Hm | ].
    split; [apply Hz0 | apply Hv0]; assumption.
Qed.

(** C8.  What [execute] returns has the shape of the query.  For the
    style 'points' the two results are flat, of the same length, which is
    the number of query points when the transform and the k-d tree return
    one entry for each point they are given.  For the styles 'grid' and
    'masked' they are grids of ny rows and nx columns.  For the style
    'masked' both are masked arrays: the cell in row r and column c is
    masked, holding no value rather than a zero, when the caller's mask
    flags it (read at [c, r] when the mask was passed transposed), and for
    a session with data it holds a value when the mask does not flag it. *)
Theorem execute_output_shapes :
  forall (ext : Externals) (s : Session) (style : string) (xpoints ypoints : list R)
         (mask : option mask2d) (backend : string) (n_closest_points : option nat)
         (z v : output),
    execute ext s style xpoints ypoints mask backend n_closest_points = Ok (z, v) ->
    let ny := length ypoints in
    let nx := length xpoints in
    (style = "points" ->
       exists a b, z = Flat a /\ v = Flat b /\ size a = size b /\
         (one_row_per_point ext -> size a = nx))
    /\ (style = "grid" ->
          exists a b, z = Grid ny nx a /\ v = Grid ny nx b /\
            size a = (ny * nx)%nat /\ size b = (ny * nx)%nat)
    /\ (style = "masked" ->
          exists a b m,
            z = Grid ny nx (Masked a) /\ v = Grid ny nx (Masked b) /\
            length a = (ny * nx)%nat /\ length b = (ny * nx)%nat /\
            mask = Some m /\
            forall r c, (r < ny)%nat -> (c < nx)%nat ->
              (caller_flag m ny nx r c = true ->
                 nth (r * nx + c) a None = None /\ nth (r * nx + c) b None = None) /\
              (has_data s -> caller_flag m ny nx r c = false ->
                 nth (r * nx + c) a None <> None /\ nth (r * nx + c) b None <> None)).
Proof.
  intros ext s style xs ys mask backend k z v H ny nx. subst ny nx. splits.
  - intros ->. eapply execute_points_shape. exact H.
  - intros ->. eapply execute_grid_shape. exact H.
  - intros ->. eapply execute_masked_shape. exact H.
Qed.

Lemma small_ext_one_row_per_point : one_row_per_point small_ext.
Proof.
  split.
  - intros x y cx cy sc an x' y' Hlen H. simpl in H. unfold spec_adjust_for_anisotropy in H.
    rewrite (proj2 (Nat.eqb_eq _ _) Hlen) in H.
    injection H as <- <-. rewrite !length_map, length_combine. lia.
  - intros data points k bd bd_idx H. discriminate H.
Qed.

(** Runs [execute] on [two_points] up to the solver. *)
Ltac run_two_points :=
  unfold execute;
  change (length (X_ADJUSTED two_points)) with 2%nat;
  rewrite two_points_matrix;
  cbn -[cdist spec_adjust_for_anisotropy rotate_stretch inv_small];
  unfold solve, exec_vector, exec_loop;
  change (linalg_inv small_ext) with inv_small;
  rewrite inv_small_identity.

Lemma execute_two_points_returns :
  (exists r, execute small_ext two_points "points" [0; 1 / 2] [0; 0] None "vectorized" None
             = Ok r)
  /\ (exists r, execute small_ext two_points "grid" [0; 1 / 2] [0] None "loop" None = Ok r)
  /\ (exists r, execute small_ext two_points "masked" [0; 1 / 2] [0]
                  (Some {| shape0 := 2; shape1 := 1; flat := [false; true] |})
                  "vectorized" None = Ok r).
Proof.
  splits.
  - run_two_points. eexists. reflexivity.
  - run_two_points. eexists. reflexivity.
  - run_two_points. eexists. reflexivity.
Qed.

(** Two query points in one row, with a mask passed as two rows of one
    column that flags the second point. *)
Lemma execute_output_shapes_witness :
  let m := {| shape0 := 2; shape1 := 1; flat := [false; true] |} in
  (exists a b,
     execute small_ext two_points "points" [0; 1 / 2] [0; 0] None "vectorized" None
       = Ok (Flat a, Flat b)
     /\ size a = 2%nat /\ size b = 2%nat)
  /\ (exists a b,
        execute small_ext two_points "masked" [0; 1 / 2] [0] (Some m) "vectorized" None
          = Ok (Grid 1 2 (Masked a), Grid 1 2 (Masked b))
        /\ nth 0 a None <> None /\ nth 1 a None = None
        /\ nth 0 b None <> None /\ nth 1 b None = None).
Proof.
  intros m. destruct execute_two_points_returns as ([[z v] Hp] & _ & [[z' v'] Hm]).
  split.
  - destruct (@execute_output_shapes small_ext two_points "points" [0; 1 / 2] [0; 0]
                None "vectorized" None z v Hp) as (Hpoints & _ & _).
    destruct (Hpoints eq_refl) as (a & b & -> & -> & Hsame & Hsize).
    exists a, b. split; [exact Hp | ].
    rewrite <- Hsame, (Hsize small_ext_one_row_per_point). split; reflexivity.
  - destruct (@execute_output_shapes small_ext two_points "masked" [0; 1 / 2] [0]
                (Some m) "vectorized" None z' v' Hm) as (_ & _ & Hmasked).
    destruct (Hmasked eq_refl) as (a & b & m' & -> & -> & _ & _ & Em & Hflags).
    injection Em as <-.
    exists a, b. split; [exact Hm | ].
    destruct (Hflags 0%nat 0%nat) as [_ Hfree]; [simpl; lia | simpl; lia | ].
    destruct (Hflags 0%nat 1%nat) as [Hflagged _]; [simpl; lia | simpl; lia | ].
    destruct (Hfree two_points_has_data eq_refl) as [Ha0 Hb0].
    destruct (Hflagged eq_refl) as [Ha1 Hb1].
    simpl in Ha0, Hb0, Ha1, Hb1. auto.
Defined.

(** ** Query points that are data points *)

(** Section 8 of the spec: scaling 1 and angle 0 leave the coordinates
    unchanged. *)
Lemma rotate_stretch_identity (cx cy : R) (p : R * R) : rotate_stretch cx cy 1 0 p = p.
Proof.
  unfold rotate_stretch. replace (0 * PI / 180) with 0 by lra.
  rewrite cos_0, sin_0. destruct p as [x y]. simpl. f_equal; lra.
Qed.

Lemma spec_adjust_identity (x y : list R) (cx cy : R) :
  length x = length y ->
  spec_adjust_for_anisotropy x y cx cy 1 0 = Returns (x, y).
Proof.
  intros H. unfold spec_adjust_for_anisotropy.
  rewrite (proj2 (Nat.eqb_eq _ _) H).
  rewrite (map_ext _ (fun p => p) (rotate_stretch_identity cx cy)), map_id.
  f_equal. f_equal.
  - revert y H; induction x as [| a x IH]; intros [| b y] H; simpl in *;
      try reflexivity; try discriminate. f_equal. apply IH. lia.
  - revert y H; induction x as [| a x IH]; intros [| b y] H; simpl in *;
      try reflexivity; try discriminate. f_equal. apply IH. lia.
Qed.

(** [execute] on [two_points] for the single query point (0, 0), which
    is the first data point, up to the solver *)
Ltac run_at_first_point :=
  unfold execute;
  change (length (X_ADJUSTED two_points)) with 2%nat;
  rewrite two_points_matrix;
  cbn -[cdist spec_adjust_for_anisotropy inv_small solve];
  rewrite spec_adjust_identity by reflexivity;
  cbn -[cdist inv_small solve];
  unfold solve; cbn -[cdist exec_vector exec_loop];
  unfold cdist; cbn [map];
  rewrite euclidean_same, (@euclidean_on_x_axis 0 1) by lra.

Lemma execute_at_first_point_vectorized :
  execute small_ext two_points "points" [0] [0] None "vectorized" None
  = Ok (Flat (Masked [Some 5]), Flat (Masked [Some 1])).
Proof.
  run_at_first_point.
  unfold exec_vector. change (linalg_inv small_ext) with inv_small.
  rewrite inv_small_identity.
  cbn. cells_eq; rewrite !covariance_two_points; ring.
Qed.

Lemma execute_at_first_point_loop :
  execute small_ext two_points "points" [0] [0] None "loop" None
  = Ok (Flat (Plain [5]), Flat (Plain [1])).
Proof.
  run_at_first_point.
  unfold exec_loop. change (linalg_inv small_ext) with inv_small.
  rewrite inv_small_identity.
  cbn. cells_eq; rewrite !covariance_two_points; ring.
Qed.

Lemma dot_cons (x y : R) (u v : list R) : dot (x :: u) (y :: v) = x * y + dot u v.
Proof. reflexivity. Qed.

Lemma dot_indicator (i : nat) (v : list R) :
  forall start n, length v = n -> (start <= i < start + n)%nat ->
    dot (map (fun r => if (r =? i)%nat then 1 else 0) (seq start n)) v
    = nth (i - start) v 0.
Proof.
  induction v as [| y v IH]; intros start n Hl Hi; simpl in Hl; subst n.
  - simpl in Hi. lia.
  - simpl seq. simpl map. rewrite dot_cons.
    destruct (Nat.eq_dec start i) as [-> | Hne].
    + rewrite Nat.eqb_refl, Nat.sub_diag. simpl.
      assert (Hz : dot (map (fun r => if (r =? i)%nat then 1 else 0) (seq (S i) (length v))) v = 0).
      { clear. generalize (S i) (Nat.lt_succ_diag_r i). revert v.
        induction v as [| y v IH]; intros k Hk; simpl; [reflexivity | ].
        rewrite dot_cons. replace (k =? i)%nat with false by (symmetry; apply Nat.eqb_neq; lia).
        rewrite IH by lia. ring. }
      rewrite Hz. ring.
    + replace (start =? i)%nat with false by (symmetry; apply Nat.eqb_neq; exact Hne).
      rewrite (IH (S start) (length v) eq_refl) by lia.
      replace (i - start)%nat with (S (i - S start)) by lia. simpl. ring.
Qed.

Lemma dot_unit_vector (n i : nat) (v : list R) :
  length v = n -> (i < n)%nat -> dot (unit_vector n i) v = nth i v 0.
Proof.
  intros Hl Hi. unfold unit_vector. rewrite (@dot_indicator i v 0%nat n Hl) by lia.
  rewrite Nat.sub_0_r. reflexivity.
Qed.

Lemma cdist_entry (ps : list (R * R)) (i j : nat) (d : R * R) :
  (i < length ps)%nat -> (j < length ps)%nat ->
  nth j (nth i (cdist ps ps) []) 0 = euclidean (nth i ps d) (nth j ps d).
Proof.
  intros Hi Hj. unfold cdist.
  rewrite (nth_map_in _ _ d) by exact Hi.
  apply (@nth_map_in _ _ (euclidean (nth i ps d)) ps j d 0 Hj).
Qed.

Lemma cdist_row_length (ps qs : list (R * R)) (i : nat) :
  (i < length ps)%nat -> length (nth i (cdist ps qs) []) = length qs.
Proof.
  intros Hi. unfold cdist. rewrite (nth_map_in _ _ (0, 0)) by exact Hi.
  apply length_map.
Qed.

(** The kriging matrix of a session, when [n] is the number of its data
    points: the covariances of the pairwise distances, a symmetric
    matrix. *)
Lemma kriging_matrix_entries (s : Session) (a : matrix) :
  get_kriging_matrix s (length (X_ADJUSTED s)) = Ok a ->
  exists sill,
    getitem0 (variogram_model_parameters s) = Ok sill /\
    length (Y_ADJUSTED s) = length (X_ADJUSTED s) /\
    a = map (map (covariance s sill))
            (cdist (combine (X_ADJUSTED s) (Y_ADJUSTED s))
                   (combine (X_ADJUSTED s) (Y_ADJUSTED s))).
Proof.
  unfold get_kriging_matrix. intros H. step_as H xy Exy. step_as H sill Esill.
  apply column_stack_length in Exy as Hlen. destruct Hlen as [Hxy Lxy].
  unfold column_stack in Exy. step_as Exy u Eu. injection Exy as <-.
  exists sill. splits; try assumption; try (symmetry; assumption).
  unfold assign_square in H.
  rewrite length_map in H. unfold cdist in H at 1. rewrite length_map, Lxy in H.
  rewrite Nat.eqb_refl in H. injection H as <-. reflexivity.
Qed.

(** In real arithmetic, with an inverse of the kriging matrix, the system
    of a query point that is the data point [i] has the unit vector as its
    solution: the estimate is the value of the point, and the variance is
    what the variogram returns at distance 0, which is the nugget and not
    0. *)
Lemma point_solution_at_data_point (s : Session) (a a_inv : matrix) (i : nat) :
  let n := length (X_ADJUSTED s) in
  let xy := combine (X_ADJUSTED s) (Y_ADJUSTED s) in
  get_kriging_matrix s n = Ok a ->
  length a_inv = n -> aligned a_inv n = true ->
  mat_mul a_inv n a = identity n ->
  length (Z s) = n -> (i < n)%nat ->
  point_solution s a_inv n (map (euclidean (nth i xy (0, 0))) xy)
  = Ok (nth i (Z s) 0, variogram_function s (variogram_model_parameters s) 0).
Proof.
  intros n xy Ha La Hal Hinv Lz Hi.
  destruct (kriging_matrix_entries s Ha) as (sill & Esill & Lxy & Ea).
  fold xy in Ea. fold n in Lxy.
  assert (Ln : length xy = n) by (unfold xy; rewrite length_combine; lia).
  set (bd := map (euclidean (nth i xy (0, 0))) xy).
  set (b := map (covariance s sill) bd).
  assert (Lb : length b = n) by (unfold b, bd; rewrite !length_map; exact Ln).
  assert (Hrow : nth i a [] = b).
  { rewrite Ea. rewrite (nth_map_in _ _ []) by (unfold cdist; rewrite length_map; lia).
    unfold cdist. rewrite (nth_map_in _ _ (0, 0)) by lia. reflexivity. }
  assert (Hsym : forall r, (r < n)%nat -> nth i (nth r a []) 0 = nth r b 0).
  { intros r Hr. rewrite <- Hrow, Ea.
    rewrite !nth_map_map by
      (try (unfold cdist; rewrite length_map; lia); rewrite cdist_row_length; lia).
    rewrite !(cdist_entry xy (0, 0)) by lia. f_equal. apply euclidean_sym. }
  assert (Hcol : nth i (transpose n a) [] = b).
  { rewrite nth_transpose by exact Hi.
    apply nth_ext with (d := 0) (d' := 0).
    - rewrite length_map, Lb, Ea, length_map. unfold cdist. rewrite length_map. exact Ln.
    - intros r Hr. rewrite length_map in Hr.
      assert (Hrn : (r < n)%nat).
      { rewrite Ea, length_map in Hr. unfold cdist in Hr. rewrite length_map in Hr. lia. }
      rewrite (nth_map_in _ _ []) by (rewrite Ea, length_map; unfold cdist;
                                       rewrite length_map; lia).
      apply Hsym. exact Hrn. }
  assert (Hx : mat_vec a_inv b = unit_vector n i).
  { apply nth_ext with (d := 0) (d' := 0).
    - rewrite mat_vec_length. unfold unit_vector. rewrite length_map, length_seq. exact La.
    - intros r Hr. rewrite mat_vec_length, La in Hr.
      unfold mat_vec. rewrite (nth_map_in _ _ []) by lia.
      assert (Hent : nth i (nth r (mat_mul a_inv n a) []) 0
                     = dot (nth r a_inv []) (nth i (transpose n a) [])).
      { unfold mat_mul. rewrite (nth_map_in _ _ []) by lia.
        apply (@nth_map_in _ _ (dot (nth r a_inv [])) (transpose n a) i [] 0).
        rewrite transpose_length. exact Hi. }
      rewrite Hcol in Hent. rewrite <- Hent, Hinv.
      unfold identity, unit_vector.
      rewrite (nth_map_in _ _ 0%nat) by (rewrite length_seq; exact Hr).
      rewrite seq_nth by exact Hr.
      rewrite (nth_map_in _ _ 0%nat) by (rewrite length_seq; exact Hi).
      rewrite (nth_map_in _ _ 0%nat) by (rewrite length_seq; exact Hr).
      rewrite !seq_nth by assumption. simpl. rewrite Nat.eqb_sym. reflexivity. }
  unfold point_solution. rewrite Esill. simpl.
  unfold cross_covariance, assign_row. fold bd. fold b. rewrite Lb, Nat.eqb_refl. simpl.
  unfold np_dot_vec. rewrite Lb, Hal. simpl. rewrite Hx.
  unfold np_mul, broadcast_mul.
  assert (Lu : length (unit_vector n i) = n)
    by (unfold unit_vector; rewrite length_map; apply length_seq).
  rewrite Lu, Lz, Lb, broadcastable_same, Nat.eqb_refl. simpl.
  fold (dot (unit_vector n i) (Z s)). fold (dot (unit_vector n i) b).
  rewrite !dot_unit_vector by assumption.
  f_equal. f_equal.
  destruct (@kriging_matrix_diagonal s n a i Ha Hi) as (sill' & Esill' & Hdiag).
  rewrite Esill in Esill'. injection Esill' as <-.
  rewrite Hrow in Hdiag. rewrite Hdiag. ring.
Qed.

(** Both solvers at a query point that is the data point [i] *)
Lemma solvers_at_data_point (ext : Externals) (s : Session) (a a_inv bd : matrix)
    (mask : list bool) (i k : nat) :
  let n := length (X_ADJUSTED s) in
  let xy := combine (X_ADJUSTED s) (Y_ADJUSTED s) in
  get_kriging_matrix s n = Ok a ->
  linalg_inv ext a = Returns a_inv ->
  length a_inv = n -> aligned a_inv n = true -> mat_mul a_inv n a = identity n ->
  length (Z s) = n -> (i < n)%nat ->
  nth_error bd k = Some (map (euclidean (nth i xy (0, 0))) xy) ->
  nth k mask true = false ->
  let estimate := Some (nth i (Z s) 0) in
  let variance := Some (variogram_function s (variogram_model_parameters s) 0) in
  (forall zv vv, exec_vector ext s a bd mask = Ok (zv, vv) ->
     cell_at zv k = estimate /\ cell_at vv k = variance)
  /\ (forall zl vl, exec_loop ext s a bd mask = Ok (zl, vl) ->
        cell_at zl k = estimate /\ cell_at vl k = variance).
Proof.
  intros n xy Ha Hinv La Hal Hid Lz Hi Hbd Hm estimate variance.
  pose proof (@point_solution_at_data_point s a a_inv i Ha La Hal Hid Lz Hi) as Hsol.
  fold n xy in Hsol. split.
  - intros zv vv H. apply exec_vector_cells in H.
    destruct H as (a_inv' & Hinv' & _ & _ & Hcells).
    rewrite Hinv in Hinv'. injection Hinv' as <-.
    destruct (Hcells k _ Hbd) as (z & v & Hsol' & _ & _ & Hval).
    fold n in Hsol'. rewrite Hsol in Hsol'. injection Hsol' as <- <-.
    apply Hval; [ | exact Hm]. split.
    + intros E. fold n in Hi. unfold n in Hi. rewrite E in Hi. simpl in Hi. lia.
    + intros E. rewrite E in Lz. simpl in Lz. fold n in Hi. lia.
  - intros zl vl H. apply exec_loop_cells in H.
    destruct H as (a_inv' & Hinv' & _ & _ & _ & Hcells).
    rewrite Hinv in Hinv'. injection Hinv' as <-.
    destruct (Hcells k (unmasked_in mask k Hm)) as (bd_k & z & v & Hbd' & Hsol' & Ez & Ev).
    rewrite Hbd in Hbd'. injection Hbd' as <-.
    fold n in Hsol'. rewrite Hsol in Hsol'. injection Hsol' as <- <-. auto.
Qed.

(** The session of the examples is the one the constructor builds. *)
Lemma init_two_points :
  init small_ext [0; 1] [0; 0] [5; 7] "custom" (Some [2; 1; 1]) (Some nugget_variogram)
       6 0 1 0 false false false None None
  = Ok two_points.
Proof.
  unfold init, amax, amin. cbn [fold_left bind].
  rewrite (Rmax_right 0 1), (Rmin_left 0 1), (Rmax_right 0 0), (Rmin_left 0 0) by lra.
  change (adjust_for_anisotropy small_ext) with spec_adjust_for_anisotropy.
  rewrite spec_adjust_identity by reflexivity. cbn.
  unfold two_points, session_of. f_equal. f_equal; lra.
Qed.

(** C4 (the code departs from the claim).  The claim: at a query point
    that is a data point the variance is about 0 and the estimate about the
    value of the point, with all three solvers.  For the two data points
    (0, 0, 5) and (1, 0, 7), sill 2 and a variogram with nugget 1, the
    query at (0, 0) returns the estimate 5, which is the value of the
    point, and the variance 1, which is the nugget, with the vectorised
    solve and with the point loop; the moving window, on the two
    neighbours at the distances 0 and 1, raises. *)
Theorem variance_at_data_point_is_the_nugget :
  execute small_ext two_points "points" [0] [0] None "vectorized" None
    = Ok (Flat (Masked [Some 5]), Flat (Masked [Some 1]))
  /\ execute small_ext two_points "points" [0] [0] None "loop" None
     = Ok (Flat (Plain [5]), Flat (Plain [1]))
  /\ (forall ext : Externals,
        exec_loop_moving_window ext two_points [[1; 0]; [0; 1]] [[0; 1]] [false]
          [[0; 1]%nat]
        = Err (LibraryError "incompatible dimensions"))
  /\ nth 0 (Z two_points) 0 = 5
  /\ variogram_function two_points (variogram_model_parameters two_points) 0 = 1.
Proof.
  splits.
  - exact execute_at_first_point_vectorized.
  - exact execute_at_first_point_loop.
  - intros ext. reflexivity.
  - reflexivity.
  - unfold two_points, session_of, nugget_variogram. simpl. ring.
Qed.

(** * Further properties of the class *)

(** ** The kriging matrix *)

(** X1.  For the number of data points of the session, the kriging
    matrix that [_get_kriging_matrix] returns is square, its entry (i, j)
    is the first parameter minus the variogram at the distance between the
    data points i and j in the working frame, and it is symmetric. *)
Theorem kriging_matrix_symmetric_covariances :
  forall (s : Session) (a : matrix),
    let n := length (X_ADJUSTED s) in
    let p := fun i => (nth i (X_ADJUSTED s) 0, nth i (Y_ADJUSTED s) 0) in
    get_kriging_matrix s n = Ok a ->
    length a = n
    /\ (forall i, (i < n)%nat -> length (nth i a []) = n)
    /\ (forall i j, (i < n)%nat -> (j < n)%nat ->
          nth j (nth i a []) 0
          = nth 0 (variogram_model_parameters s) 0
            - variogram_function s (variogram_model_parameters s) (euclidean (p i) (p j)))
    /\ (forall i j, (i < n)%nat -> (j < n)%nat ->
          nth j (nth i a []) 0 = nth i (nth j a []) 0).
Proof.
  intros s a n p Ha.
  destruct (kriging_matrix_entries s Ha) as (sill & Esill & Lxy & Ea).
  fold n in Lxy.
  set (xy := combine (X_ADJUSTED s) (Y_ADJUSTED s)) in *.
  assert (Ln : length xy = n) by (unfold xy; rewrite length_combine; lia).
  assert (Hp : forall i, nth i xy (0, 0) = p i).
  { intros i. unfold xy, p. apply combine_nth. symmetry. exact Lxy. }
  assert (Hsill : sill = nth 0 (variogram_model_parameters s) 0).
  { destruct (variogram_model_parameters s); simpl in *; [discriminate | ].
    injection Esill as ->. reflexivity. }
  assert (Hent : forall i j, (i < n)%nat -> (j < n)%nat ->
            nth j (nth i a []) 0 = covariance s sill (euclidean (p i) (p j))).
  { intros i j Hi Hj. rewrite Ea.
    rewrite nth_map_map by
      (try (unfold cdist; rewrite length_map; lia); rewrite cdist_row_length; lia).
    rewrite (cdist_entry xy (0, 0)) by lia. rewrite !Hp. reflexivity. }
  splits.
  - rewrite Ea, length_map. unfold cdist. rewrite length_map. exact Ln.
  - intros i Hi. rewrite Ea.
    rewrite (nth_map_in _ _ []) by (unfold cdist; rewrite length_map; lia).
    rewrite length_map, cdist_row_length by lia. exact Ln.
  - intros i j Hi Hj. rewrite Hent by assumption. rewrite Hsill. reflexivity.
  - intros i j Hi Hj. rewrite !Hent by assumption. f_equal. apply euclidean_sym.
Qed.

Lemma kriging_matrix_symmetric_covariances_witness :
  exists a,
    get_kriging_matrix two_points 2 = Ok a
    /\ length a = 2%nat
    /\ nth 1 (nth 0 a []) 0 = nth 0 (nth 1 a []) 0.
Proof.
  exists [[1; 0]; [0; 1]].
  destruct (@kriging_matrix_symmetric_covariances two_points _ two_points_matrix)
    as (L & _ & _ & Hsym).
  split; [exact two_points_matrix | ]. split; [exact L | ].
  apply Hsym; simpl; lia.
Defined.

(** X2.  [_get_kriging_matrix], called as [execute] calls it, returns
    only when the two coordinate arrays of the working frame have the same
    length and the list of parameters is not empty: with arrays of two
    lengths, or with no parameter, it raises, and the exception is one of
    NumPy or of Python, none that sk.py raises itself, as is every
    exception of the method.  (Whether the method returns on paired
    coordinates and a parameter is up to the variogram function, a
    function of the caller that may raise and that the model takes as a
    total function: nothing is stated for that case.) *)
Theorem kriging_matrix_needs_paired_coordinates :
  forall s : Session,
    let n := length (X_ADJUSTED s) in
    (forall a, get_kriging_matrix s n = Ok a ->
       length (X_ADJUSTED s) = length (Y_ADJUSTED s)
       /\ variogram_model_parameters s <> [])
    /\ (length (X_ADJUSTED s) <> length (Y_ADJUSTED s)
        \/ variogram_model_parameters s = [] ->
        exists msg, get_kriging_matrix s n = Err (LibraryError msg))
    /\ (forall e, get_kriging_matrix s n = Err e -> exists msg, e = LibraryError msg).
Proof.
  intros s n.
  assert (Hok : forall a, get_kriging_matrix s n = Ok a ->
                  length (X_ADJUSTED s) = length (Y_ADJUSTED s)
                  /\ variogram_model_parameters s <> []).
  { intros a Ha. destruct (kriging_matrix_entries s Ha) as (sill & Esill & Lxy & _).
    split; [symmetry; exact Lxy | ].
    intros E. rewrite E in Esill. discriminate Esill. }
  assert (Herr : forall e, get_kriging_matrix s n = Err e -> exists msg, e = LibraryError msg).
  { intros e. unfold get_kriging_matrix, column_stack.
    destruct (length (X_ADJUSTED s) =? length (Y_ADJUSTED s))%nat; simpl.
    2:{ intros H. injection H as <-. eexists. reflexivity. }
    destruct (variogram_model_parameters s) as [| sill rest]; simpl.
    { intros H. injection H as <-. eexists. reflexivity. }
    unfold assign_square.
    match goal with |- context [(length ?m =? n)%nat] => destruct (length m =? n)%nat end;
      [discriminate | ].
    match goal with |- context [match ?m with _ => _ end] =>
      destruct m as [| [| v [| w r]] [| r' t]] end;
      try discriminate; intros H; injection H as <-; eexists; reflexivity. }
  splits; try assumption.
  intros Hbad. destruct (get_kriging_matrix s n) as [a | e] eqn:E.
  - destruct (Hok a eq_refl) as [Lxy Hp]. destruct Hbad; contradiction.
  - destruct (Herr e eq_refl) as [msg ->]. exists msg. reflexivity.
Qed.

(** ** The exceptions of [execute] *)

Section OwnExceptions.

(** An exception that sk.py raises itself, not one of a library *)
Variable e : error.
Hypothesis own : forall msg, LibraryError msg <> e.

Lemma avoids_Ok {A : Type} (a : A) : avoids e (Ok a).
Proof. discriminate. Qed.

Lemma avoids_Err {A : Type} (e' : error) : e' <> e -> avoids e (@Err A e').
Proof. intros H E. injection E as E. contradiction. Qed.

Lemma avoids_bind {A B : Type} (r : result A) (k : A -> result B) :
  avoids e r -> (forall a, avoids e (k a)) -> avoids e (bind r k).
Proof.
  intros Hr Hk. destruct r as [a | e']; simpl.
  - apply Hk.
  - intros E. apply Hr. injection E as ->. reflexivity.
Qed.

Lemma avoids_require (c : bool) (e' : error) : e' <> e -> avoids e (require c e').
Proof.
  intros H. destruct c; simpl; [apply avoids_Ok | apply avoids_Err; exact H].
Qed.

Lemma avoids_call {A : Type} (o : outcome A) : avoids e (call o).
Proof.
  destruct o; simpl; [apply avoids_Ok | apply avoids_Err; apply own].
Qed.

Lemma avoids_mapM {A B : Type} (f : A -> result B) (l : list A) :
  (forall a, avoids e (f a)) -> avoids e (mapM f l).
Proof.
  intros Hf. induction l as [| a t IH]; simpl.
  - apply avoids_Ok.
  - apply avoids_bind; [apply Hf | intros b].
    apply avoids_bind; [exact IH | intros bs]. apply avoids_Ok.
Qed.

Lemma avoids_for_each {A : Type} (body : A -> nat -> result A) (js : list nat) :
  (forall acc j, avoids e (body acc j)) ->
  forall acc, avoids e (for_each body js acc).
Proof.
  intros Hb. induction js as [| j rest IH]; simpl; intros acc.
  - apply avoids_Ok.
  - apply avoids_bind; [apply Hb | exact IH].
Qed.

Lemma avoids_getitem {A : Type} (v : list A) (i : nat) : avoids e (getitem v i).
Proof.
  unfold getitem. destruct (nth_error v i); [apply avoids_Ok | apply avoids_Err; apply own].
Qed.

Lemma avoids_getitem0 (v : list R) : avoids e (getitem0 v).
Proof.
  destruct v; simpl; [apply avoids_Err; apply own | apply avoids_Ok].
Qed.

Lemma avoids_assign_row (n : nat) (src : list R) : avoids e (assign_row n src).
Proof.
  unfold assign_row. destruct (length src =? n)%nat; [apply avoids_Ok | ].
  destruct src as [| v [| w t]];
    [apply avoids_Err; apply own | apply avoids_Ok | apply avoids_Err; apply own].
Qed.

Lemma avoids_assign_square (n : nat) (src : matrix) : avoids e (assign_square n src).
Proof.
  unfold assign_square. destruct (length src =? n)%nat; [apply avoids_Ok | ].
  destruct src as [| [| v [| w r]] [| r' t]];
    first [apply avoids_Ok | apply avoids_Err; apply own].
Qed.

(** Splits a computation into its steps, each of which raises exceptions
    of the libraries only. *)
Ltac library_steps :=
  repeat first
    [ apply avoids_Ok
    | apply avoids_call
    | apply avoids_getitem
    | apply avoids_getitem0
    | apply avoids_assign_row
    | apply avoids_assign_square
    | apply avoids_require; apply own
    | apply avoids_Err; apply own
    | apply avoids_bind; [ | intros ? ]
    | apply avoids_mapM; intros ?
    | apply avoids_for_each; intros ? ?
    | match goal with |- avoids _ (match ?p with _ => _ end) => destruct p end ].

Lemma avoids_get_kriging_matrix (s : Session) (n : nat) :
  avoids e (get_kriging_matrix s n).
Proof. unfold get_kriging_matrix, column_stack. library_steps. Qed.

Lemma avoids_column_stack (x y : list R) : avoids e (column_stack x y).
Proof. unfold column_stack. library_steps. Qed.

Lemma avoids_exec_vector (ext : Externals) (s : Session) (a bd : matrix) (mask : list bool) :
  avoids e (exec_vector ext s a bd mask).
Proof. unfold exec_vector, cross_covariance, ma_mask. library_steps. Qed.

Lemma avoids_exec_loop (ext : Externals) (s : Session) (a bd : matrix) (mask : list bool) :
  avoids e (exec_loop ext s a bd mask).
Proof.
  unfold exec_loop. library_steps.
  unfold exec_loop_body, cross_covariance, np_dot_vec, np_mul. library_steps.
Qed.

Lemma avoids_exec_loop_moving_window (ext : Externals) (s : Session) (a bd : matrix)
    (mask : list bool) (bd_idx : list (list nat)) :
  avoids e (exec_loop_moving_window ext s a bd mask bd_idx).
Proof.
  unfold exec_loop_moving_window. library_steps.
  unfold moving_window_body, cross_covariance, select_rows_columns,
    scipy_linalg_solve, np_dot. library_steps.
Qed.

(** What follows the solver in [execute] *)
Lemma avoids_wrap_up (style : string) (ny nx : nat) (mask : list bool)
    (zvalues sigmasq : ndarray1) :
  avoids e
    (' (zvalues, sigmasq) <-
       (if (style =? "masked")%string
        then z <- ma_array zvalues mask ;; v <- ma_array sigmasq mask ;; Ok (z, v)
        else Ok (zvalues, sigmasq)) ;;
     if is_grid_or_masked style
     then z <- reshape ny nx zvalues ;; v <- reshape ny nx sigmasq ;; Ok (z, v)
     else Ok (Flat zvalues, Flat sigmasq)).
Proof.
  unfold ma_array, reshape.
  apply avoids_bind.
  - destruct (style =? "masked")%string; library_steps.
  - intros [z v]. destruct (is_grid_or_masked style); library_steps.
Qed.

End OwnExceptions.

Lemma avoids_solve (ext : Externals) (e : error) (s : Session) (a : matrix)
    (xy_points xy_data : list (R * R)) (mask : list bool) (backend : string)
    (k : option nat) :
  (forall msg, LibraryError msg <> e) ->
  e <> BackendNotSupported -> e <> MovingWindowBackendNotSupported ->
  avoids e (solve ext s a xy_points xy_data mask backend k).
Proof.
  intros own Hb Hw. unfold solve. destruct k as [k |].
  - apply avoids_bind; [apply avoids_call; exact own | intros [bd bd_idx]].
    destruct (backend =? "loop")%string;
      [apply avoids_exec_loop_moving_window; exact own | ].
    apply avoids_Err. intros E. apply Hw. symmetry. exact E.
  - destruct (backend =? "vectorized")%string; [apply avoids_exec_vector; exact own | ].
    destruct (backend =? "loop")%string; [apply avoids_exec_loop; exact own | ].
    apply avoids_Err. intros E. apply Hb. symmetry. exact E.
Qed.

(** The part of [execute] that follows the choice of the query points *)
Lemma avoids_after_query (ext : Externals) (e : error) (s : Session) (style : string)
    (ny nx : nat) (a : matrix) (backend : string) (k : option nat)
    (q : nat * list R * list R * list bool) :
  (forall msg, LibraryError msg <> e) ->
  e <> BackendNotSupported -> e <> MovingWindowBackendNotSupported ->
  avoids e
    (let '(npt, xpts, ypts, mask) := q in
     ' (xpts, ypts) <- call (adjust_for_anisotropy ext xpts ypts (XCENTER s) (YCENTER s)
                         (anisotropy_scaling s) (anisotropy_angle s)) ;;
     let mask := if negb (style =? "masked")%string then repeat false npt else mask in
     xy_points <- column_stack xpts ypts ;;
     xy_data <- column_stack (X_ADJUSTED s) (Y_ADJUSTED s) ;;
     ' (zvalues, sigmasq) <- solve ext s a xy_points xy_data mask backend k ;;
     ' (zvalues, sigmasq) <-
       (if (style =? "masked")%string
        then z <- ma_array zvalues mask ;; v <- ma_array sigmasq mask ;; Ok (z, v)
        else Ok (zvalues, sigmasq)) ;;
     if is_grid_or_masked style
     then z <- reshape ny nx zvalues ;; v <- reshape ny nx sigmasq ;; Ok (z, v)
     else Ok (Flat zvalues, Flat sigmasq)).
Proof.
  intros own Hb Hw. destruct q as [[[npt xpts] ypts] mask].
  apply avoids_bind; [apply avoids_call; exact own | intros [xpts' ypts']].
  apply avoids_bind; [apply avoids_column_stack; exact own | intros xy_points].
  apply avoids_bind; [apply avoids_column_stack; exact own | intros xy_data].
  apply avoids_bind; [apply avoids_solve; assumption | intros [zvalues sigmasq]].
  apply avoids_wrap_up. exact own.
Qed.

(** The same for one exception that is named: the steps raise others. *)
Ltac own_steps :=
  repeat first
    [ apply avoids_Ok
    | apply avoids_Err; discriminate
    | apply avoids_require; discriminate
    | apply avoids_call; discriminate
    | apply avoids_bind; [ | intros ? ]
    | match goal with |- avoids _ (match ?p with _ => _ end) => destruct p end ].

(** Closes [r = Err e -> False] for a computation [r] whose steps raise
    other exceptions than [e]. *)
Ltac raised_by_a_library :=
  match goal with
  | |- ?r = Err ?e -> False => change (avoids e r); own_steps
  end.

Lemma kind_accepted_iff (s : Session) :
  ((variogram_model s =? "linear") || (variogram_model s =? "power"))%string = false
  <-> kind_accepted s.
Proof.
  unfold kind_accepted. rewrite orb_false_iff, !String.eqb_neq. reflexivity.
Qed.

Lemma style_accepted_iff (style : string) :
  (negb (style =? "grid") && negb (style =? "masked") && negb (style =? "points"))%string
  = false
  <-> style_accepted style.
Proof.
  unfold style_accepted.
  destruct (style =? "grid")%string eqn:Eg; [apply String.eqb_eq in Eg; simpl; tauto | ].
  destruct (style =? "masked")%string eqn:Em; [apply String.eqb_eq in Em; simpl; tauto | ].
  destruct (style =? "points")%string eqn:Ep; [apply String.eqb_eq in Ep; simpl; tauto | ].
  apply String.eqb_neq in Eg, Em, Ep. simpl. split; [discriminate | ].
  intros [H | [H | H]]; contradiction.
Qed.

(** X3.  [execute] raises the exception of the style check exactly when
    the kind of the session passes the first check and the style is none
    of 'grid', 'masked' and 'points': the check comes second, before the
    kriging matrix is built and before the query points, the mask and the
    backend are looked at. *)
Theorem execute_rejects_unknown_style :
  forall (ext : Externals) (s : Session) (style : string) (xpoints ypoints : list R)
         (mask : option mask2d) (backend : string) (n_closest_points : option nat),
    execute ext s style xpoints ypoints mask backend n_closest_points
      = Err StyleNotSupported
    <-> kind_accepted s /\ ~ style_accepted style.
Proof.
  intros ext s style xs ys mask backend k. unfold execute.
  destruct ((variogram_model s =? "linear") || (variogram_model s =? "power"))%string
    eqn:Ekind.
  { simpl. split; [discriminate | ].
    intros [Hk _]. apply kind_accepted_iff in Hk. rewrite Hk in Ekind. discriminate. }
  apply kind_accepted_iff in Ekind. simpl.
  destruct (negb (style =? "grid") && negb (style =? "masked")
            && negb (style =? "points"))%string eqn:Estyle.
  { simpl. split; [ | reflexivity]. intros _. split; [exact Ekind | ].
    intros Hs. apply style_accepted_iff in Hs. rewrite Hs in Estyle. discriminate. }
  simpl. split.
  2:{ intros [_ Hs]. exfalso. apply Hs. apply style_accepted_iff. exact Estyle. }
  intros H. exfalso. revert H.
  assert (own : forall msg, LibraryError msg <> StyleNotSupported) by discriminate.
  apply avoids_bind; [apply avoids_get_kriging_matrix; exact own | intros a].
  apply avoids_bind.
  - unfold query_points, is_grid_or_masked, check_mask, meshgrid_flat.
    destruct (style =? "grid")%string, (style =? "masked")%string,
      (style =? "points")%string; try discriminate Estyle; simpl; own_steps.
  - intros q. apply avoids_after_query; [exact own | discriminate | discriminate].
Qed.

(** X4.  [execute] raises the exception for coordinate arrays of
    different sizes exactly when the style is 'points', the two arrays
    have different lengths, and the kind check and the build of the
    kriging matrix, which come first, have passed.  For the styles 'grid'
    and 'masked' the two lengths are never compared. *)
Theorem execute_rejects_unpaired_points :
  forall (ext : Externals) (s : Session) (style : string) (xpoints ypoints : list R)
         (mask : option mask2d) (backend : string) (n_closest_points : option nat),
    execute ext s style xpoints ypoints mask backend n_closest_points
      = Err PointsDimensionMismatch
    <-> kind_accepted s /\ style = "points"
        /\ (exists a, get_kriging_matrix s (length (X_ADJUSTED s)) = Ok a)
        /\ length xpoints <> length ypoints.
Proof.
  intros ext s style xs ys mask backend k.
  assert (own : forall msg, LibraryError msg <> PointsDimensionMismatch) by discriminate.
  unfold execute.
  destruct ((variogram_model s =? "linear") || (variogram_model s =? "power"))%string
    eqn:Ekind.
  { simpl. split; [discriminate | ].
    intros [Hk _]. apply kind_accepted_iff in Hk. rewrite Hk in Ekind. discriminate. }
  apply kind_accepted_iff in Ekind. simpl.
  destruct (negb (style =? "grid") && negb (style =? "masked")
            && negb (style =? "points"))%string eqn:Estyle.
  { simpl. split; [discriminate | ]. intros (_ & -> & _). discriminate Estyle. }
  simpl.
  destruct (get_kriging_matrix s (length (X_ADJUSTED s))) as [a | e] eqn:Ea; simpl.
  2:{ split.
      - intros H. exfalso. injection H as ->.
        exact (avoids_get_kriging_matrix own s (length (X_ADJUSTED s)) Ea).
      - intros (_ & _ & [a Ha] & _). discriminate Ha. }
  unfold query_points, is_grid_or_masked.
  destruct (style =? "points")%string eqn:Ep.
  - apply String.eqb_eq in Ep. subst style. simpl.
    destruct (length xs =? length ys)%nat eqn:Elen; simpl.
    + split.
      * intros H. exfalso. revert H.
        apply (@avoids_after_query ext PointsDimensionMismatch s "points"
                 (length ys) (length xs) a backend k (length xs, xs, ys, []));
          [exact own | discriminate | discriminate].
      * intros (_ & _ & _ & Hne). apply Nat.eqb_eq in Elen. contradiction.
    + split; [ | reflexivity]. intros _. apply Nat.eqb_neq in Elen.
      splits; try assumption; try reflexivity. exists a. reflexivity.
  - split.
    2:{ intros (_ & -> & _). discriminate Ep. }
    intros H. exfalso. revert H.
    apply avoids_bind.
    + unfold check_mask, meshgrid_flat.
      destruct (style =? "grid")%string, (style =? "masked")%string;
        try discriminate Estyle; simpl; own_steps.
    + intros q. apply avoids_after_query; [exact own | discriminate | discriminate].
Qed.

(** [execute] raises the exceptions of its own checks at its checks, and
    nowhere else. *)
Lemma avoids_execute (ext : Externals) (e : error) (s : Session) (style : string)
    (xs ys : list R) (mask : option mask2d) (backend : string) (k : option nat) :
  (forall msg, LibraryError msg <> e) ->
  IllBehavedCorrelation <> e -> StyleNotSupported <> e ->
  MaskMissing <> e -> MaskDimensionMismatch <> e -> PointsDimensionMismatch <> e ->
  (forall a xy_points xy_data m, avoids e (solve ext s a xy_points xy_data m backend k)) ->
  avoids e (execute ext s style xs ys mask backend k).
Proof.
  intros own Hi Hs Hm Hd Hp Hsolve. unfold execute.
  apply avoids_bind; [apply avoids_require; exact Hi | intros u].
  apply avoids_bind; [apply avoids_require; exact Hs | intros u'].
  apply avoids_bind; [apply avoids_get_kriging_matrix; exact own | intros a].
  apply avoids_bind.
  { unfold query_points, check_mask, meshgrid_flat.
    repeat first
      [ apply avoids_Ok
      | apply avoids_Err; assumption
      | apply avoids_require; assumption
      | apply avoids_bind; [ | intros ? ]
      | match goal with |- avoids _ (match ?p with _ => _ end) => destruct p end ]. }
  intros [[[npt xq] yq] mflat].
  apply avoids_bind; [apply avoids_call; exact own | intros [xpts ypts]].
  apply avoids_bind; [apply avoids_column_stack; exact own | intros xy_points].
  apply avoids_bind; [apply avoids_column_stack; exact own | intros xy_data].
  apply avoids_bind; [apply Hsolve | intros [zvalues sigmasq]].
  apply avoids_wrap_up. exact own.
Qed.

(** Runs [execute] to the choice of the solver, from a call that returned. *)
Lemma execute_Ok_inv (ext : Externals) (s : Session) (style : string) (xs ys : list R)
    (mask : option mask2d) (backend : string) (k : option nat) (r : output * output) :
  execute ext s style xs ys mask backend k = Ok r ->
  exists a npt xq yq mflat xpts ypts xy_points xy_data sol,
    kind_accepted s /\ style_accepted style
    /\ get_kriging_matrix s (length (X_ADJUSTED s)) = Ok a
    /\ query_points style xs ys mask = Ok (npt, xq, yq, mflat)
    /\ adjust_for_anisotropy ext xq yq (XCENTER s) (YCENTER s)
         (anisotropy_scaling s) (anisotropy_angle s) = Returns (xpts, ypts)
    /\ column_stack xpts ypts = Ok xy_points
    /\ column_stack (X_ADJUSTED s) (Y_ADJUSTED s) = Ok xy_data
    /\ solve ext s a xy_points xy_data
         (if negb (style =? "masked")%string then repeat false npt else mflat)
         backend k = Ok sol
    /\ (let mask := if negb (style =? "masked")%string then repeat false npt else mflat in
        ' (zvalues, sigmasq) <-
          (if (style =? "masked")%string
           then z <- ma_array (fst sol) mask ;; v <- ma_array (snd sol) mask ;; Ok (z, v)
           else Ok (fst sol, snd sol)) ;;
        if is_grid_or_masked style
        then z <- reshape (length ys) (length xs) zvalues ;;
             v <- reshape (length ys) (length xs) sigmasq ;; Ok (z, v)
        else Ok (Flat zvalues, Flat sigmasq)) = Ok r.
Proof.
  unfold execute. intros H.
  step_as H u Ekind. apply require_Ok_inv, negb_true_iff, kind_accepted_iff in Ekind.
  step_as H u' Estyle. apply require_Ok_inv, negb_true_iff, style_accepted_iff in Estyle.
  step_as H a Ea. step_as H q Equery. destruct q as [[[npt xq] yq] mflat].
  step_as H adj Eadj. destruct adj as [xpts ypts].
  step_as H xy_points Exy. step_as H xy_data Edata. step_as H sol Esol.
  exists a, npt, xq, yq, mflat, xpts, ypts, xy_points, xy_data, sol.
  splits; try assumption.
  - destruct (adjust_for_anisotropy ext xq yq (XCENTER s) (YCENTER s)
                (anisotropy_scaling s) (anisotropy_angle s)) as [p | msg];
      simpl in Eadj; [injection Eadj as ->; reflexivity | discriminate].
  - destruct sol as [zvalues sigmasq]. exact H.
Qed.

(** X5.  The two exceptions of [execute] for the backend.  The one for
    an unsupported backend is raised only without a number of neighbours
    and with a backend that is neither 'vectorized' nor 'loop' (among them
    'C', which the docstring names), and it is then raised by every call
    that returns with the backend 'loop'.  The one for an unsupported
    backend of the moving window is raised only with a number of
    neighbours and a backend that is not 'loop': 'vectorized', the
    default, is refused with a moving window. *)
Theorem execute_backend_checks :
  forall (ext : Externals) (s : Session) (style : string) (xpoints ypoints : list R)
         (mask : option mask2d) (backend : string) (n_closest_points : option nat),
    (execute ext s style xpoints ypoints mask backend n_closest_points
       = Err BackendNotSupported ->
     n_closest_points = None /\ backend <> "vectorized" /\ backend <> "loop")
    /\ (execute ext s style xpoints ypoints mask backend n_closest_points
          = Err MovingWindowBackendNotSupported ->
        n_closest_points <> None /\ backend <> "loop")
    /\ (forall r, execute ext s style xpoints ypoints mask "loop" None = Ok r ->
          backend <> "vectorized" -> backend <> "loop" ->
          execute ext s style xpoints ypoints mask backend None = Err BackendNotSupported).
Proof.
  intros ext s style xs ys mask backend k. splits.
  - intros H. destruct k as [k |].
    { exfalso. revert H. apply avoids_execute; try discriminate.
      intros a xy_points xy_data m. unfold solve.
      apply avoids_bind; [apply avoids_call; discriminate | intros [bd bd_idx]].
      destruct (backend =? "loop")%string;
        [apply avoids_exec_loop_moving_window; discriminate | discriminate]. }
    destruct (backend =? "vectorized")%string eqn:Ev.
    { exfalso. revert H. apply avoids_execute; try discriminate.
      intros a xy_points xy_data m. unfold solve. rewrite Ev.
      apply avoids_exec_vector. discriminate. }
    destruct (backend =? "loop")%string eqn:El.
    { exfalso. revert H. apply avoids_execute; try discriminate.
      intros a xy_points xy_data m. unfold solve. rewrite Ev, El.
      apply avoids_exec_loop. discriminate. }
    apply String.eqb_neq in Ev, El. auto.
  - intros H. destruct k as [k |].
    2:{ exfalso. revert H. apply avoids_execute; try discriminate.
        intros a xy_points xy_data m. unfold solve.
        destruct (backend =? "vectorized")%string;
          [apply avoids_exec_vector; discriminate | ].
        destruct (backend =? "loop")%string;
          [apply avoids_exec_loop; discriminate | discriminate]. }
    split; [discriminate | ].
    destruct (backend =? "loop")%string eqn:El; [ | apply String.eqb_neq; exact El].
    exfalso. revert H. apply avoids_execute; try discriminate.
    intros a xy_points xy_data m. unfold solve. rewrite El.
    apply avoids_bind; [apply avoids_call; discriminate | intros [bd bd_idx]].
    apply avoids_exec_loop_moving_window. discriminate.
  - intros r H Hv Hl.
    destruct (execute_Ok_inv _ _ _ _ _ _ _ _ H)
      as (a & npt & xq & yq & mflat & xpts & ypts & xy_points & xy_data & sol
          & Hkind & Hstyle & Ea & Eq & Eadj & Exy & Edata & _ & _).
    unfold execute.
    apply kind_accepted_iff in Hkind. apply style_accepted_iff in Hstyle.
    rewrite Hkind, Hstyle. simpl. rewrite Ea. simpl. rewrite Eq. simpl.
    rewrite Eadj. simpl. rewrite Exy. simpl. rewrite Edata. simpl.
    unfold solve. apply String.eqb_neq in Hv, Hl. rewrite Hv, Hl. reflexivity.
Qed.

Lemma execute_backend_checks_witness :
  execute small_ext two_points "points" [0] [0] None "C" None = Err BackendNotSupported.
Proof.
  destruct (execute_backend_checks small_ext two_points "points" [0] [0] None "C" None)
    as (_ & _ & H).
  apply (H _ execute_at_first_point_loop); discriminate.
Defined.

(** ** The moving window, for every query *)

Lemma unmasked_nil_iff (mask : list bool) :
  unmasked mask = [] <-> (forall j, (j < length mask)%nat -> nth j mask true = true).
Proof.
  split.
  - intros E j Hj. destruct (nth j mask true) eqn:Ej; [reflexivity | ].
    assert (Hin : In j (unmasked mask)) by (apply unmasked_spec; auto).
    rewrite E in Hin. contradiction.
  - intros H. destruct (unmasked mask) as [| j rest] eqn:E; [reflexivity | ].
    assert (Hin : In j (unmasked mask)) by (rewrite E; left; reflexivity).
    apply unmasked_spec in Hin. destruct Hin as [Hj Ej].
    rewrite (H j Hj) in Ej. discriminate Ej.
Qed.

(** X6.  [_exec_loop_moving_window] returns exactly when every query
    point is masked, and what it returns then are the two arrays of zeros
    it starts from: at the first point that is not masked the linear system
    has one row more than its right-hand side has entries (the index of the
    last row of the full matrix is added to the neighbours), and
    [scipy.linalg.solve] raises. *)
Theorem moving_window_returns_only_zeros :
  forall (ext : Externals) (s : Session) (a_all bd_all : matrix) (mask : list bool)
         (bd_idx : list (list nat)),
    rectangular bd_idx ->
    ((exists r, exec_loop_moving_window ext s a_all bd_all mask bd_idx = Ok r)
     <-> (forall j, (j < length mask)%nat -> nth j mask true = true))
    /\ (forall r, exec_loop_moving_window ext s a_all bd_all mask bd_idx = Ok r ->
          r = (Plain (zeros (length bd_all)), Plain (zeros (length bd_all)))).
Proof.
  intros ext s a_all bd_all mask bd_idx Hrect.
  assert (Hzero : unmasked mask = [] ->
            exec_loop_moving_window ext s a_all bd_all mask bd_idx
            = Ok (Plain (zeros (length bd_all)), Plain (zeros (length bd_all)))).
  { intros E. unfold exec_loop_moving_window. rewrite E. reflexivity. }
  assert (Hnone : forall r, exec_loop_moving_window ext s a_all bd_all mask bd_idx = Ok r ->
            unmasked mask = []).
  { intros r Hr. destruct (unmasked mask) as [| j rest] eqn:E; [reflexivity | ].
    destruct (@moving_window_raises ext s a_all bd_all mask bd_idx Hrect) as [e He].
    - rewrite E. discriminate.
    - rewrite He in Hr. discriminate Hr. }
  split; [split | ].
  - intros [r Hr]. apply unmasked_nil_iff. exact (Hnone r Hr).
  - intros H. eexists. apply Hzero. apply unmasked_nil_iff. exact H.
  - intros r Hr. rewrite (Hzero (Hnone r Hr)) in Hr. injection Hr as <-. reflexivity.
Qed.

Lemma moving_window_returns_only_zeros_witness :
  (exists r, exec_loop_moving_window small_ext two_points [[1; 0]; [0; 1]] [[0; 1]] [true]
               [[0; 1]%nat] = Ok r)
  /\ ~ (exists r, exec_loop_moving_window small_ext two_points [[1; 0]; [0; 1]] [[0; 1]]
                    [false] [[0; 1]%nat] = Ok r).
Proof.
  assert (Hrect : rectangular [[0; 1]%nat]) by (repeat constructor).
  destruct (@moving_window_returns_only_zeros small_ext two_points [[1; 0]; [0; 1]]
              [[0; 1]] [true] [[0; 1]%nat] Hrect) as [[_ Hall] _].
  destruct (@moving_window_returns_only_zeros small_ext two_points [[1; 0]; [0; 1]]
              [[0; 1]] [false] [[0; 1]%nat] Hrect) as [[Hsome _] _].
  split.
  - apply Hall. intros [| j] Hj; [reflexivity | simpl in Hj; lia].
  - intros Hr. specialize (Hsome Hr 0%nat). simpl in Hsome.
    assert (E : false = true) by (apply Hsome; lia). discriminate E.
Defined.

Lemma unmasked_repeat_false (n : nat) : n <> 0%nat -> unmasked (repeat false n) <> [].
Proof.
  intros Hn E. assert (Hin : In 0%nat (unmasked (repeat false n))).
  { apply unmasked_in. destruct n; [contradiction | reflexivity]. }
  rewrite E in Hin. contradiction.
Qed.

(** X7.  With a number of neighbours, [execute] returns no result for a
    query with a point to solve, whatever the backend: for the style
    'points' with a point, for the style 'grid' with a row and a column,
    and for the style 'masked' with a cell that the mask does not flag
    (the index arrays of the k-d tree being two-dimensional, as NumPy
    arrays are). *)
Theorem execute_moving_window_never_returns :
  forall (ext : Externals) (s : Session) (style : string) (xpoints ypoints : list R)
         (mask : option mask2d) (backend : string) (k : nat),
    let ny := length ypoints in
    let nx := length xpoints in
    rectangular_indices ext ->
    (style = "points" -> xpoints <> []) ->
    (style = "grid" -> xpoints <> [] /\ ypoints <> []) ->
    (style = "masked" ->
       forall m, mask = Some m ->
         exists r c, (r < ny)%nat /\ (c < nx)%nat /\ caller_flag m ny nx r c = false) ->
    exists e, execute ext s style xpoints ypoints mask backend (Some k) = Err e.
Proof.
  intros ext s style xs ys mask backend k ny nx Hrect Hpoints Hgrid Hmasked.
  destruct (execute ext s style xs ys mask backend (Some k)) as [r | e] eqn:H;
    [exfalso | eexists; reflexivity].
  destruct (execute_Ok_inv _ _ _ _ _ _ _ _ H)
    as (a & npt & xq & yq & mflat & xpts & ypts & xy_points & xy_data & sol
        & _ & Hstyle & _ & Eq & _ & _ & _ & Esol & _).
  assert (Hsome : unmasked (if negb (style =? "masked")%string
                            then repeat false npt else mflat) <> []).
  { unfold query_points, is_grid_or_masked in Eq.
    destruct Hstyle as [-> | [-> | ->]]; simpl in Eq |- *.
    - unfold meshgrid_flat in Eq. injection Eq as <- _ _ _.
      destruct (Hgrid eq_refl) as [Hx Hy]. apply unmasked_repeat_false.
      destruct xs; [contradiction | ]. destruct ys; [contradiction | ]. simpl. lia.
    - step_as Eq m' Emask. unfold meshgrid_flat in Eq. injection Eq as _ _ _ <-.
      destruct (check_mask_flags _ _ _ Emask) as (m & -> & Hflags).
      destruct (Hmasked eq_refl m eq_refl) as (r0 & c0 & Hr & Hc & Hflag).
      intros E. fold ny nx in Hflags. rewrite <- (Hflags r0 c0 Hr Hc) in Hflag.
      apply unmasked_in in Hflag. rewrite E in Hflag. contradiction.
    - step_as Eq u Elen. injection Eq as <- _ _ _.
      apply unmasked_repeat_false. specialize (Hpoints eq_refl).
      destruct xs; [contradiction | simpl; lia]. }
  destruct (backend =? "loop")%string eqn:El.
  - apply String.eqb_eq in El. subst backend.
    destruct (@solve_moving_window_raises ext s a xy_points xy_data _ k Hsome) as [e He].
    + intros bd bd_idx Hq. exact (Hrect _ _ _ _ _ Hq).
    + rewrite He in Esol. discriminate Esol.
  - unfold solve in Esol. rewrite El in Esol.
    destruct (call (kdtree_query ext xy_data xy_points k)) as [[bd bd_idx] | e];
      discriminate Esol.
Qed.

Lemma window_ext_rectangular : rectangular_indices window_ext.
Proof.
  intros data points k bd bd_idx H. simpl in H. unfold first_neighbours in H.
  injection H as _ <-. unfold rectangular.
  apply Forall_forall. intros row Hrow. apply in_map_iff in Hrow.
  destruct Hrow as (p & <- & Hp). destruct points as [| q points]; [contradiction | ].
  reflexivity.
Qed.

Lemma execute_moving_window_never_returns_witness :
  exists e,
    execute window_ext two_points "points" [0] [0] None "loop" (Some 2%nat) = Err e.
Proof.
  apply (@execute_moving_window_never_returns window_ext two_points "points" [0] [0]
           None "loop" 2%nat window_ext_rectangular).
  - intros _. discriminate.
  - intros H. discriminate H.
  - intros H. discriminate H.
Defined.

(** ** The point loop where the vectorised solve returns *)

(** X8.  Where [_exec_vector] returns, [_exec_loop] returns too, on the
    same matrix and distances and on a mask that has a flag for each query
    point, as the masks of [execute] have: the vectorised solve solves the
    system of every query point, and the loop those of the points that are
    not masked. *)
Theorem exec_loop_returns_where_exec_vector_does :
  forall (ext : Externals) (s : Session) (a bd : matrix) (mask : list bool)
         (zv vv : ndarray1),
    length mask = length bd ->
    exec_vector ext s a bd mask = Ok (zv, vv) ->
    exists zl vl, exec_loop ext s a bd mask = Ok (zl, vl).
Proof.
  intros ext s a bd mask zv vv Hmask H.
  destruct (exec_vector_cells _ _ _ _ _ H) as (a_inv & Hinv & _ & _ & Hcells).
  unfold exec_loop. rewrite Hinv. simpl.
  destruct (@exec_loop_for_each_returns s a_inv bd (length (X_ADJUSTED s)) (unmasked mask))
    with (acc := (zeros (length bd), zeros (length bd))) as [[z' v'] Hloop].
  - intros j Hj.
    apply unmasked_spec in Hj. destruct Hj as [Hj _]. rewrite Hmask in Hj.
    destruct (Hcells j _ (nth_error_nth_in bd [] Hj)) as (z & v & Hsol & _).
    eexists _, _. split; [apply nth_error_nth_in; exact Hj | exact Hsol].
  - rewrite Hloop. simpl. eexists _, _. reflexivity.
Qed.

Lemma exec_loop_returns_where_exec_vector_does_witness :
  exists zl vl,
    exec_loop small_ext two_points [[1; 0]; [0; 1]] [[0; 1]; [1 / 2; 1 / 2]] [true; false]
    = Ok (zl, vl).
Proof.
  assert (Hv : exists r, exec_vector small_ext two_points [[1; 0]; [0; 1]]
                           [[0; 1]; [1 / 2; 1 / 2]] [true; false] = Ok r).
  { unfold exec_vector. change (linalg_inv small_ext) with inv_small.
    rewrite inv_small_identity. eexists. reflexivity. }
  destruct Hv as [[zv vv] Hv].
  exact (@exec_loop_returns_where_exec_vector_does small_ext two_points
           [[1; 0]; [0; 1]] [[0; 1]; [1 / 2; 1 / 2]] [true; false] zv vv eq_refl Hv).
Defined.

(** ** Query points that are data points, for every session *)

Lemma mat_mul_identity_2 : mat_mul [[1; 0]; [0; 1]] 2 [[1; 0]; [0; 1]] = identity 2.
Proof.
  unfold mat_mul, transpose, identity, unit_vector, dot, np_sum. simpl.
  repeat (f_equal; try ring).
Qed.

(** X9.  In real arithmetic, when [scipy.linalg.inv] returns an inverse
    of the kriging matrix, the vectorised solve and the point loop return,
    at a query point that is not masked and coincides with a data point of
    the working frame, the value of that data point as the estimate and
    the variogram at distance 0 as the variance. *)
Theorem solve_exact_at_data_points :
  forall (ext : Externals) (s : Session) (a a_inv : matrix) (xy_points : list (R * R))
         (mask : list bool) (backend : string) (i k : nat) (zv vv : ndarray1),
    let n := length (X_ADJUSTED s) in
    let xy_data := combine (X_ADJUSTED s) (Y_ADJUSTED s) in
    get_kriging_matrix s n = Ok a ->
    linalg_inv ext a = Returns a_inv ->
    length a_inv = n -> aligned a_inv n = true -> mat_mul a_inv n a = identity n ->
    length (Z s) = n -> (i < n)%nat ->
    nth_error xy_points k = Some (nth i xy_data (0, 0)) ->
    nth k mask true = false ->
    solve ext s a xy_points xy_data mask backend None = Ok (zv, vv) ->
    cell_at zv k = Some (nth i (Z s) 0)
    /\ cell_at vv k = Some (variogram_function s (variogram_model_parameters s) 0).
Proof.
  intros ext s a a_inv xy_points mask backend i k zv vv n xy_data
    Ha Hinv La Hal Hid Lz Hi Hk Hm H.
  assert (Hrow : nth_error (cdist xy_points xy_data) k
                 = Some (map (euclidean (nth i xy_data (0, 0))) xy_data)).
  { unfold cdist. rewrite nth_error_map, Hk. reflexivity. }
  destruct (@solvers_at_data_point ext s a a_inv (cdist xy_points xy_data) mask i k
              Ha Hinv La Hal Hid Lz Hi Hrow Hm) as [Hvec Hloop].
  unfold solve in H.
  destruct (backend =? "vectorized")%string; [exact (Hvec _ _ H) | ].
  destruct (backend =? "loop")%string; [exact (Hloop _ _ H) | discriminate H].
Qed.

Lemma solve_exact_at_data_points_witness :
  exists zv vv,
    solve small_ext two_points [[1; 0]; [0; 1]] [(1, 0)] [(0, 0); (1, 0)] [false]
      "loop" None = Ok (zv, vv)
    /\ cell_at zv 0 = Some 7
    /\ cell_at vv 0
       = Some (variogram_function two_points (variogram_model_parameters two_points) 0).
Proof.
  assert (Hl : exists r, solve small_ext two_points [[1; 0]; [0; 1]] [(1, 0)]
                           [(0, 0); (1, 0)] [false] "loop" None = Ok r).
  { unfold solve, exec_loop. change (linalg_inv small_ext) with inv_small.
    cbn -[inv_small cdist]. rewrite inv_small_identity. eexists. reflexivity. }
  destruct Hl as [[zv vv] Hl]. exists zv, vv. split; [exact Hl | ].
  apply (@solve_exact_at_data_points small_ext two_points [[1; 0]; [0; 1]]
           [[1; 0]; [0; 1]] [(1, 0)] [false] "loop" 1%nat 0%nat zv vv).
  - exact two_points_matrix.
  - exact inv_small_identity.
  - reflexivity.
  - reflexivity.
  - exact mat_mul_identity_2.
  - reflexivity.
  - simpl. lia.
  - reflexivity.
  - reflexivity.
  - exact Hl.
Defined.

(** ** The grid of the styles 'grid' and 'masked' *)

Lemma meshgrid_flat_length (xs ys : list R) :
  length (fst (meshgrid_flat xs ys)) = (length ys * length xs)%nat
  /\ length (snd (meshgrid_flat xs ys)) = (length ys * length xs)%nat.
Proof.
  unfold meshgrid_flat. simpl. induction ys as [| y ys [IHx IHy]]; simpl.
  - split; reflexivity.
  - rewrite !length_app, length_map, IHx, IHy. split; reflexivity.
Qed.

Lemma meshgrid_flat_entries (xs ys : list R) (r c : nat) :
  (r < length ys)%nat -> (c < length xs)%nat ->
  nth (r * length xs + c) (fst (meshgrid_flat xs ys)) 0 = nth c xs 0
  /\ nth (r * length xs + c) (snd (meshgrid_flat xs ys)) 0 = nth r ys 0.
Proof.
  unfold meshgrid_flat. simpl. revert r.
  induction ys as [| y ys IH]; intros r Hr Hc; simpl in *; [lia | ].
  destruct r as [| r]; simpl.
  - rewrite !app_nth1 by (try rewrite length_map; exact Hc). split; [reflexivity | ].
    exact (@nth_map_in _ _ (fun _ => y) xs c 0 0 Hc).
  - rewrite !app_nth2 by (try rewrite length_map; lia).
    rewrite length_map.
    replace (length xs + r * length xs + c - length xs)%nat
      with (r * length xs + c)%nat by lia.
    apply IH; [lia | exact Hc].
Qed.

(** X10.  The style 'grid' is the style 'points' on the mesh of the two
    coordinate arrays, reshaped: the query point of the cell in row r and
    column c is (xpoints[c], ypoints[r]), at the position r * nx + c of the
    flattened mesh, and a call with the style 'grid' returns two grids
    exactly when the call with the style 'points' on the flattened mesh
    returns their cells as two flat arrays of ny * nx entries.  The mask
    argument has no part in either call. *)
Theorem execute_grid_is_points_on_the_mesh :
  forall (ext : Externals) (s : Session) (xpoints ypoints : list R)
         (mask mask' : option mask2d) (backend : string) (n_closest_points : option nat),
    let ny := length ypoints in
    let nx := length xpoints in
    let grid_x := fst (meshgrid_flat xpoints ypoints) in
    let grid_y := snd (meshgrid_flat xpoints ypoints) in
    (forall r c, (r < ny)%nat -> (c < nx)%nat ->
       nth (r * nx + c) grid_x 0 = nth c xpoints 0
       /\ nth (r * nx + c) grid_y 0 = nth r ypoints 0)
    /\ (forall z v,
          execute ext s "grid" xpoints ypoints mask backend n_closest_points
            = Ok (Grid ny nx z, Grid ny nx v)
          <-> execute ext s "points" grid_x grid_y mask' backend n_closest_points
                = Ok (Flat z, Flat v)
              /\ size z = (ny * nx)%nat /\ size v = (ny * nx)%nat).
Proof.
  intros ext s xs ys mask mask' backend k ny nx grid_x grid_y. split.
  { intros r c Hr Hc. apply meshgrid_flat_entries; assumption. }
  intros z v.
  destruct (meshgrid_flat_length xs ys) as [Lx Ly]. fold grid_x grid_y ny nx in Lx, Ly.
  unfold execute.
  destruct (require _ IllBehavedCorrelation) as [u | e]; simpl;
    [ | split; [discriminate | intros [H _]; discriminate H]].
  destruct (get_kriging_matrix s (length (X_ADJUSTED s))) as [a | e]; simpl;
    [ | split; [discriminate | intros [H _]; discriminate H]].
  unfold query_points, is_grid_or_masked. simpl.
  rewrite Lx, Ly, Nat.eqb_refl. simpl.
  fold ny nx.
  change (flat_map (fun _ : R => xs) ys) with grid_x.
  change (flat_map (fun y : R => map (fun _ : R => y) xs) ys) with grid_y.
  destruct (call (adjust_for_anisotropy ext grid_x grid_y (XCENTER s) (YCENTER s)
               (anisotropy_scaling s) (anisotropy_angle s))) as [[xpts ypts] | e]; simpl;
    [ | split; [discriminate | intros [H _]; discriminate H]].
  destruct (column_stack xpts ypts) as [xy_points | e]; simpl;
    [ | split; [discriminate | intros [H _]; discriminate H]].
  destruct (column_stack (X_ADJUSTED s) (Y_ADJUSTED s)) as [xy_data | e]; simpl;
    [ | split; [discriminate | intros [H _]; discriminate H]].
  destruct (solve ext s a xy_points xy_data (repeat false (ny * nx)) backend k)
    as [[zvalues sigmasq] | e]; simpl;
    [ | split; [discriminate | intros [H _]; discriminate H]].
  unfold reshape. split.
  - intros H. step_as H z' Ez. step_as Ez u1 Sz. injection Ez as <-.
    step_as H v' Ev. step_as Ev u2 Sv. injection Ev as <-.
    injection H as <- <-. apply require_Ok_inv, Nat.eqb_eq in Sz, Sv. auto.
  - intros (H & Sz & Sv). injection H as <- <-.
    apply Nat.eqb_eq in Sz, Sv. rewrite Sz, Sv. reflexivity.
Qed.

(** Without the moving window, the cell of a point that is not masked does
    not depend on the rest of the mask. *)
Lemma solve_cells_whatever_the_mask (ext : Externals) (s : Session) (a : matrix)
    (xy_points xy_data : list (R * R)) (m1 m2 : list bool) (backend : string)
    (z1 v1 z2 v2 : ndarray1) (j : nat) :
  has_data s ->
  solve ext s a xy_points xy_data m1 backend None = Ok (z1, v1) ->
  solve ext s a xy_points xy_data m2 backend None = Ok (z2, v2) ->
  (j < size z1)%nat -> nth j m1 true = false -> nth j m2 true = false ->
  cell_at z1 j = cell_at z2 j /\ cell_at v1 j = cell_at v2 j /\ valid_at z1 j /\ valid_at v1 j.
Proof.
  intros Hdata H1 H2 Hj Hm1 Hm2. unfold valid_at. unfold solve in H1, H2.
  set (bd := cdist xy_points xy_data) in *.
  destruct (backend =? "vectorized")%string.
  - apply exec_vector_cells in H1, H2.
    destruct H1 as (a_inv & Hinv & S1 & _ & C1).
    destruct H2 as (a_inv' & Hinv' & _ & _ & C2).
    rewrite Hinv in Hinv'. injection Hinv' as <-.
    rewrite S1 in Hj. pose proof (nth_error_nth_in bd [] Hj) as Hrow.
    destruct (C1 j _ Hrow) as (z & v & Hsol & _ & _ & Hval1).
    destruct (C2 j _ Hrow) as (z' & v' & Hsol' & _ & _ & Hval2).
    rewrite Hsol in Hsol'. injection Hsol' as <- <-.
    destruct (Hval1 Hdata Hm1) as [-> ->]. destruct (Hval2 Hdata Hm2) as [-> ->].
    splits; try reflexivity; discriminate.
  - destruct (backend =? "loop")%string; [ | discriminate H1].
    apply exec_loop_cells in H1, H2.
    destruct H1 as (a_inv & Hinv & _ & _ & _ & C1).
    destruct H2 as (a_inv' & Hinv' & _ & _ & _ & C2).
    rewrite Hinv in Hinv'. injection Hinv' as <-.
    destruct (C1 j (unmasked_in m1 j Hm1)) as (bd1 & z & v & Hrow & Hsol & -> & ->).
    destruct (C2 j (unmasked_in m2 j Hm2)) as (bd2 & z' & v' & Hrow' & Hsol' & -> & ->).
    rewrite Hrow in Hrow'. injection Hrow' as <-.
    rewrite Hsol in Hsol'. injection Hsol' as <- <-.
    splits; try reflexivity; discriminate.
Qed.

(** X11.  For a session with data and without the moving window, a call
    with the style 'masked' returns, in every cell that the mask does not
    flag, the estimate and the variance that the call with the style
    'grid' returns there for the same coordinates and backend, and both
    are values. *)
Theorem execute_masked_agrees_with_grid :
  forall (ext : Externals) (s : Session) (xpoints ypoints : list R)
         (mask : option mask2d) (m : mask2d) (backend : string)
         (zg vg zm vm : output),
    let ny := length ypoints in
    let nx := length xpoints in
    has_data s ->
    execute ext s "grid" xpoints ypoints mask backend None = Ok (zg, vg) ->
    execute ext s "masked" xpoints ypoints (Some m) backend None = Ok (zm, vm) ->
    forall r c, (r < ny)%nat -> (c < nx)%nat -> caller_flag m ny nx r c = false ->
      output_cell zm r c = output_cell zg r c
      /\ output_cell vm r c = output_cell vg r c
      /\ output_cell zm r c <> None /\ output_cell vm r c <> None.
Proof.
  intros ext s xs ys mask m backend zg vg zm vm ny nx Hdata Hg Hm r c Hr Hc Hflag.
  destruct (execute_Ok_inv _ _ _ _ _ _ _ _ Hg)
    as (a & npt & xq & yq & mflat & xpts & ypts & xy_points & xy_data & [zg0 vg0]
        & _ & _ & Ea & Eq & Eadj & Exy & Edata & Esol & Ewrap).
  destruct (execute_Ok_inv _ _ _ _ _ _ _ _ Hm)
    as (a' & npt' & xq' & yq' & mflat' & xpts' & ypts' & xy_points' & xy_data' & [zm0 vm0]
        & _ & _ & Ea' & Eq' & Eadj' & Exy' & Edata' & Esol' & Ewrap').
  rewrite Ea in Ea'. injection Ea' as <-.
  rewrite Edata in Edata'. injection Edata' as <-.
  rewrite query_points_masked in Eq'. step_as Eq' mf Emask. injection Eq' as <- <- <- <-.
  unfold query_points, is_grid_or_masked, meshgrid_flat in Eq. simpl in Eq.
  injection Eq as <- <- <- <-.
  unfold meshgrid_flat in Eadj'. simpl in Eadj'.
  rewrite Eadj in Eadj'. injection Eadj' as <- <-.
  rewrite Exy in Exy'. injection Exy' as <-.
  simpl in Esol, Esol', Ewrap, Ewrap'. fold ny nx in Esol, Esol', Ewrap, Ewrap'.
  unfold reshape in Ewrap.
  step_as Ewrap z' Ez. step_as Ez u1 Sz. injection Ez as <-.
  step_as Ewrap v' Ev. step_as Ev u2 Sv. injection Ev as <-.
  injection Ewrap as <- <-. apply require_Ok_inv, Nat.eqb_eq in Sz, Sv.
  step_as Ewrap' wrapped Ema. destruct wrapped as [zw vw]. unfold ma_array in Ema.
  step_as Ema zw' Ezw. step_as Ezw u3 Mz. injection Ezw as <-.
  step_as Ema vw' Evw. step_as Evw u4 Mv. injection Evw as <-.
  injection Ema as <- <-. apply require_Ok_inv, Nat.eqb_eq in Mz, Mv.
  unfold reshape in Ewrap'.
  step_as Ewrap' z'' Ez'. step_as Ez' u5 Sz'. injection Ez' as <-.
  step_as Ewrap' v'' Ev'. step_as Ev' u6 Sv'. injection Ev' as <-.
  injection Ewrap' as <- <-.
  destruct (check_mask_flags _ _ _ Emask) as (m0 & Em0 & Hflags).
  injection Em0 as <-. fold ny nx in Hflags.
  set (i := (r * nx + c)%nat).
  assert (Hi : (i < ny * nx)%nat) by (unfold i; nia).
  assert (Hfree : nth i mf true = false) by (unfold i; rewrite Hflags; assumption).
  assert (Hi0 : nth i (repeat false (ny * nx)) true = false) by apply nth_repeat_lt, Hi.
  destruct (@solve_cells_whatever_the_mask ext s a xy_points xy_data
              (repeat false (ny * nx)) mf backend zg0 vg0 zm0 vm0 i Hdata Esol Esol')
    as (Hz & Hv & Vz & Vv); try assumption.
  { rewrite Sz. exact Hi. }
  assert (Lm : length mf = (ny * nx)%nat).
  { unfold size in Sz'. simpl in Sz'. rewrite apply_mask_length in Sz' by exact Mz.
    apply require_Ok_inv, Nat.eqb_eq in Sz'. exact Sz'. }
  simpl. fold i. unfold cell_at at 1 3 5 6. simpl.
  rewrite !cell_at_masked by (try assumption; rewrite Lm; exact Hi).
  rewrite Hfree. simpl. fold (cell_at zm0 i) (cell_at vm0 i).
  rewrite <- Hz, <- Hv. splits; try reflexivity; assumption.
Qed.

Lemma execute_masked_agrees_with_grid_witness :
  let m := {| shape0 := 2; shape1 := 1; flat := [false; true] |} in
  exists zg vg zm vm,
    execute small_ext two_points "grid" [0; 1 / 2] [0] None "vectorized" None = Ok (zg, vg)
    /\ execute small_ext two_points "masked" [0; 1 / 2] [0] (Some m) "vectorized" None
       = Ok (zm, vm)
    /\ output_cell zm 0 0 = output_cell zg 0 0
    /\ output_cell vm 0 0 = output_cell vg 0 0.
Proof.
  intros m.
  assert (Hg : exists r, execute small_ext two_points "grid" [0; 1 / 2] [0] None
                           "vectorized" None = Ok r).
  { run_two_points. eexists. reflexivity. }
  destruct Hg as [[zg vg] Hg].
  destruct execute_two_points_returns as (_ & _ & [[zm vm] Hm]).
  exists zg, vg, zm, vm.
  destruct (@execute_masked_agrees_with_grid small_ext two_points [0; 1 / 2] [0] None m
              "vectorized" zg vg zm vm two_points_has_data Hg Hm 0%nat 0%nat)
    as (Hz & Hv & _); [simpl; lia | simpl; lia | reflexivity | ].
  auto.
Defined.

(** ** [update_variogram_model], step by step *)

Lemma keeps_ret {A B : Type} (part : Session -> B) (a : A) : keeps part (ret a).
Proof. intros s. reflexivity. Qed.

Lemma keeps_lift {A B : Type} (part : Session -> B) (r : result A) : keeps part (lift r).
Proof. intros s. reflexivity. Qed.

Lemma keeps_self {B : Type} (part : Session -> B) : keeps part self.
Proof. intros s. reflexivity. Qed.

Lemma keeps_assign {B : Type} (part : Session -> B) (f : Session -> Session) :
  (forall s, part (f s) = part s) -> keeps part (assign f).
Proof. intros H s. simpl. apply H. Qed.

Lemma keeps_bindM {A B C : Type} (part : Session -> C) (m : method A) (k : A -> method B) :
  keeps part m -> (forall a, keeps part (k a)) -> keeps part (bindM m k).
Proof.
  intros Hm Hk s. unfold bindM. specialize (Hm s).
  destruct (m s) as [s' [a | e]]; simpl in *.
  - rewrite Hk. exact Hm.
  - exact Hm.
Qed.

Ltac keep_steps :=
  repeat first
    [ apply keeps_ret
    | apply keeps_lift
    | apply keeps_self
    | apply keeps_bindM; [ | intros ? ]
    | apply keeps_assign; intros ?;
      try match goal with
          | |- context [set_fit ?p] => destruct p as [[[? ?] ?] ?]
          | |- context [set_statistics ?p] => destruct p as [[? ?] ?]
          end; reflexivity
    | match goal with |- keeps _ (if ?c then _ else _) => destruct c end
    | match goal with |- keeps _ (let '(_, _) := ?p in _) => destruct p end ].

(** X12.  No call of [update_variogram_model], whether it returns or
    raises, changes the data arrays, the centre of the transform or the
    two flags of the session. *)
Theorem update_variogram_model_keeps_the_data :
  forall (ext : Externals) (s : Session) (model : string)
         (variogram_parameters : option (list R)) (given : option variogram)
         (nlags weight : option nat) (anisotropy_scaling_ anisotropy_angle_ : option R),
    let s' := fst (update_variogram_model ext model variogram_parameters given
                     nlags weight anisotropy_scaling_ anisotropy_angle_ s) in
    X_ORIG s' = X_ORIG s /\ Y_ORIG s' = Y_ORIG s /\ Z s' = Z s
    /\ XCENTER s' = XCENTER s /\ YCENTER s' = YCENTER s
    /\ verbose s' = verbose s /\ enable_plotting s' = enable_plotting s.
Proof.
  intros ext s model params given nlags weight sc an s'.
  assert (H : keeps given_data
                (update_variogram_model ext model params given nlags weight sc an)).
  { unfold update_variogram_model, update_anisotropy. keep_steps. }
  specialize (H s). fold s' in H. unfold given_data in H.
  injection H as Hx Hy Hz Hxc Hyc Hv Hp. auto 10.
Qed.

(** The choice of the variogram function, case by case *)
Lemma select_variogram_function_cases (ext : Externals) (model : string)
    (given : option variogram) :
  (select_variogram_function ext model given = Err VariogramModelNotSupported
   <-> variogram_dict ext model = None /\ model <> "custom")
  /\ (select_variogram_function ext model given = Err CustomFunctionMissing
      <-> model = "custom" /\ given = None)
  /\ (forall f, select_variogram_function ext model given = Ok f
      <-> (model = "custom" /\ given = Some f)
          \/ (model <> "custom" /\ variogram_dict ext model = Some f))
  /\ (forall msg, select_variogram_function ext model given <> Err (LibraryError msg)).
Proof.
  unfold select_variogram_function.
  destruct (model =? "custom")%string eqn:Ec.
  - apply String.eqb_eq in Ec. subst model.
    change (variogram_dict ext "custom") with (@None variogram). simpl.
    destruct given as [g |]; splits; try intros ?; intuition congruence.
  - apply String.eqb_neq in Ec.
    destruct (variogram_dict ext model) as [f |] eqn:Ed; simpl;
      splits; try intros ?; intuition congruence.
Qed.

Lemma update_anisotropy_result (ext : Externals) (sc an : R) (s : Session) :
  snd (update_anisotropy ext sc an s) = Ok tt
  \/ exists msg, snd (update_anisotropy ext sc an s) = Err (LibraryError msg).
Proof.
  destruct (Req_dec_T sc (anisotropy_scaling s)) as [Hs | Hs].
  - destruct (Req_dec_T an (anisotropy_angle s)) as [Ha | Ha].
    + rewrite update_anisotropy_same by assumption. left. reflexivity.
    + rewrite update_anisotropy_differs by (right; exact Ha).
      destruct (adjust_for_anisotropy ext _ _ _ _ _ _) as [[xa ya] | msg]; simpl;
        [left; reflexivity | right; eexists; reflexivity].
  - rewrite update_anisotropy_differs by (left; exact Hs).
    destruct (adjust_for_anisotropy ext _ _ _ _ _ _) as [[xa ya] | msg]; simpl;
      [left; reflexivity | right; eexists; reflexivity].
Qed.

Lemma update_anisotropy_keeps_the_fit (ext : Externals) (sc an : R) :
  keeps (fun s => (variogram_function s, variogram_model_parameters s))
        (update_anisotropy ext sc an).
Proof. unfold update_anisotropy. keep_steps. Qed.

(** X13.  [update_variogram_model] raises the exception for an
    unsupported kind exactly when the anisotropy step has passed and the
    name is neither a key of [variogram_dict] nor 'custom', and the one for
    a missing function exactly when the step has passed, the name is
    'custom' and no function is given.  In both cases the name is already
    assigned when the exception is raised: the session is left with the
    new name, which passes the kind check of [execute], and with the
    variogram function and the parameters it had. *)
Theorem update_variogram_model_failed_kind_check :
  forall (ext : Externals) (s : Session) (model : string)
         (variogram_parameters : option (list R)) (given : option variogram)
         (nlags weight : option nat) (anisotropy_scaling_ anisotropy_angle_ : option R),
    let out := update_variogram_model ext model variogram_parameters given
                 nlags weight anisotropy_scaling_ anisotropy_angle_ s in
    let first := update_anisotropy ext (kwarg anisotropy_scaling_ 1)
                   (kwarg anisotropy_angle_ 0) s in
    (snd out = Err VariogramModelNotSupported
     <-> snd first = Ok tt /\ variogram_dict ext model = None /\ model <> "custom")
    /\ (snd out = Err CustomFunctionMissing
        <-> snd first = Ok tt /\ model = "custom" /\ given = None)
    /\ (snd out = Err VariogramModelNotSupported \/ snd out = Err CustomFunctionMissing ->
        variogram_model (fst out) = model
        /\ kind_accepted (fst out)
        /\ variogram_function (fst out) = variogram_function s
        /\ variogram_model_parameters (fst out) = variogram_model_parameters s).
Proof.
  intros ext s model params given nlags weight sc an out first.
  destruct (select_variogram_function_cases ext model given)
    as (Hkind & Hcustom & _ & Hlib).
  pose proof (update_anisotropy_keeps_the_fit ext (kwarg sc 1) (kwarg an 0) s) as Hfit.
  pose proof (update_anisotropy_result ext (kwarg sc 1) (kwarg an 0) s) as Hfirst.
  fold first in Hfit, Hfirst. simpl in Hfit.
  pose proof (eq_refl out) as Eout. unfold out at 2 in Eout.
  unfold update_variogram_model in Eout. unfold bindM at 1 in Eout. fold first in Eout.
  clearbody out. destruct first as [s1 [[] | e]]; simpl in Hfit, Hfirst.
  2:{ destruct Hfirst as [Hf | [msg Hf]]; [discriminate Hf | ].
      injection Hf as ->. subst out. simpl.
      splits; try (split; [discriminate | intros [H _]; discriminate H]).
      intros [H | H]; discriminate H. }
  injection Hfit as Hfun Hpar.
  unfold bindM, assign, lift, self in Eout.
  cbn -[set_fit set_statistics set_Q1 set_Q2 set_cR set_variogram_function
        set_variogram_model] in Eout.
  destruct (select_variogram_function ext model given) as [f | e].
  - assert (Hout : snd out = Ok tt \/ exists msg, snd out = Err (LibraryError msg)).
    { repeat match type of Eout with
             | context [call ?o] =>
                 destruct o as [? | ?];
                 cbn -[set_fit set_statistics set_Q1 set_Q2 set_cR set_variogram_function
                       set_variogram_model] in Eout
             end; subst out; simpl; [left; reflexivity | right; eexists; reflexivity ..]. }
    clear Eout. splits.
    + split.
      * intros H. destruct Hout as [Ho | [msg Ho]]; rewrite Ho in H; discriminate H.
      * intros (_ & Hd & Hc). assert (Hs := proj2 Hkind (conj Hd Hc)). discriminate Hs.
    + split.
      * intros H. destruct Hout as [Ho | [msg Ho]]; rewrite Ho in H; discriminate H.
      * intros (_ & Hc & Hg). assert (Hs := proj2 Hcustom (conj Hc Hg)). discriminate Hs.
    + intros [H | H]; destruct Hout as [Ho | [msg Ho]]; rewrite Ho in H; discriminate H.
  - subst out. simpl. splits.
    + split.
      * intros H. injection H as ->. split; [reflexivity | apply Hkind; reflexivity].
      * intros (_ & H). apply Hkind in H. injection H as ->. reflexivity.
    + split.
      * intros H. injection H as ->. split; [reflexivity | apply Hcustom; reflexivity].
      * intros (_ & H). apply Hcustom in H. injection H as ->. reflexivity.
    + intros H.
      assert (Hmodel : model <> "linear" /\ model <> "power").
      { destruct H as [H | H]; injection H as ->.
        - destruct (proj1 Hkind eq_refl) as [Hd _].
          split; intros ->; discriminate Hd.
        - destruct (proj1 Hcustom eq_refl) as [-> _]. split; discriminate. }
      splits; try assumption; try reflexivity; apply Hmodel.
Qed.

(** A session of the kind 'linear', which [execute] refuses, and a call
    with a name that is no kind: the call raises, and the session is left
    with a name that [execute] accepts and with the function it had. *)
Lemma update_variogram_model_failed_kind_check_witness :
  let s := set_variogram_model "linear" two_points in
  let out := update_variogram_model small_ext "bogus" None None None None None None s in
  ~ kind_accepted s
  /\ snd out = Err VariogramModelNotSupported
  /\ kind_accepted (fst out)
  /\ variogram_function (fst out) = variogram_function s.
Proof.
  intros s out.
  destruct (update_variogram_model_failed_kind_check small_ext s "bogus"
              None None None None None None) as (Hk & _ & Hleft).
  fold out in Hk, Hleft.
  assert (Hout : snd out = Err VariogramModelNotSupported).
  { apply Hk. split.
    - simpl kwarg. rewrite update_anisotropy_same by reflexivity. reflexivity.
    - split; [reflexivity | discriminate]. }
  destruct (Hleft (or_introl Hout)) as (_ & Hacc & Hfun & _).
  splits; try assumption.
  intros [Hl _]. apply Hl. reflexivity.
Defined.

(** X14.  After a call of [update_variogram_model] the session holds the
    scaling and the angle of the call (1 and 0 for an argument that is
    left out), whether the call returns or raises.  When both are the
    values the session had, the working frame is left as it was and the
    transform is not called; when one differs, the frame is what the
    transform returns for the original coordinates, the centre and the new
    values, and if the transform raises, the call raises with it and
    leaves the new values beside the old frame. *)
Theorem update_variogram_model_anisotropy_arguments :
  forall (ext : Externals) (s : Session) (model : string)
         (variogram_parameters : option (list R)) (given : option variogram)
         (nlags weight : option nat) (anisotropy_scaling_ anisotropy_angle_ : option R),
    let out := update_variogram_model ext model variogram_parameters given
                 nlags weight anisotropy_scaling_ anisotropy_angle_ s in
    let s' := fst out in
    let sc := kwarg anisotropy_scaling_ 1 in
    let an := kwarg anisotropy_angle_ 0 in
    let adjusted :=
      adjust_for_anisotropy ext (X_ORIG s) (Y_ORIG s) (XCENTER s) (YCENTER s) sc an in
    anisotropy_scaling s' = sc /\ anisotropy_angle s' = an
    /\ (sc = anisotropy_scaling s -> an = anisotropy_angle s ->
        X_ADJUSTED s' = X_ADJUSTED s /\ Y_ADJUSTED s' = Y_ADJUSTED s)
    /\ (sc <> anisotropy_scaling s \/ an <> anisotropy_angle s ->
        (forall xa ya, adjusted = Returns (xa, ya) ->
           X_ADJUSTED s' = xa /\ Y_ADJUSTED s' = ya)
        /\ (forall msg, adjusted = Raises msg ->
              snd out = Err (LibraryError msg)
              /\ X_ADJUSTED s' = X_ADJUSTED s /\ Y_ADJUSTED s' = Y_ADJUSTED s)).
Proof.
  intros ext s model params given nlags weight sc0 an0 out s' sc an adjusted.
  destruct (update_variogram_model_split ext model params given nlags weight sc0 an0)
    as [rest [Hrest Heq]].
  unfold s', out. rewrite Heq. fold sc an.
  assert (Hsame : (sc = anisotropy_scaling s /\ an = anisotropy_angle s)
                  \/ (sc <> anisotropy_scaling s \/ an <> anisotropy_angle s)).
  { destruct (Req_dec_T sc (anisotropy_scaling s)), (Req_dec_T an (anisotropy_angle s));
      tauto. }
  destruct Hsame as [[Hs Ha] | Hd].
  - rewrite update_anisotropy_same by assumption.
    destruct (frame_fields (Hrest s)) as (Fs & Fa & _ & _ & Fxa & Fya).
    rewrite Fs, Fa, Fxa, Fya. splits; auto.
    intros [H | H]; contradiction.
  - rewrite update_anisotropy_differs by exact Hd. fold adjusted.
    destruct adjusted as [[xa ya] | msg].
    + destruct (frame_fields (Hrest (set_adjusted xa ya (set_anisotropy sc an s))))
        as (Fs & Fa & _ & _ & Fxa & Fya).
      rewrite Fs, Fa, Fxa, Fya. simpl. splits; try reflexivity.
      * intros Hs Ha. destruct Hd; contradiction.
      * intros _. split.
        -- intros xa' ya' H. injection H as <- <-. split; reflexivity.
        -- intros msg H. discriminate H.
    + simpl. splits; try reflexivity.
      * intros Hs Ha. destruct Hd; contradiction.
      * intros _. split.
        -- intros xa ya H. discriminate H.
        -- intros msg' H. injection H as <-. splits; reflexivity.
Qed.

(** Two points stored with scaling 1 and angle 0, and a call with the
    scaling 2 and the angle 90 *)
Lemma update_variogram_model_anisotropy_arguments_witness :
  let s' := fst (update_variogram_model small_ext "custom" (Some [2; 1; 1])
                   (Some nugget_variogram) None None (Some 2) (Some 90) two_points) in
  anisotropy_scaling s' = 2 /\ anisotropy_angle s' = 90
  /\ exists xa ya,
       spec_adjust_for_anisotropy [0; 1] [0; 0] (1 / 2) 0 2 90 = Returns (xa, ya)
       /\ X_ADJUSTED s' = xa /\ Y_ADJUSTED s' = ya.
Proof.
  intros s'.
  destruct (update_variogram_model_anisotropy_arguments small_ext two_points "custom"
              (Some [2; 1; 1]) (Some nugget_variogram) None None (Some 2) (Some 90))
    as (Hs & Ha & _ & Hd).
  split; [exact Hs | split; [exact Ha | ]].
  eexists _, _. split; [reflexivity | ].
  apply Hd.
  - left. simpl. lra.
  - reflexivity.
Defined.

(** X15.  A call of [update_variogram_model] that returns leaves the
    session with the name of the call, with the function chosen for it,
    with the fit that [core.initialize_variogram_model] returns for the
    working frame of the call (without the two angles of the
    constructor), and with the statistics of that fit, whether or not the
    constructor computed any: [get_epsilon_residuals] and
    [get_statistics] then return values, Q1 and Q2 computed from the
    residuals and cR from Q2 and sigma. *)
Theorem update_variogram_model_returns_with_statistics :
  forall (ext : Externals) (s : Session) (model : string)
         (variogram_parameters : option (list R)) (given : option variogram)
         (nlags weight : option nat) (anisotropy_scaling_ anisotropy_angle_ : option R),
    let out := update_variogram_model ext model variogram_parameters given
                 nlags weight anisotropy_scaling_ anisotropy_angle_ s in
    let s' := fst out in
    snd out = Ok tt ->
    variogram_model s' = model
    /\ select_variogram_function ext model given = Ok (variogram_function s')
    /\ initialize_variogram_model ext (X_ADJUSTED s') (Y_ADJUSTED s') (Z s') model
         variogram_parameters (variogram_function s')
         (kwarg nlags 6%nat) (kwarg weight 0%nat) None None
       = Returns (lags s', semivariance s', semivariance_error s',
                  variogram_model_parameters s')
    /\ exists d sg e q1 q2 c,
         find_statistics ext (X_ADJUSTED s') (Y_ADJUSTED s') (Z s')
           (variogram_function s') (variogram_model_parameters s') = Returns (d, sg, e)
         /\ calcQ1 ext e = Returns q1 /\ calcQ2 ext e = Returns q2
         /\ calc_cR ext q2 sg = Returns c
         /\ delta s' = Some d /\ sigma s' = Some sg
         /\ get_epsilon_residuals s' = (s', Ok (Some e))
         /\ get_statistics s' = (s', Ok (Some q1, Some q2, Some c)).
Proof.
  intros ext s model params given nlags weight sc an out s' H. unfold s'. clear s'.
  pose proof (eq_refl out) as Eout. unfold out at 2 in Eout.
  unfold update_variogram_model in Eout. unfold bindM at 1 in Eout.
  clearbody out.
  destruct (update_anisotropy ext (kwarg sc 1) (kwarg an 0) s) as [s1 [[] | e]];
    [ | subst out; discriminate H].
  unfold bindM, assign, lift, self in Eout.
  cbn -[set_fit set_statistics set_Q1 set_Q2 set_cR set_variogram_function
        set_variogram_model] in Eout.
  destruct (select_variogram_function ext model given) as [f | e];
    [ | subst out; discriminate H].
  match type of Eout with
  | context [call ?o] => destruct o as [fit | msg] eqn:Efit
  end; [ | subst out; discriminate H].
  cbn -[set_fit set_statistics set_Q1 set_Q2 set_cR set_variogram_function
        set_variogram_model] in Eout.
  match type of Eout with
  | context [call ?o] => destruct o as [st | msg] eqn:Est
  end; [ | subst out; discriminate H].
  cbn -[set_fit set_statistics set_Q1 set_Q2 set_cR set_variogram_function
        set_variogram_model] in Eout.
  match type of Eout with
  | context [call ?o] => destruct o as [q1 | msg] eqn:Eq1
  end; [ | subst out; discriminate H].
  cbn -[set_fit set_statistics set_Q1 set_Q2 set_cR set_variogram_function
        set_variogram_model] in Eout.
  match type of Eout with
  | context [call ?o] => destruct o as [q2 | msg] eqn:Eq2
  end; [ | subst out; discriminate H].
  cbn -[set_fit set_statistics set_Q1 set_Q2 set_cR set_variogram_function
        set_variogram_model] in Eout.
  match type of Eout with
  | context [call ?o] => destruct o as [c | msg] eqn:Ec
  end; [ | subst out; discriminate H].
  cbn -[set_fit set_statistics set_Q1 set_Q2 set_cR set_variogram_function
        set_variogram_model] in Eout.
  subst out. destruct fit as [[[l sv] sve] p]. destruct st as [[d sg] e].
  simpl in *. splits; try reflexivity; try assumption.
  exists d, sg, e, q1, q2, c. splits; try reflexivity; assumption.
Qed.

Lemma update_variogram_model_returns_with_statistics_witness :
  let out := update_variogram_model echo_ext "custom" (Some [2; 1; 1])
               (Some nugget_variogram) None None None None two_points in
  snd out = Ok tt
  /\ snd (get_statistics (fst out)) = Ok (Some (5 + (7 + 0)), Some (5 + (7 + 0)), Some (5 + (7 + 0)))
  /\ snd (get_statistics two_points) = Ok (None, None, None).
Proof.
  intros out.
  assert (Hout : snd out = Ok tt).
  { unfold out, update_variogram_model. unfold bindM at 1.
    simpl kwarg. rewrite update_anisotropy_same by reflexivity. reflexivity. }
  split; [exact Hout | ].
  destruct (update_variogram_model_returns_with_statistics echo_ext two_points "custom"
              (Some [2; 1; 1]) (Some nugget_variogram) None None None None Hout)
    as (_ & _ & _ & d & sg & e & q1 & q2 & c & Est & Eq1 & Eq2 & Ec & _ & _ & _ & Hstat).
  fold out in Est, Hstat. split; [ | reflexivity].
  rewrite Hstat.
  replace (Z (fst out)) with [5; 7] in Est.
  2:{ unfold out, update_variogram_model. unfold bindM at 1.
      simpl kwarg. rewrite update_anisotropy_same by reflexivity. reflexivity. }
  simpl in Est, Eq1, Eq2, Ec. injection Est as <- <- <-.
  injection Eq1 as <-. injection Eq2 as <-. injection Ec as <-. reflexivity.
Defined.

(** ** The constructor, case by case *)

Lemma fold_left_Rmax_spec (t : list R) (x : R) :
  In (fold_left Rmax t x) (x :: t)
  /\ forall v, In v (x :: t) -> v <= fold_left Rmax t x.
Proof.
  revert x; induction t as [| y t IH]; intros x; simpl.
  - split; [left; reflexivity | intros v [<- | []]; lra].
  - destruct (IH (Rmax x y)) as [Hin Hub]. split.
    + destruct Hin as [E | Hin]; [ | right; right; exact Hin].
      rewrite <- E. unfold Rmax. destruct (Rle_dec x y); [right; left | left]; reflexivity.
    + intros v [<- | [<- | Hv]].
      * eapply Rle_trans; [apply Rmax_l | apply Hub; left; reflexivity].
      * eapply Rle_trans; [apply Rmax_r | apply Hub; left; reflexivity].
      * apply Hub. right. exact Hv.
Qed.

Lemma fold_left_Rmin_spec (t : list R) (x : R) :
  In (fold_left Rmin t x) (x :: t)
  /\ forall v, In v (x :: t) -> fold_left Rmin t x <= v.
Proof.
  revert x; induction t as [| y t IH]; intros x; simpl.
  - split; [left; reflexivity | intros v [<- | []]; lra].
  - destruct (IH (Rmin x y)) as [Hin Hlb]. split.
    + destruct Hin as [E | Hin]; [ | right; right; exact Hin].
      rewrite <- E. unfold Rmin. destruct (Rle_dec x y); [left | right; left]; reflexivity.
    + intros v [<- | [<- | Hv]].
      * eapply Rle_trans; [apply Hlb; left; reflexivity | apply Rmin_l].
      * eapply Rle_trans; [apply Hlb; left; reflexivity | apply Rmin_r].
      * apply Hlb. right. exact Hv.
Qed.

Lemma amax_spec (v : list R) (m : R) :
  amax v = Ok m -> In m v /\ forall x, In x v -> x <= m.
Proof.
  destruct v as [| x t]; simpl; [discriminate | ].
  intros H. injection H as <-. apply fold_left_Rmax_spec.
Qed.

Lemma amin_spec (v : list R) (m : R) :
  amin v = Ok m -> In m v /\ forall x, In x v -> m <= x.
Proof.
  destruct v as [| x t]; simpl; [discriminate | ].
  intros H. injection H as <-. apply fold_left_Rmin_spec.
Qed.

(** X16.  In a session that [__init__] returns, the centre of the
    transform is the midpoint of the bounding box of the data: XCENTER is
    half the sum of the largest and the smallest x coordinate, so it lies
    between them, and YCENTER likewise; the session holds the scaling and
    the angle of the call, and its working frame is what
    [core.adjust_for_anisotropy] returns for the data, that centre and
    these two values. *)
Theorem init_centre_and_frame :
  forall (ext : Externals) (x y z : list R) (model : string)
         (variogram_parameters : option (list R)) (given : option variogram)
         (nlags weight : nat) (scaling angle : R)
         (verbose_ enable_plotting_ enable_statistics : bool)
         (min_theta max_theta : option R) (s : Session),
    init ext x y z model variogram_parameters given nlags weight scaling angle
         verbose_ enable_plotting_ enable_statistics min_theta max_theta = Ok s ->
    (exists xmin xmax,
       In xmin x /\ In xmax x /\ (forall v, In v x -> xmin <= v <= xmax)
       /\ XCENTER s = (xmax + xmin) / 2 /\ xmin <= XCENTER s <= xmax)
    /\ (exists ymin ymax,
          In ymin y /\ In ymax y /\ (forall v, In v y -> ymin <= v <= ymax)
          /\ YCENTER s = (ymax + ymin) / 2 /\ ymin <= YCENTER s <= ymax)
    /\ anisotropy_scaling s = scaling /\ anisotropy_angle s = angle
    /\ adjust_for_anisotropy ext x y (XCENTER s) (YCENTER s) scaling angle
       = Returns (X_ADJUSTED s, Y_ADJUSTED s).
Proof.
  intros ext x y z model params given nlags weight sc an vb pl st mn mx s H.
  unfold init in H.
  step_as H xmax Exmax. step_as H xmin Exmin.
  step_as H ymax Eymax. step_as H ymin Eymin.
  step_as H adj Eadj. destruct adj as [xa ya].
  step_as H fn Efn. step_as H fit Efit. destruct fit as [[[l sv] sve] p].
  apply amax_spec in Exmax, Eymax. apply amin_spec in Exmin, Eymin.
  destruct Exmax as [Ixmax Uxmax]. destruct Exmin as [Ixmin Lxmin].
  destruct Eymax as [Iymax Uymax]. destruct Eymin as [Iymin Lymin].
  assert (Hs : XCENTER s = (xmax + xmin) / 2 /\ YCENTER s = (ymax + ymin) / 2
               /\ anisotropy_scaling s = sc /\ anisotropy_angle s = an
               /\ X_ADJUSTED s = xa /\ Y_ADJUSTED s = ya).
  { destruct st.
    - step_as H stats Estats. destruct stats as [[d sg] e].
      step_as H q1 Eq1. step_as H q2 Eq2. step_as H c Ec.
      injection H as <-. simpl. auto 10.
    - injection H as <-. simpl. auto 10. }
  destruct Hs as (Hxc & Hyc & Hsc & Han & Hxa & Hya).
  rewrite Hxc, Hyc, Hsc, Han, Hxa, Hya.
  pose proof (Uxmax xmin Ixmin) as Hx. pose proof (Uymax ymin Iymin) as Hy.
  splits; try reflexivity.
  - exists xmin, xmax. splits; try assumption; try reflexivity; try lra.
    intros v Hv. split; [apply Lxmin | apply Uxmax]; exact Hv.
  - exists ymin, ymax. splits; try assumption; try reflexivity; try lra.
    intros v Hv. split; [apply Lymin | apply Uymax]; exact Hv.
  - destruct (adjust_for_anisotropy ext x y ((xmax + xmin) / 2) ((ymax + ymin) / 2) sc an)
      as [r | msg]; simpl in Eadj; [injection Eadj as ->; reflexivity | discriminate].
Qed.

Lemma init_centre_and_frame_witness :
  XCENTER two_points = (1 + 0) / 2 /\ 0 <= XCENTER two_points <= 1.
Proof.
  destruct (@init_centre_and_frame small_ext [0; 1] [0; 0] [5; 7] "custom"
              (Some [2; 1; 1]) (Some nugget_variogram) 6 0 1 0 false false false None None
              two_points init_two_points)
    as ((xmin & xmax & Imin & Imax & Hbox & Hc & Hin) & _).
  assert (E0 : xmin = 0).
  { destruct (Hbox 0) as [H0 _]; [left; reflexivity | ].
    destruct Imin as [<- | [<- | []]]; lra. }
  assert (E1 : xmax = 1).
  { destruct (Hbox 1) as [_ H1]; [right; left; reflexivity | ].
    destruct Imax as [<- | [<- | []]]; lra. }
  subst xmin xmax. split; assumption.
Defined.

(** X17.  The statistics of a session that [__init__] returns.  Without
    [enable_statistics] the six attributes are [None]:
    [get_epsilon_residuals] returns [None] and [get_statistics] three
    times [None].  With it they are computed once, from the fit of the
    constructor: the residuals by [core.find_statistics], Q1 and Q2 from
    the residuals, cR from Q2 and sigma, and the two methods return
    them. *)
Theorem init_statistics_on_request :
  forall (ext : Externals) (x y z : list R) (model : string)
         (variogram_parameters : option (list R)) (given : option variogram)
         (nlags weight : nat) (scaling angle : R)
         (verbose_ enable_plotting_ enable_statistics : bool)
         (min_theta max_theta : option R) (s : Session),
    init ext x y z model variogram_parameters given nlags weight scaling angle
         verbose_ enable_plotting_ enable_statistics min_theta max_theta = Ok s ->
    if enable_statistics
    then exists d sg e q1 q2 c,
           find_statistics ext (X_ADJUSTED s) (Y_ADJUSTED s) (Z s)
             (variogram_function s) (variogram_model_parameters s) = Returns (d, sg, e)
           /\ calcQ1 ext e = Returns q1 /\ calcQ2 ext e = Returns q2
           /\ calc_cR ext q2 sg = Returns c
           /\ delta s = Some d /\ sigma s = Some sg
           /\ get_epsilon_residuals s = (s, Ok (Some e))
           /\ get_statistics s = (s, Ok (Some q1, Some q2, Some c))
    else delta s = None /\ sigma s = None
         /\ get_epsilon_residuals s = (s, Ok None)
         /\ get_statistics s = (s, Ok (None, None, None)).
Proof.
  intros ext x y z model params given nlags weight sc an vb pl st mn mx s H.
  unfold init in H.
  step_as H xmax Exmax. step_as H xmin Exmin.
  step_as H ymax Eymax. step_as H ymin Eymin.
  step_as H adj Eadj. destruct adj as [xa ya].
  step_as H fn Efn. step_as H fit Efit. destruct fit as [[[l sv] sve] p].
  destruct st.
  - destruct (find_statistics ext xa ya z fn p) as [[[d sg] e] | msg] eqn:Est;
      simpl in H; [ | discriminate H].
    destruct (calcQ1 ext e) as [q1 | msg] eqn:Eq1; simpl in H; [ | discriminate H].
    destruct (calcQ2 ext e) as [q2 | msg] eqn:Eq2; simpl in H; [ | discriminate H].
    destruct (calc_cR ext q2 sg) as [c | msg] eqn:Ec; simpl in H; [ | discriminate H].
    injection H as <-. exists d, sg, e, q1, q2, c. simpl.
    splits; try reflexivity; assumption.
  - injection H as <-. simpl. splits; reflexivity.
Qed.

Lemma init_statistics_on_request_witness :
  (exists s,
     init echo_ext [0; 1] [0; 0] [5; 7] "custom" (Some [2; 1; 1]) (Some nugget_variogram)
          6 0 1 0 false false true None None = Ok s
     /\ exists q1 q2 c, snd (get_statistics s) = Ok (Some q1, Some q2, Some c))
  /\ snd (get_statistics two_points) = Ok (None, None, None).
Proof.
  split.
  - assert (Hs : exists s,
              init echo_ext [0; 1] [0; 0] [5; 7] "custom" (Some [2; 1; 1])
                   (Some nugget_variogram) 6 0 1 0 false false true None None = Ok s).
    { eexists. reflexivity. }
    destruct Hs as [s Hs]. exists s. split; [exact Hs | ].
    destruct (@init_statistics_on_request echo_ext [0; 1] [0; 0] [5; 7] "custom"
                (Some [2; 1; 1]) (Some nugget_variogram) 6 0 1 0 false false true None None
                s Hs)
      as (d & sg & e & q1 & q2 & c & _ & _ & _ & _ & _ & _ & _ & Hstat).
    exists q1, q2, c. rewrite Hstat. reflexivity.
  - destruct (@init_statistics_on_request small_ext [0; 1] [0; 0] [5; 7] "custom"
                (Some [2; 1; 1]) (Some nugget_variogram) 6 0 1 0 false false false None None
                two_points init_two_points)
      as (_ & _ & _ & Hstat).
    rewrite Hstat. reflexivity.
Defined.

(** X18.  [__init__] raises the exception for an unsupported kind
    exactly when the name is neither a key of [variogram_dict] nor
    'custom', and the one for a missing function exactly when the name is
    'custom' and no function is given, both once the coordinate arrays
    have an entry and the transform has returned, which come first; the
    parameters of the fit are not looked at before. *)
Theorem init_kind_checks :
  forall (ext : Externals) (x y z : list R) (model : string)
         (variogram_parameters : option (list R)) (given : option variogram)
         (nlags weight : nat) (scaling angle : R)
         (verbose_ enable_plotting_ enable_statistics : bool)
         (min_theta max_theta : option R),
    let run := init ext x y z model variogram_parameters given nlags weight scaling angle
                    verbose_ enable_plotting_ enable_statistics min_theta max_theta in
    let ready :=
      exists xmax xmin ymax ymin r,
        amax x = Ok xmax /\ amin x = Ok xmin /\ amax y = Ok ymax /\ amin y = Ok ymin
        /\ adjust_for_anisotropy ext x y ((xmax + xmin) / 2) ((ymax + ymin) / 2)
             scaling angle = Returns r in
    (run = Err VariogramModelNotSupported
     <-> ready /\ variogram_dict ext model = None /\ model <> "custom")
    /\ (run = Err CustomFunctionMissing
        <-> ready /\ model = "custom" /\ given = None).
Proof.
  intros ext x y z model params given nlags weight sc an vb pl st mn mx run ready.
  destruct (select_variogram_function_cases ext model given)
    as (Hkind & Hcustom & _ & Hlib).
  unfold run, ready, init. clear run ready.
  destruct x as [| x0 xt].
  { simpl. split; (split; [discriminate | ]);
      intros ((xmax & xmin & ymax & ymin & r & H & _) & _); discriminate H. }
  destruct y as [| y0 yt].
  { simpl. split; (split; [discriminate | ]);
      intros ((xmax & xmin & ymax & ymin & r & _ & _ & H & _) & _); discriminate H. }
  cbn [amax amin bind].
  set (xc := (fold_left Rmax xt x0 + fold_left Rmin xt x0) / 2).
  set (yc := (fold_left Rmax yt y0 + fold_left Rmin yt y0) / 2).
  assert (Hready : forall P : Prop,
            ((exists xmax xmin ymax ymin r,
                Ok (fold_left Rmax xt x0) = Ok xmax /\ Ok (fold_left Rmin xt x0) = Ok xmin
                /\ Ok (fold_left Rmax yt y0) = Ok ymax /\ Ok (fold_left Rmin yt y0) = Ok ymin
                /\ adjust_for_anisotropy ext (x0 :: xt) (y0 :: yt) ((xmax + xmin) / 2)
                     ((ymax + ymin) / 2) sc an = Returns r) /\ P)
            <-> ((exists r, adjust_for_anisotropy ext (x0 :: xt) (y0 :: yt) xc yc sc an
                            = Returns r) /\ P)).
  { intros P. split.
    - intros ((xmax & xmin & ymax & ymin & r & E1 & E2 & E3 & E4 & Hr) & HP).
      injection E1 as <-. injection E2 as <-. injection E3 as <-. injection E4 as <-.
      split; [exists r; exact Hr | exact HP].
    - intros ([r Hr] & HP). split; [ | exact HP].
      exists (fold_left Rmax xt x0), (fold_left Rmin xt x0),
             (fold_left Rmax yt y0), (fold_left Rmin yt y0), r.
      splits; try reflexivity. exact Hr. }
  rewrite !Hready. clear Hready.
  destruct (adjust_for_anisotropy ext (x0 :: xt) (y0 :: yt) xc yc sc an)
    as [[xa ya] | msg]; simpl.
  2:{ split; (split; [discriminate | intros [[r Hr] _]; discriminate Hr]). }
  destruct (select_variogram_function ext model given) as [fn | e]; simpl.
  - split; split.
    + intros H. exfalso. revert H. raised_by_a_library.
    + intros (_ & Hd & Hc). assert (Hs := proj2 Hkind (conj Hd Hc)). discriminate Hs.
    + intros H. exfalso. revert H. raised_by_a_library.
    + intros (_ & Hc & Hg). assert (Hs := proj2 Hcustom (conj Hc Hg)). discriminate Hs.
  - split; split.
    + intros H. injection H as ->. split; [eexists; reflexivity | apply Hkind; reflexivity].
    + intros (_ & H). apply Hkind in H. injection H as ->. reflexivity.
    + intros H. injection H as ->. split; [eexists; reflexivity | apply Hcustom; reflexivity].
    + intros (_ & H). apply Hcustom in H. injection H as ->. reflexivity.
Qed.

Lemma init_kind_checks_witness :
  init small_ext [0; 1] [0; 0] [5; 7] "bogus" (Some [2; 1; 1]) (Some nugget_variogram)
       6 0 1 0 false false false None None = Err VariogramModelNotSupported
  /\ init small_ext [0; 1] [0; 0] [5; 7] "custom" (Some [2; 1; 1]) None
          6 0 1 0 false false false None None = Err CustomFunctionMissing.
Proof.
  split.
  - apply (init_kind_checks small_ext [0; 1] [0; 0] [5; 7] "bogus" (Some [2; 1; 1])
             (Some nugget_variogram) 6 0 1 0 false false false None None).
    split; [ | split; [reflexivity | discriminate]].
    eexists _, _, _, _, _. splits; reflexivity.
  - apply (init_kind_checks small_ext [0; 1] [0; 0] [5; 7] "custom" (Some [2; 1; 1])
             None 6 0 1 0 false false false None None).
    split; [ | split; reflexivity].
    eexists _, _, _, _, _. splits; reflexivity.
Defined.

(** X19.  The argument [variogram_function] is read for the kind
    'custom' only: with any other name, [__init__] and
    [update_variogram_model] do the same with and without it, and with
    whatever function is passed. *)
Theorem variogram_function_argument_only_for_custom :
  forall (ext : Externals) (model : string) (given given' : option variogram),
    model <> "custom" ->
    (forall (x y z : list R) (variogram_parameters : option (list R))
            (nlags weight : nat) (scaling angle : R)
            (verbose_ enable_plotting_ enable_statistics : bool)
            (min_theta max_theta : option R),
       init ext x y z model variogram_parameters given nlags weight scaling angle
            verbose_ enable_plotting_ enable_statistics min_theta max_theta
       = init ext x y z model variogram_parameters given' nlags weight scaling angle
              verbose_ enable_plotting_ enable_statistics min_theta max_theta)
    /\ (forall (variogram_parameters : option (list R)) (nlags weight : option nat)
               (anisotropy_scaling_ anisotropy_angle_ : option R) (s : Session),
          update_variogram_model ext model variogram_parameters given nlags weight
            anisotropy_scaling_ anisotropy_angle_ s
          = update_variogram_model ext model variogram_parameters given' nlags weight
              anisotropy_scaling_ anisotropy_angle_ s).
Proof.
  intros ext model given given' Hc.
  assert (Hsel : select_variogram_function ext model given
                 = select_variogram_function ext model given').
  { unfold select_variogram_function. apply String.eqb_neq in Hc. rewrite Hc.
    reflexivity. }
  split.
  - intros. unfold init. rewrite Hsel. reflexivity.
  - intros. unfold update_variogram_model. rewrite Hsel. reflexivity.
Qed.

Lemma variogram_function_argument_only_for_custom_witness :
  init small_ext [0; 1] [0; 0] [5; 7] "gaussian" (Some [2; 1; 1]) (Some nugget_variogram)
       6 0 1 0 false false false None None
  = init small_ext [0; 1] [0; 0] [5; 7] "gaussian" (Some [2; 1; 1]) None
         6 0 1 0 false false false None None.
Proof.
  apply (@variogram_function_argument_only_for_custom small_ext "gaussian"
           (Some nugget_variogram) None).
  discriminate.
Defined.

(** ** The two switches *)

(** X20.  [switch_verbose] negates the flag [verbose] and
    [switch_plotting] the flag [enable_plotting]; neither changes another
    attribute, so that a second call gives the session back, the two
    switches commute, and [execute] computes the same on the session
    before and after. *)
Theorem switches_toggle_one_flag :
  forall s : Session,
    let v := fst (switch_verbose s) in
    let p := fst (switch_plotting s) in
    verbose v = negb (verbose s) /\ enable_plotting v = enable_plotting s
    /\ enable_plotting p = negb (enable_plotting s) /\ verbose p = verbose s
    /\ fst (switch_verbose v) = s /\ fst (switch_plotting p) = s
    /\ fst (switch_plotting v) = fst (switch_verbose p)
    /\ (forall (ext : Externals) (style : string) (xpoints ypoints : list R)
               (mask : option mask2d) (backend : string) (n_closest_points : option nat),
          execute ext v style xpoints ypoints mask backend n_closest_points
          = execute ext s style xpoints ypoints mask backend n_closest_points
          /\ execute ext p style xpoints ypoints mask backend n_closest_points
             = execute ext s style xpoints ypoints mask backend n_closest_points).
Proof.
  intros s v p. unfold v, p, switch_verbose, switch_plotting, bindM, self, assign.
  destruct s. simpl. rewrite !negb_involutive. splits; try reflexivity.
  intros. split; reflexivity.
Qed.

(** ** What [execute] computes at a point *)

Lemma cdist_row (ps qs : list (R * R)) (k : nat) (p : R * R) :
  nth_error ps k = Some p -> nth_error (cdist ps qs) k = Some (map (euclidean p) qs).
Proof. intros H. unfold cdist. rewrite nth_error_map, H. reflexivity. Qed.

(** X21.  What a call of [execute] with the style 'points' returns,
    without the moving window and for a session with data: with the
    kriging matrix A of the session, the inverse that [scipy.linalg.inv]
    returns for it and the query points moved to the working frame by
    [core.adjust_for_anisotropy], the entry k of the two results is the
    solution of the system of the point k, for the distances from that
    point to the data points: the estimate is the sum of the weights
    A^-1 b times the values, and the variance the sill minus the sum of
    the weights times b, where b is the sill minus the variogram at those
    distances.  This holds with the backend 'vectorized' and with the
    backend 'loop'. *)
Theorem execute_points_solves_each_point :
  forall (ext : Externals) (s : Session) (xpoints ypoints : list R)
         (mask : option mask2d) (backend : string) (z v : ndarray1),
    has_data s ->
    execute ext s "points" xpoints ypoints mask backend None = Ok (Flat z, Flat v) ->
    exists a a_inv xq yq,
      get_kriging_matrix s (length (X_ADJUSTED s)) = Ok a
      /\ linalg_inv ext a = Returns a_inv
      /\ adjust_for_anisotropy ext xpoints ypoints (XCENTER s) (YCENTER s)
           (anisotropy_scaling s) (anisotropy_angle s) = Returns (xq, yq)
      /\ forall k, (k < length xpoints)%nat -> (k < size z)%nat ->
           exists zk vk,
             point_solution s a_inv (length (X_ADJUSTED s))
               (map (euclidean (nth k xq 0, nth k yq 0))
                    (combine (X_ADJUSTED s) (Y_ADJUSTED s))) = Ok (zk, vk)
             /\ cell_at z k = Some zk /\ cell_at v k = Some vk.
Proof.
  intros ext s xs ys mask backend z v Hdata H.
  destruct (execute_Ok_inv _ _ _ _ _ _ _ _ H)
    as (a & npt & xq0 & yq0 & mflat & xq & yq & xy_points & xy_data & [z0 v0]
        & _ & _ & Ea & Eq & Eadj & Exy & Edata & Esol & Ewrap).
  unfold query_points in Eq. simpl in Eq. step_as Eq u Elen.
  injection Eq as <- <- <- <-.
  simpl in Esol, Ewrap. injection Ewrap as <- <-.
  apply column_stack_length in Exy as Lxy. destruct Lxy as [Lq Lxy].
  unfold column_stack in Exy, Edata.
  step_as Exy u1 Lq'. injection Exy as <-. step_as Edata u2 Ld. injection Edata as <-.
  set (xy_data := combine (X_ADJUSTED s) (Y_ADJUSTED s)) in *.
  set (bd := cdist (combine xq yq) xy_data) in *.
  assert (Lbd : length bd = length xq).
  { unfold bd, cdist. rewrite length_map. exact Lxy. }
  assert (Hrow : forall k, (k < length bd)%nat ->
            nth_error bd k = Some (map (euclidean (nth k xq 0, nth k yq 0)) xy_data)).
  { intros k Hk. apply cdist_row.
    rewrite (nth_error_nth_in (combine xq yq) (0, 0)) by (rewrite Lxy, <- Lbd; exact Hk).
    rewrite combine_nth by exact Lq. reflexivity. }
  unfold solve in Esol. fold bd in Esol.
  destruct (backend =? "vectorized")%string.
  - apply exec_vector_cells in Esol.
    destruct Esol as (a_inv & Hinv & Sz & _ & Hcells).
    exists a, a_inv, xq, yq. splits; try assumption.
    intros k Hk Hkz. rewrite Sz in Hkz.
    destruct (Hcells k _ (Hrow k Hkz)) as (zk & vk & Hsol & _ & _ & Hval).
    exists zk, vk. split; [exact Hsol | ].
    apply Hval; [exact Hdata | apply nth_repeat_lt; exact Hk].
  - destruct (backend =? "loop")%string; [ | discriminate Esol].
    apply exec_loop_cells in Esol.
    destruct Esol as (a_inv & Hinv & Sz & _ & _ & Hcells).
    exists a, a_inv, xq, yq. splits; try assumption.
    intros k Hk Hkz. rewrite Sz in Hkz.
    destruct (Hcells k) as (bd_k & zk & vk & Hbd & Hsol & Ez & Ev).
    { apply unmasked_in. apply nth_repeat_lt. exact Hk. }
    rewrite (Hrow k Hkz) in Hbd. injection Hbd as <-.
    exists zk, vk. auto.
Qed.

Lemma execute_points_solves_each_point_witness :
  exists a_inv zk vk,
    linalg_inv small_ext [[1; 0]; [0; 1]] = Returns a_inv
    /\ point_solution two_points a_inv 2
         (map (euclidean (0, 0)) [(0, 0); (1, 0)]) = Ok (zk, vk)
    /\ zk = 5 /\ vk = 1.
Proof.
  destruct (@execute_points_solves_each_point small_ext two_points [0] [0] None "loop"
              (Plain [5]) (Plain [1]) two_points_has_data execute_at_first_point_loop)
    as (a & a_inv & xq & yq & Ha & Hinv & Hadj & Hk).
  change (length (X_ADJUSTED two_points)) with 2%nat in Ha.
  rewrite two_points_matrix in Ha. injection Ha as <-.
  change (adjust_for_anisotropy small_ext) with spec_adjust_for_anisotropy in Hadj.
  rewrite spec_adjust_identity in Hadj by reflexivity. injection Hadj as <- <-.
  destruct (Hk 0%nat) as (zk & vk & Hsol & Ez & Ev);
    [simpl; lia | unfold size; simpl; lia | ].
  exists a_inv, zk, vk. splits; try assumption.
  - unfold cell_at in Ez. simpl in Ez. injection Ez as <-. reflexivity.
  - unfold cell_at in Ev. simpl in Ev. injection Ev as <-. reflexivity.
Defined.

(** ** Sessions that [execute] refuses *)

(** X22.  A session built by [__init__] with the kind 'linear', which is
    the default of the constructor, or 'power', and a session left by a
    call of [update_variogram_model] with one of them, whether that call
    returned or raised after the name was assigned, fail every call of
    [execute] with the exception of the kind check. *)
Theorem linear_and_power_sessions_never_execute :
  forall (ext : Externals) (model : string),
    model = "linear" \/ model = "power" ->
    (forall (x y z : list R) (variogram_parameters : option (list R))
            (given : option variogram) (nlags weight : nat) (scaling angle : R)
            (verbose_ enable_plotting_ enable_statistics : bool)
            (min_theta max_theta : option R) (s : Session),
       init ext x y z model variogram_parameters given nlags weight scaling angle
            verbose_ enable_plotting_ enable_statistics min_theta max_theta = Ok s ->
       forall style xpoints ypoints mask backend n_closest_points,
         execute ext s style xpoints ypoints mask backend n_closest_points
         = Err IllBehavedCorrelation)
    /\ (forall (variogram_parameters : option (list R)) (given : option variogram)
               (nlags weight : option nat)
               (anisotropy_scaling_ anisotropy_angle_ : option R) (s : Session),
          let out := update_variogram_model ext model variogram_parameters given
                       nlags weight anisotropy_scaling_ anisotropy_angle_ s in
          snd (update_anisotropy ext (kwarg anisotropy_scaling_ 1)
                 (kwarg anisotropy_angle_ 0) s) = Ok tt ->
          forall style xpoints ypoints mask backend n_closest_points,
            execute ext (fst out) style xpoints ypoints mask backend n_closest_points
            = Err IllBehavedCorrelation).
Proof.
  intros ext model Hmodel.
  assert (Hraise : forall s, variogram_model s = model ->
            forall style xs ys mask backend k,
              execute ext s style xs ys mask backend k = Err IllBehavedCorrelation).
  { intros s Hs style xs ys mask backend k. unfold execute. rewrite Hs.
    destruct Hmodel as [-> | ->]; reflexivity. }
  split.
  - intros x y z params given nlags weight sc an vb pl st mn mx s H.
    apply Hraise. unfold init in H.
    step_as H xmax Exmax. step_as H xmin Exmin.
    step_as H ymax Eymax. step_as H ymin Eymin.
    step_as H adj Eadj. destruct adj as [xa ya].
    step_as H fn Efn. step_as H fit Efit. destruct fit as [[[l sv] sve] p].
    destruct st.
    + step_as H stats Estats. destruct stats as [[d sg] e].
      step_as H q1 Eq1. step_as H q2 Eq2. step_as H c Ec.
      injection H as <-. reflexivity.
    + injection H as <-. reflexivity.
  - intros params given nlags weight sc an s out Hfirst. apply Hraise.
    unfold out, update_variogram_model. unfold bindM at 1.
    destruct (update_anisotropy ext (kwarg sc 1) (kwarg an 0) s) as [s1 [[] | e]];
      [ | discriminate Hfirst].
    unfold bindM at 1. cbn [assign].
    match goal with
    | |- variogram_model (fst (?rest ?s2)) = _ =>
        assert (Hrest : keeps variogram_model rest) by keep_steps;
        rewrite (Hrest s2)
    end.
    reflexivity.
Qed.

Lemma linear_and_power_sessions_never_execute_witness :
  let s := fst (update_variogram_model small_ext "linear" (Some [1; 0]) None
                  None None None None two_points) in
  execute small_ext s "points" [0] [0] None "loop" None = Err IllBehavedCorrelation.
Proof.
  intros s.
  destruct (@linear_and_power_sessions_never_execute small_ext "linear"
              (or_introl eq_refl)) as [_ H].
  apply H. simpl kwarg. rewrite update_anisotropy_same by reflexivity. reflexivity.
Defined.

(** ** Values that do not match the data points *)

Lemma np_sum_scaled (u : list R) (c : R) : np_sum (map (fun x => x * c) u) = c * np_sum u.
Proof.
  unfold np_sum. induction u as [| x u IH]; simpl; [ring | ]. rewrite IH. ring.
Qed.

(** X23.  The constructor compares no lengths, and the solvers compare
    them as NumPy broadcasts a product.  A call of [execute] with the
    backend 'vectorized' returns only for a session whose array of values
    has the length of the data, or one entry, or whose data are one
    point.  A single value is not refused: it is multiplied with every
    weight, so that the estimate of a point is that value times the sum of
    the weights of the point. *)
Theorem values_are_broadcast_not_checked :
  forall (ext : Externals) (s : Session),
    let n := length (X_ADJUSTED s) in
    (forall style xpoints ypoints mask r,
       execute ext s style xpoints ypoints mask "vectorized" None = Ok r ->
       length (Z s) = n \/ length (Z s) = 1%nat \/ n = 1%nat)
    /\ (forall a_inv bd zk vk z0,
          Z s = [z0] -> length a_inv <> 1%nat ->
          point_solution s a_inv n bd = Ok (zk, vk) ->
          exists sill b,
            getitem0 (variogram_model_parameters s) = Ok sill
            /\ cross_covariance s n sill bd = Ok b
            /\ zk = z0 * np_sum (mat_vec a_inv b)).
Proof.
  intros ext s n. split.
  - intros style xs ys mask r H.
    destruct (execute_Ok_inv _ _ _ _ _ _ _ _ H)
      as (a & npt & xq & yq & mflat & xpts & ypts & xy_points & xy_data & sol
          & _ & _ & _ & _ & _ & _ & _ & Esol & _).
    unfold solve in Esol. simpl in Esol. unfold exec_vector in Esol.
    step_as Esol a_inv Einv. step_as Esol sill Esill. step_as Esol b Eb.
    step_as Esol u1 Emask. step_as Esol u2 Eal. step_as Esol u3 Eshape.
    step_as Esol u4 Ebc. apply require_Ok_inv in Ebc.
    unfold broadcastable in Ebc. fold n in Ebc.
    apply orb_true_iff in Ebc. destruct Ebc as [Ebc | Ebc].
    + apply orb_true_iff in Ebc. destruct Ebc as [Ebc | Ebc]; apply Nat.eqb_eq in Ebc.
      * left. symmetry. exact Ebc.
      * right. right. exact Ebc.
    + apply Nat.eqb_eq in Ebc. right. left. exact Ebc.
  - intros a_inv bd zk vk z0 Hz Ha H. unfold point_solution in H.
    step_as H sill Esill. step_as H b Eb. step_as H x Ex.
    step_as H xz Exz. step_as H xb Exb. injection H as <- _.
    exists sill, b. splits; try assumption.
    unfold np_dot_vec in Ex. step_as Ex u Eal. injection Ex as <-.
    unfold np_mul in Exz. step_as Exz u' Ebc. injection Exz as <-.
    unfold broadcast_mul. rewrite Hz, mat_vec_length. simpl length.
    apply Nat.eqb_neq in Ha. rewrite Ha. simpl. apply np_sum_scaled.
Qed.

(** Two data points with a single value, 5: at the first data point the
    weights are 1 and 0, and the estimate is 5. *)
Lemma values_are_broadcast_not_checked_witness :
  let s := session_of [0; 1] [0; 0] [5] (1 / 2) 0 [2; 1; 1] nugget_variogram in
  exists zk vk b,
    point_solution s [[1; 0]; [0; 1]] 2 [0; 1] = Ok (zk, vk)
    /\ cross_covariance s 2 2 [0; 1] = Ok b
    /\ zk = 5 * np_sum (mat_vec [[1; 0]; [0; 1]] b).
Proof.
  intros s.
  assert (Hsol : exists r, point_solution s [[1; 0]; [0; 1]] 2 [0; 1] = Ok r).
  { eexists. reflexivity. }
  destruct Hsol as [[zk vk] Hsol].
  destruct (values_are_broadcast_not_checked small_ext s) as [_ H].
  destruct (H [[1; 0]; [0; 1]] [0; 1] zk vk 5 eq_refl) as (sill & b & Esill & Eb & Ez);
    [simpl; lia | exact Hsol | ].
  injection Esill as <-.
  exists zk, vk, b. auto.
Defined.
